(** * imagemodify: byte-level model of the JPEG/PNG digest-changing library

    A shallow embedding of the Go packages [imagesha1] / [imagemodify]
    (segment and chunk editing, border-pixel perturbation, metadata
    codec, digest guard) with the properties of its specification.

    Conventions.
    - A Go [[]byte] and a Go [string] are both [list byte]: the
      conversions [[]byte(s)] and [string(b)] copy the bytes unchanged.
    - A Go [int] is a [Z]; the platform is taken to be 64-bit and the
      offsets handled here stay far below [2^63], so [int] arithmetic is
      written without wrap-around.  Conversions to narrower types
      ([byte(x)], [uint32(x)]) are written with their wrap-around.
    - Library calls whose result the library decides (crypto/sha1,
      encoding/json, image/png, image/jpeg) are section variables. *)

From Stdlib Require Import ZArith List Lia Bool.
From Stdlib Require Import Strings.Byte Strings.String Strings.Ascii.
From stdpp Require Import base option list gmap strings.

Import ListNotations.
Local Open Scope Z_scope.

(** ** Bytes *)

Definition u8 (b : byte) : Z := Z.of_N (Byte.to_N b).

(** [byte(x)]: conversion of an integer to [uint8] keeps the low 8 bits. *)
Definition byte_of (z : Z) : byte :=
  match Byte.of_N (Z.to_N (z mod 256)) with
  | Some b => b
  | None => x00
  end.

#[global] Instance byte_eq_dec : EqDecision byte := Byte.byte_eq_dec.

(** [len(s)] *)
Definition len {A} (l : list A) : Z := Z.of_nat (length l).

(** [s[a:b]], [s[a:]], [s[:b]] and [s[i]] on offsets that the callers
    keep in range. *)
Definition slice (l : list byte) (a b : Z) : list byte :=
  take (Z.to_nat (b - a)) (drop (Z.to_nat a) l).
Definition slice_from (l : list byte) (a : Z) : list byte := drop (Z.to_nat a) l.
Definition slice_to (l : list byte) (b : Z) : list byte := take (Z.to_nat b) l.
Definition at_ (l : list byte) (i : Z) : byte := nth (Z.to_nat i) l x00.

(** [bytes.Equal] *)
Definition bytes_Equal (a b : list byte) : bool := bool_decide (a = b).

(** The bytes of a literal. *)
Definition lit (s : string) : list byte := list_byte_of_string s.

(** ** encoding/binary, big endian *)

Definition uint32 (z : Z) : Z := z mod 2 ^ 32.

Definition PutUint32 (v : Z) : list byte :=
  [byte_of (Z.shiftr v 24); byte_of (Z.shiftr v 16); byte_of (Z.shiftr v 8); byte_of v].

Definition Uint32 (b : list byte) : Z :=
  Z.lor (Z.lor (Z.lor (u8 (at_ b 3)) (Z.shiftl (u8 (at_ b 2)) 8))
               (Z.shiftl (u8 (at_ b 1)) 16))
        (Z.shiftl (u8 (at_ b 0)) 24).

(** ** hash/crc32, IEEE polynomial (reflected form [0xEDB88320]) *)

Definition crc32_poly : Z := 0xEDB88320.

Definition crc32_shift (c : Z) : Z :=
  if Z.testbit c 0 then Z.lxor (Z.shiftr c 1) crc32_poly else Z.shiftr c 1.

Definition crc32_byte (c : Z) (b : byte) : Z :=
  let c := Z.lxor c (u8 b) in
  crc32_shift (crc32_shift (crc32_shift (crc32_shift
    (crc32_shift (crc32_shift (crc32_shift (crc32_shift c))))))).

Definition ChecksumIEEE (data : list byte) : Z :=
  Z.lxor (fold_left crc32_byte data 0xFFFFFFFF) 0xFFFFFFFF.

(** ** crypto/sha1 (FIPS 180-4), used to instantiate the digest *)

Module SHA1.

Definition w32 (z : Z) : Z := z mod 2 ^ 32.
Definition rotl (n x : Z) : Z :=
  w32 (Z.lor (Z.shiftl x n) (Z.shiftr x (32 - n))).

Definition PutUint64 (v : Z) : list byte :=
  map (fun k => byte_of (Z.shiftr v (8 * k))) [7; 6; 5; 4; 3; 2; 1; 0].

Definition pad (msg : list byte) : list byte :=
  let l := len msg in
  let k := (55 - l) mod 64 in
  msg ++ [x80] ++ repeat x00 (Z.to_nat k) ++ PutUint64 (8 * l).

Fixpoint words (n : nat) (b : list byte) : list Z :=
  match n with
  | O => []
  | S n => Uint32 (take 4 b) :: words n (drop 4 b)
  end.

(** The message schedule, newest word first. *)
Fixpoint schedule (n : nat) (w : list Z) : list Z :=
  match n with
  | O => w
  | S n =>
      let x := Z.lxor (Z.lxor (nth 2 w 0) (nth 7 w 0))
                      (Z.lxor (nth 13 w 0) (nth 15 w 0)) in
      schedule n (rotl 1 x :: w)
  end.

Definition f (t b c d : Z) : Z :=
  if t <? 20 then Z.lor (Z.land b c) (Z.land (Z.lxor b 0xFFFFFFFF) d)
  else if t <? 40 then Z.lxor (Z.lxor b c) d
  else if t <? 60 then Z.lor (Z.lor (Z.land b c) (Z.land b d)) (Z.land c d)
  else Z.lxor (Z.lxor b c) d.

Definition K (t : Z) : Z :=
  if t <? 20 then 0x5A827999
  else if t <? 40 then 0x6ED9EBA1
  else if t <? 60 then 0x8F1BBCDC
  else 0xCA62C1D6.

Record state := St { ha : Z; hb : Z; hc : Z; hd : Z; he : Z }.

Definition round (s : state * Z) (w : Z) : state * Z :=
  let '(St a b c d e, t) := s in
  let tmp := w32 (rotl 5 a + f t b c d + e + w + K t) in
  (St tmp a (rotl 30 b) c d, t + 1).

Definition block (h : state) (b : list byte) : state :=
  let w := rev (schedule 64 (rev (words 16 b))) in
  let '(St a b' c d e, _) := fold_left round w (h, 0) in
  St (w32 (ha h + a)) (w32 (hb h + b')) (w32 (hc h + c))
     (w32 (hd h + d)) (w32 (he h + e)).

Fixpoint blocks (n : nat) (h : state) (b : list byte) : state :=
  match n with
  | O => h
  | S n => blocks n (block h (take 64 b)) (drop 64 b)
  end.

Definition Sum (msg : list byte) : list byte :=
  let p := pad msg in
  let h := blocks (length p / 64)%nat
             (St 0x67452301 0xEFCDAB89 0x98BADCFE 0x10325476 0xC3D2E1F0) p in
  PutUint32 (ha h) ++ PutUint32 (hb h) ++ PutUint32 (hc h)
    ++ PutUint32 (hd h) ++ PutUint32 (he h).

End SHA1.

(** [fmt.Sprintf("%x", digest)]: two lower-case hexadecimal digits per byte. *)
Definition hex_digit (n : Z) : byte :=
  if n <? 10 then byte_of (48 + n) else byte_of (87 + n).

Definition hex (d : list byte) : list byte :=
  flat_map (fun b => [hex_digit (u8 b / 16); hex_digit (u8 b mod 16)]) d.

(** ** JPEG comment segments *)

(** [insertJPEGComment]: the comment segment goes right after the SOI
    marker.  Buffers shorter than 4 bytes are returned as they are. *)
Definition commentSegment (comment : list byte) : list byte :=
  let commentLength := len comment + 2 in
  [xff; xfe] ++ [byte_of (Z.shiftr commentLength 8); byte_of (Z.land commentLength 0xFF)]
    ++ comment.

Definition insertJPEGComment (data comment : list byte) : list byte :=
  if len data <? 4 then data
  else
    let insertPos := 2 in
    slice_to data insertPos ++ commentSegment comment ++ slice_from data insertPos.

(** [int(data[pos])<<8 | int(data[pos+1])] *)
Definition segmentLen_at (data : list byte) (pos : Z) : Z :=
  Z.lor (Z.shiftl (u8 (at_ data pos)) 8) (u8 (at_ data (pos + 1))).

(** [marker >= 0xE0 && marker <= 0xEF || marker == 0xFE] *)
Definition has_length_field (marker : byte) : bool :=
  (0xE0 <=? u8 marker) && (u8 marker <=? 0xEF) || (u8 marker =? 0xFE).

(** The loop of [removeJPEGComments]; one unit of fuel per iteration.
    Every iteration moves [pos] forward by at least 2, so [length data]
    units are never used up (see [removeJPEGComments_loop_fuel]). *)
Fixpoint removeJPEGComments_loop (fuel : nat) (data : list byte) (pos : Z)
    (result : list byte) : list byte :=
  match fuel with
  | O => result
  | S fuel =>
      if pos <? len data - 4 then
        if negb (u8 (at_ data pos) =? 0xFF) then result ++ slice_from data pos
        else
          let marker := at_ data (pos + 1) in
          let pos := pos + 2 in
          if u8 marker =? 0xFE then
            if pos + 2 >? len data then result
            else
              let segmentLen := segmentLen_at data pos in
              removeJPEGComments_loop fuel data (pos + segmentLen) result
          else
            let result := result ++ [xff; marker] in
            if has_length_field marker then
              if pos + 2 >? len data then result
              else
                let segmentLen := segmentLen_at data pos in
                let endPos := pos + segmentLen in
                let endPos := if endPos >? len data then len data else endPos in
                removeJPEGComments_loop fuel data endPos (result ++ slice data pos endPos)
            else result ++ slice_from data pos
      else result
  end.

Definition removeJPEGComments (data : list byte) : list byte :=
  if len data <? 4 then data
  else removeJPEGComments_loop (length data) data 2 (slice_to data 2).

(** The loop of [extractJPEGComment]; [None] is Go's [nil]. *)
Fixpoint extractJPEGComment_loop (fuel : nat) (data : list byte) (pos : Z)
    : option (list byte) :=
  match fuel with
  | O => None
  | S fuel =>
      if pos <? len data - 4 then
        if negb (u8 (at_ data pos) =? 0xFF) then None
        else
          let marker := at_ data (pos + 1) in
          let pos := pos + 2 in
          if u8 marker =? 0xFE then
            if pos + 2 >? len data then None
            else
              let segmentLen := segmentLen_at data pos in
              let pos := pos + 2 in
              let commentLen := segmentLen - 2 in
              if (pos + commentLen <=? len data) && (commentLen >? 0)
              then Some (slice data pos (pos + commentLen))
              else None
          else if has_length_field marker then
            if pos + 2 >? len data then None
            else
              let segmentLen := segmentLen_at data pos in
              extractJPEGComment_loop fuel data (pos + segmentLen)
          else None
      else None
  end.

Definition extractJPEGComment (data : list byte) : option (list byte) :=
  if len data <? 4 then None
  else extractJPEGComment_loop (length data) data 2.

(** ** PNG chunks *)

Definition pngSignature : list byte := [x89; x50; x4e; x47; x0d; x0a; x1a; x0a].

(** [len(data) < 8 || !bytes.Equal(data[:8], signature)] *)
Definition lacks_png_signature (data : list byte) : bool :=
  (len data <? 8) || negb (bytes_Equal (slice_to data 8) pngSignature).

(** The loop of [findPNGIENDChunk]; [-1] when no IEND chunk is met. *)
Fixpoint findPNGIENDChunk_loop (fuel : nat) (data : list byte) (pos : Z) : Z :=
  match fuel with
  | O => -1
  | S fuel =>
      if pos <? len data - 8 then
        if pos + 4 >? len data then -1
        else
          let chunkLen := Uint32 (slice data pos (pos + 4)) in
          let pos := pos + 4 in
          if pos + 4 >? len data then -1
          else
            let chunkType := slice data pos (pos + 4) in
            let pos := pos + 4 in
            if bytes_Equal chunkType (lit "IEND") then pos - 8
            else findPNGIENDChunk_loop fuel data (pos + (chunkLen + 4))
      else -1
  end.

Definition findPNGIENDChunk (data : list byte) : Z :=
  findPNGIENDChunk_loop (length data) data 8.

(** [createPNGTextChunk]: length, type, payload, CRC. *)
Definition createPNGTextChunk (keyword text : list byte) : list byte :=
  let textData := keyword ++ [x00] ++ text in
  let lengthBytes := PutUint32 (uint32 (len textData)) in
  let chunkType := lit "tEXt" in
  let crcData := chunkType ++ textData in
  let crc := ChecksumIEEE crcData in
  lengthBytes ++ chunkType ++ textData ++ PutUint32 crc.

(** [insertPNGTextChunk] builds the same chunk inline and splices it in
    front of the IEND chunk, or at the end when there is none. *)
Definition insertPNGTextChunk (data keyword text : list byte) : list byte :=
  let iendPos := findPNGIENDChunk data in
  let iendPos := if iendPos =? -1 then len data else iendPos in
  let textData := keyword ++ [x00] ++ text in
  let lengthBytes := PutUint32 (uint32 (len textData)) in
  let chunkType := lit "tEXt" in
  let crcData := chunkType ++ textData in
  let crc := ChecksumIEEE crcData in
  let chunk := lengthBytes ++ chunkType ++ textData ++ PutUint32 crc in
  slice_to data iendPos ++ chunk ++ slice_from data iendPos.

Definition is_text_chunk_type (chunkType : list byte) : bool :=
  bytes_Equal chunkType (lit "tEXt") || bytes_Equal chunkType (lit "zTXt")
  || bytes_Equal chunkType (lit "iTXt").

(** The loop of [removeExistingTextChunks]. *)
Fixpoint removeExistingTextChunks_loop (fuel : nat) (data : list byte) (pos : Z)
    (result : list byte) : list byte :=
  match fuel with
  | O => result
  | S fuel =>
      if pos <? len data - 8 then
        if pos + 4 >? len data then result
        else
          let chunkLen := Uint32 (slice data pos (pos + 4)) in
          if pos + 8 >? len data then result
          else
            let chunkType := slice data (pos + 4) (pos + 8) in
            let totalChunkSize := chunkLen + 12 in
            let chunkEnd := pos + totalChunkSize in
            if chunkEnd >? len data then result ++ slice_from data pos
            else if is_text_chunk_type chunkType then
              removeExistingTextChunks_loop fuel data chunkEnd result
            else
              removeExistingTextChunks_loop fuel data chunkEnd
                (result ++ slice data pos chunkEnd)
      else result
  end.

(** The caller has checked the signature, so [data[:8]] is in range. *)
Definition removeExistingTextChunks (data : list byte) : list byte :=
  removeExistingTextChunks_loop (length data) data 8 (slice_to data 8).

Definition insertPNGTextChunks (data : list byte) (chunks : list (list byte)) : list byte :=
  let iendPos := findPNGIENDChunk data in
  let iendPos := if iendPos =? -1 then len data else iendPos in
  slice_to data iendPos ++ concat chunks ++ slice_from data iendPos.

(** ** strconv and strings *)

Definition isDigit (b : byte) : bool := (48 <=? u8 b) && (u8 b <=? 57).
Definition digit (d : Z) : byte := byte_of (48 + d).

(** Decimal digits of a non-negative integer, most significant first. *)
Fixpoint decimal_loop (fuel : nat) (n : Z) (acc : list byte) : list byte :=
  match fuel with
  | O => acc
  | S fuel =>
      let acc := digit (n mod 10) :: acc in
      if n / 10 =? 0 then acc else decimal_loop fuel (n / 10) acc
  end.

Definition decimal (n : Z) : list byte :=
  decimal_loop (S (Z.to_nat (Z.log2 n))) n [].

(** [strconv.Itoa] *)
Definition Itoa (n : Z) : list byte :=
  if n <? 0 then x2d :: decimal (- n) else decimal n.

Definition digits_value (s : list byte) : Z :=
  fold_left (fun a b => a * 10 + (u8 b - 48)) s 0.

(** [strconv.Atoi]: optional sign, at least one digit, only digits, and
    a value that fits a 64-bit [int]; [None] stands for any error. *)
Definition Atoi (s : list byte) : option Z :=
  let '(neg, ds) :=
    match s with
    | b :: r =>
        if bool_decide (b = x2d) then (true, r)
        else if bool_decide (b = x2b) then (false, r) else (false, s)
    | [] => (false, [])
    end in
  if bool_decide (ds = []) || negb (forallb isDigit ds) then None
  else
    let v := if neg : bool then - digits_value ds else digits_value ds in
    if (v <? - 2 ^ 63) || (v >? 2 ^ 63 - 1) then None else Some v.

(** [strings.ToLower] on ASCII letters; the keywords compared against it
    below are ASCII.  Other bytes are kept. *)
Definition lower_byte (b : byte) : byte :=
  if (65 <=? u8 b) && (u8 b <=? 90) then byte_of (u8 b + 32) else b.
Definition ToLower (s : list byte) : list byte := map lower_byte s.

(** ** time.Time, with the one layout written and the two layouts read *)

(** The civil fields of a [time.Time] in its own location, and the
    offset of that location east of UTC in seconds. *)
Record Time := mkTime {
  Year : Z; Month : Z; Day : Z;
  Hour : Z; Minute : Z; Second : Z; Nanosecond : Z;
  ZoneOffset : Z
}.

#[global] Instance Time_eq_dec : EqDecision Time.
Proof. solve_decision. Defined.

Definition isLeap (year : Z) : bool :=
  (year mod 4 =? 0) && (negb (year mod 100 =? 0) || (year mod 400 =? 0)).

Definition daysIn (m year : Z) : Z :=
  if (m =? 2) && isLeap year then 29
  else if m =? 2 then 28
  else if (m =? 4) || (m =? 6) || (m =? 9) || (m =? 11) then 30
  else 31.

(** What every [time.Time] value satisfies. *)
Definition Time_valid (t : Time) : Prop :=
  1 <= Month t <= 12 /\ 1 <= Day t <= daysIn (Month t) (Year t) /\
  0 <= Hour t < 24 /\ 0 <= Minute t < 60 /\ 0 <= Second t < 60 /\
  0 <= Nanosecond t < 1000000000.

(** [appendInt]: sign, then the digits padded with zeros to [width]. *)
Definition appendInt (x width : Z) : list byte :=
  let u := Z.abs x in
  (if x <? 0 then [x2d] else []) ++
  (if (width =? 2) && (u <? 100) then [digit (u / 10); digit (u mod 10)]
   else if (width =? 4) && (u <? 10000) then
     [digit (u / 1000); digit (u / 100 mod 10); digit (u / 10 mod 10); digit (u mod 10)]
   else
     let d := decimal u in
     repeat x30 (Z.to_nat (width - len d)) ++ d).

(** The elements of a layout that the two layouts below are made of. *)
Inductive layoutItem :=
| stdLongYear | stdZeroMonth | stdZeroDay | stdHour | stdZeroMinute | stdZeroSecond
| literal (b : byte).

(** ["2006-01-02T15:04:05Z"]: the final [Z] is not followed by a zone
    pattern, so it is a literal character. *)
Definition layoutISO : list layoutItem :=
  [stdLongYear; literal x2d; stdZeroMonth; literal x2d; stdZeroDay; literal x54;
   stdHour; literal x3a; stdZeroMinute; literal x3a; stdZeroSecond; literal x5a].

(** ["2006:01:02 15:04:05"] *)
Definition layoutLegacy : list layoutItem :=
  [stdLongYear; literal x3a; stdZeroMonth; literal x3a; stdZeroDay; literal x20;
   stdHour; literal x3a; stdZeroMinute; literal x3a; stdZeroSecond].

Definition format_item (t : Time) (it : layoutItem) : list byte :=
  match it with
  | stdLongYear => appendInt (Year t) 4
  | stdZeroMonth => appendInt (Month t) 2
  | stdZeroDay => appendInt (Day t) 2
  | stdHour => appendInt (Hour t) 2
  | stdZeroMinute => appendInt (Minute t) 2
  | stdZeroSecond => appendInt (Second t) 2
  | literal b => [b]
  end.

(** [t.Format(layout)] *)
Definition Format (layout : list layoutItem) (t : Time) : list byte :=
  flat_map (format_item t) layout.

(** [getnum]: one or two digits; two are required when [fixed]. *)
Definition getnum (s : list byte) (fixed : bool) : option (Z * list byte) :=
  match s with
  | a :: r =>
      if isDigit a then
        match r with
        | b :: r' =>
            if isDigit b then Some ((u8 a - 48) * 10 + (u8 b - 48), r')
            else if fixed then None else Some (u8 a - 48, r)
        | [] => if fixed then None else Some (u8 a - 48, r)
        end
      else None
  | [] => None
  end.

Fixpoint cutspace (s : list byte) : list byte :=
  match s with
  | b :: r => if bool_decide (b = x20) then cutspace r else s
  | [] => []
  end.

(** [skip] for a one-character prefix: a space in the layout matches
    any run of spaces at the front of a non-empty value. *)
Definition skip (value : list byte) (b : byte) : option (list byte) :=
  if bool_decide (b = x20) then
    match value with
    | v :: _ => if bool_decide (v = x20) then Some (cutspace value) else None
    | [] => Some []
    end
  else
    match value with
    | v :: r => if bool_decide (v = b) then Some r else None
    | [] => None
    end.

Definition commaOrPeriod (b : byte) : bool := bool_decide (b = x2e) || bool_decide (b = x2c).

Fixpoint span_digits (s : list byte) : list byte * list byte :=
  match s with
  | b :: r => if isDigit b then let '(d, r') := span_digits r in (b :: d, r') else ([], s)
  | [] => ([], [])
  end.

(** A fractional second in the value that the layout does not announce:
    up to nine digits are read as nanoseconds, further digits dropped. *)
Definition fractional (value : list byte) : Z * list byte :=
  match value with
  | p :: d :: _ =>
      if commaOrPeriod p && isDigit d then
        let '(ds, rest) := span_digits (drop 1 value) in
        let ds9 := take 9 ds in
        (digits_value ds9 * 10 ^ (9 - len ds9), rest)
      else (0, value)
  | _ => (0, value)
  end.

Fixpoint parse_items (items : list layoutItem) (value : list byte) (t : Time)
    : option Time :=
  match items with
  | [] => if bool_decide (value = []) then Some t else None
  | it :: items =>
      match it with
      | literal b =>
          match skip value b with
          | Some value => parse_items items value t
          | None => None
          end
      | stdLongYear =>
          let p := take 4 value in
          if (len value <? 4) || negb (forallb isDigit p) then None
          else parse_items items (drop 4 value)
                 (mkTime (digits_value p) (Month t) (Day t) (Hour t) (Minute t)
                    (Second t) (Nanosecond t) (ZoneOffset t))
      | stdZeroMonth =>
          match getnum value true with
          | Some (m, value) =>
              if (m <=? 0) || (12 <? m) then None
              else parse_items items value
                     (mkTime (Year t) m (Day t) (Hour t) (Minute t) (Second t)
                        (Nanosecond t) (ZoneOffset t))
          | None => None
          end
      | stdZeroDay =>
          match getnum value true with
          | Some (d, value) =>
              parse_items items value
                (mkTime (Year t) (Month t) d (Hour t) (Minute t) (Second t)
                   (Nanosecond t) (ZoneOffset t))
          | None => None
          end
      | stdHour =>
          match getnum value false with
          | Some (h, value) =>
              if 24 <=? h then None
              else parse_items items value
                     (mkTime (Year t) (Month t) (Day t) h (Minute t) (Second t)
                        (Nanosecond t) (ZoneOffset t))
          | None => None
          end
      | stdZeroMinute =>
          match getnum value true with
          | Some (m, value) =>
              if 60 <=? m then None
              else parse_items items value
                     (mkTime (Year t) (Month t) (Day t) (Hour t) m (Second t)
                        (Nanosecond t) (ZoneOffset t))
          | None => None
          end
      | stdZeroSecond =>
          match getnum value true with
          | Some (s, value) =>
              if 60 <=? s then None
              else
                let '(ns, value) := fractional value in
                parse_items items value
                  (mkTime (Year t) (Month t) (Day t) (Hour t) (Minute t) s ns
                     (ZoneOffset t))
          | None => None
          end
      end
  end.

(** [time.Parse(layout, value)]: the fields are read in UTC and the
    day is checked against the month once all of them are known. *)
Definition Parse (layout : list layoutItem) (value : list byte) : option Time :=
  match parse_items layout value (mkTime 0 1 1 0 0 0 0 0) with
  | Some t =>
      if (Day t <? 1) || (Day t >? daysIn (Month t) (Year t)) then None else Some t
  | None => None
  end.

(** ** Metadata record and its PNG codec *)

Record ImageMetadata := mkMeta {
  Artist : list byte;
  Copyright : list byte;
  Description : list byte;
  DateTime : option Time;
  Location : list byte;
  CameraMake : list byte;
  CameraModel : list byte;
  Software : list byte;
  ImageWidth : Z;
  ImageHeight : Z
}.

(** [&ImageMetadata{}] *)
Definition emptyMetadata : ImageMetadata := mkMeta [] [] [] None [] [] [] [] 0 0.

Definition chunk_if (cond : bool) (keyword text : list byte) : list (list byte) :=
  if cond then [createPNGTextChunk keyword text] else [].

Definition nonempty (s : list byte) : bool := negb (bool_decide (s = [])).

Definition createPNGTextChunks (metadata : ImageMetadata) : list (list byte) :=
  chunk_if (nonempty (Artist metadata)) (lit "Author") (Artist metadata)
  ++ chunk_if (nonempty (Copyright metadata)) (lit "Copyright") (Copyright metadata)
  ++ chunk_if (nonempty (Description metadata)) (lit "Description") (Description metadata)
  ++ match DateTime metadata with
     | Some t => [createPNGTextChunk (lit "Creation Time") (Format layoutISO t)]
     | None => []
     end
  ++ chunk_if (nonempty (Location metadata)) (lit "Location") (Location metadata)
  ++ chunk_if (nonempty (CameraMake metadata)) (lit "Camera Make") (CameraMake metadata)
  ++ chunk_if (nonempty (CameraModel metadata)) (lit "Camera Model") (CameraModel metadata)
  ++ chunk_if (nonempty (Software metadata)) (lit "Software") (Software metadata)
  ++ chunk_if (ImageWidth metadata >? 0) (lit "Image Width") (Itoa (ImageWidth metadata))
  ++ chunk_if (ImageHeight metadata >? 0) (lit "Image Height") (Itoa (ImageHeight metadata)).

(** [bytes.SplitN(data, []byte{0}, 2)] when it yields two parts. *)
Fixpoint split_nul (data : list byte) : option (list byte * list byte) :=
  match data with
  | [] => None
  | b :: r =>
      if bool_decide (b = x00) then Some ([], r)
      else
        match split_nul r with
        | Some (k, t) => Some (b :: k, t)
        | None => None
        end
  end.

Definition set_Artist (m : ImageMetadata) v :=
  mkMeta v (Copyright m) (Description m) (DateTime m) (Location m) (CameraMake m)
    (CameraModel m) (Software m) (ImageWidth m) (ImageHeight m).
Definition set_Copyright (m : ImageMetadata) v :=
  mkMeta (Artist m) v (Description m) (DateTime m) (Location m) (CameraMake m)
    (CameraModel m) (Software m) (ImageWidth m) (ImageHeight m).
Definition set_Description (m : ImageMetadata) v :=
  mkMeta (Artist m) (Copyright m) v (DateTime m) (Location m) (CameraMake m)
    (CameraModel m) (Software m) (ImageWidth m) (ImageHeight m).
Definition set_DateTime (m : ImageMetadata) v :=
  mkMeta (Artist m) (Copyright m) (Description m) v (Location m) (CameraMake m)
    (CameraModel m) (Software m) (ImageWidth m) (ImageHeight m).
Definition set_Location (m : ImageMetadata) v :=
  mkMeta (Artist m) (Copyright m) (Description m) (DateTime m) v (CameraMake m)
    (CameraModel m) (Software m) (ImageWidth m) (ImageHeight m).
Definition set_CameraMake (m : ImageMetadata) v :=
  mkMeta (Artist m) (Copyright m) (Description m) (DateTime m) (Location m) v
    (CameraModel m) (Software m) (ImageWidth m) (ImageHeight m).
Definition set_CameraModel (m : ImageMetadata) v :=
  mkMeta (Artist m) (Copyright m) (Description m) (DateTime m) (Location m)
    (CameraMake m) v (Software m) (ImageWidth m) (ImageHeight m).
Definition set_Software (m : ImageMetadata) v :=
  mkMeta (Artist m) (Copyright m) (Description m) (DateTime m) (Location m)
    (CameraMake m) (CameraModel m) v (ImageWidth m) (ImageHeight m).
Definition set_ImageWidth (m : ImageMetadata) v :=
  mkMeta (Artist m) (Copyright m) (Description m) (DateTime m) (Location m)
    (CameraMake m) (CameraModel m) (Software m) v (ImageHeight m).
Definition set_ImageHeight (m : ImageMetadata) v :=
  mkMeta (Artist m) (Copyright m) (Description m) (DateTime m) (Location m)
    (CameraMake m) (CameraModel m) (Software m) (ImageWidth m) v.

Definition keyword_in (k : list byte) (names : list string) : bool :=
  existsb (fun n => bytes_Equal k (lit n)) names.

(** [parsePNGTextChunk]: the record behind the pointer is returned. *)
Definition parsePNGTextChunk (data : list byte) (metadata : ImageMetadata)
    : ImageMetadata :=
  match split_nul data with
  | None => metadata
  | Some (keyword, text) =>
      let k := ToLower keyword in
      if keyword_in k ["author"; "artist"]%string then set_Artist metadata text
      else if keyword_in k ["copyright"]%string then set_Copyright metadata text
      else if keyword_in k ["description"]%string then set_Description metadata text
      else if keyword_in k ["creation time"; "datetime"]%string then
        match Parse layoutISO text with
        | Some t => set_DateTime metadata (Some t)
        | None =>
            match Parse layoutLegacy text with
            | Some t => set_DateTime metadata (Some t)
            | None => metadata
            end
        end
      else if keyword_in k ["location"]%string then set_Location metadata text
      else if keyword_in k ["camera make"; "make"]%string then set_CameraMake metadata text
      else if keyword_in k ["camera model"; "model"]%string then set_CameraModel metadata text
      else if keyword_in k ["software"]%string then set_Software metadata text
      else if keyword_in k ["image width"; "width"]%string then
        match Atoi text with
        | Some w => set_ImageWidth metadata w
        | None => metadata
        end
      else if keyword_in k ["image height"; "height"]%string then
        match Atoi text with
        | Some h => set_ImageHeight metadata h
        | None => metadata
        end
      else metadata
  end.

(** The loop of [getPNGMetadata]. *)
Fixpoint getPNGMetadata_loop (fuel : nat) (data : list byte) (pos : Z)
    (metadata : ImageMetadata) : ImageMetadata :=
  match fuel with
  | O => metadata
  | S fuel =>
      if pos <? len data - 8 then
        if pos + 4 >? len data then metadata
        else
          let chunkLen := Uint32 (slice data pos (pos + 4)) in
          let pos := pos + 4 in
          if pos + 4 >? len data then metadata
          else
            let chunkType := slice data pos (pos + 4) in
            let pos := pos + 4 in
            let metadata :=
              if bytes_Equal chunkType (lit "tEXt") then
                if pos + chunkLen <=? len data
                then parsePNGTextChunk (slice data pos (pos + chunkLen)) metadata
                else metadata
              else metadata in
            let pos := pos + (chunkLen + 4) in
            if bytes_Equal chunkType (lit "IEND") then metadata
            else getPNGMetadata_loop fuel data pos metadata
      else metadata
  end.

(** ** Pixels *)

(** [PixelCoord] *)
Record PixelCoord := mkCoord { X : Z; Y : Z }.

#[global] Instance PixelCoord_eq_dec : EqDecision PixelCoord.
Proof. solve_decision. Defined.

(** [getEdgePixels]: top and bottom row first, then left and right column. *)
Definition getEdgePixels (width height : Z) : list PixelCoord :=
  flat_map (fun x => [mkCoord x 0; mkCoord x (height - 1)]) (seqZ 0 width)
  ++ flat_map (fun y => [mkCoord 0 y; mkCoord (width - 1) y]) (seqZ 1 (height - 1 - 1)).

(** [clampUint8]; the result is the [uint8] as an integer. *)
Definition clampUint8 (value : Z) : Z :=
  if value <? 0 then 0
  else if value >? 255 then 255
  else u8 (byte_of value).

Module color.
(** [color.RGBA] *)
Record RGBA := mkRGBA { R : byte; G : byte; B : byte; A : byte }.
Definition zero : RGBA := mkRGBA x00 x00 x00 x00.
End color.

#[global] Instance RGBA_eq_dec : EqDecision color.RGBA.
Proof. solve_decision. Defined.

Module image.
(** [image.Rectangle] *)
Record Rectangle := mkRect { MinX : Z; MinY : Z; MaxX : Z; MaxY : Z }.
Definition Dx (r : Rectangle) : Z := MaxX r - MinX r.
Definition Dy (r : Rectangle) : Z := MaxY r - MinY r.
Definition In (x y : Z) (r : Rectangle) : bool :=
  (MinX r <=? x) && (x <? MaxX r) && (MinY r <=? y) && (y <? MaxY r).

(** A decoded [image.Image]: its bounds and the colour of each pixel
    as [color.RGBAModel] converts it. *)
Record Image := mkImage { Bounds : Rectangle; At : Z -> Z -> color.RGBA }.

(** [image.RGBA]: the pixels inside [Rect]; a pixel that was never
    set is zero, as after [NewRGBA]. *)
Record RGBA := mkRGBAImage { Rect : Rectangle; Pix : gmap (Z * Z) color.RGBA }.

Definition NewRGBA (r : Rectangle) : RGBA := mkRGBAImage r ∅.

Definition RGBAAt (m : RGBA) (x y : Z) : color.RGBA :=
  if In x y (Rect m) then default color.zero (Pix m !! (x, y)) else color.zero.

(** [SetRGBA], and [Set] on a colour already converted. *)
Definition SetRGBA (m : RGBA) (x y : Z) (c : color.RGBA) : RGBA :=
  if In x y (Rect m) then mkRGBAImage (Rect m) (<[(x, y) := c]> (Pix m)) else m.

(** An [image.RGBA] passed where an [image.Image] is expected. *)
Definition asImage (m : RGBA) : Image := mkImage (Rect m) (RGBAAt m).
End image.

(** The editable copy that both pixel functions build:
    [for y { for x { newImg.Set(x, y, img.At(x, y)) } }]. *)
Definition copyToRGBA (img : image.Image) : image.RGBA :=
  let bounds := image.Bounds img in
  fold_left
    (fun newImg y =>
       fold_left (fun newImg x => image.SetRGBA newImg x y (image.At img x y))
         (seqZ (image.MinX bounds) (image.Dx bounds)) newImg)
    (seqZ (image.MinY bounds) (image.Dy bounds))
    (image.NewRGBA bounds).

(** [int(randomBytes[0]) % len(edgePixels)] *)
Definition pixelIndex (randomBytes : list byte) (edgePixels : list PixelCoord) : Z :=
  u8 (at_ randomBytes 0) mod len edgePixels.

(** [int8(randomBytes[1]%5) - 2] *)
Definition adjustment (randomBytes : list byte) : Z :=
  u8 (at_ randomBytes 1) mod 5 - 2.

(** The pixel change that [modifyJPEGPixel] and [modifyPNGPixel] share:
    pick the pixel, read it, shift R, G and B, write it back. *)
Definition adjustPixel (newImg : image.RGBA) (edgePixels : list PixelCoord)
    (randomBytes : list byte) : image.RGBA :=
  let selectedPixel := nth (Z.to_nat (pixelIndex randomBytes edgePixels)) edgePixels
                         (mkCoord 0 0) in
  let origColor := image.RGBAAt newImg (X selectedPixel) (Y selectedPixel) in
  let adjustment := adjustment randomBytes in
  let newR := clampUint8 (u8 (color.R origColor) + adjustment) in
  let newG := clampUint8 (u8 (color.G origColor) + adjustment) in
  let newB := clampUint8 (u8 (color.B origColor) + adjustment) in
  image.SetRGBA newImg (X selectedPixel) (Y selectedPixel)
    (color.mkRGBA (byte_of newR) (byte_of newG) (byte_of newB) (color.A origColor)).

(** ** The outside world: files, the random source, and the writes made *)

Record World := mkWorld {
  files : gmap string (list byte);
  unwritable : gset string;
  entropy : list byte;
  written : list (string * list byte)
}.

Inductive error :=
| ErrNotExist (path : string)
| ErrRead
| ErrUnsupported (ext : list byte)
| ErrInvalidPNG
| ErrDecode
| ErrEncode
| ErrNoEdgePixels
| ErrSerialize
| ErrModify (cause : error)
| ErrNoChange
| ErrWrite.

Inductive result (T : Type) :=
| Ok (v : T)
| Err (e : error).
Arguments Ok {T} v.
Arguments Err {T} e.

(** Calls that may read or change the world and may fail. *)
Definition IO (T : Type) : Type := World -> World * result T.

Definition ret {T} (v : T) : IO T := fun w => (w, Ok v).
Definition fail {T} (e : error) : IO T := fun w => (w, Err e).
Definition bind {T U} (m : IO T) (k : T -> IO U) : IO U :=
  fun w => match m w with
           | (w', Ok v) => k v w'
           | (w', Err e) => (w', Err e)
           end.
Definition lift {T} (r : result T) : IO T := fun w => (w, r).

Notation "'let*' x ':=' m 'in' k" := (bind m (fun x => k))
  (at level 10, x name, m at level 100, k at level 200).

(** [os.Stat] followed by [os.IsNotExist] *)
Definition os_Stat_exists (path : string) : IO unit :=
  fun w => match files w !! path with
           | Some _ => (w, Ok tt)
           | None => (w, Err (ErrNotExist path))
           end.

(** [os.ReadFile] *)
Definition os_ReadFile (path : string) : IO (list byte) :=
  fun w => match files w !! path with
           | Some data => (w, Ok data)
           | None => (w, Err ErrRead)
           end.

(** [os.WriteFile]: the call is recorded; it fails on an unwritable path. *)
Definition os_WriteFile (path : string) (data : list byte) : IO unit :=
  fun w =>
    let w' := mkWorld (files w) (unwritable w) (entropy w) (written w ++ [(path, data)]) in
    if bool_decide (path ∈ unwritable w) then (w', Err ErrWrite)
    else (mkWorld (<[path := data]> (files w)) (unwritable w) (entropy w)
            (written w ++ [(path, data)]), Ok tt).

(** [generateRandomBytes]: a zeroed buffer filled by [rand.Read], whose
    error is ignored; a source that runs dry leaves the zeros. *)
Definition generateRandomBytes (length : Z) : IO (list byte) :=
  fun w =>
    let n := Z.to_nat length in
    let got := take n (entropy w) in
    (mkWorld (files w) (unwritable w) (drop n (entropy w)) (written w),
     Ok (got ++ repeat x00 (n - List.length got)%nat)).

(** [filepath.Ext]: from the last dot of the last path element. *)
Fixpoint Ext_loop (rpath acc : list byte) : list byte :=
  match rpath with
  | [] => []
  | c :: r =>
      if bool_decide (c = x2f) then []
      else if bool_decide (c = x2e) then c :: acc
      else Ext_loop r (c :: acc)
  end.
Definition Ext (path : string) : list byte := Ext_loop (rev (lit path)) [].

Inductive Format_ := JPEG | PNG.

(** The [switch ext] of every entry point. *)
Definition formatOf (ext : list byte) : option Format_ :=
  if bytes_Equal ext (lit ".jpg") || bytes_Equal ext (lit ".jpeg") then Some JPEG
  else if bytes_Equal ext (lit ".png") then Some PNG
  else None.

Definition of_option {T} (e : error) (o : option T) : result T :=
  match o with
  | Some v => Ok v
  | None => Err e
  end.

Definition wrap {T} (r : result T) : result T :=
  match r with
  | Ok v => Ok v
  | Err e => Err (ErrModify e)
  end.

(** ** Entry points *)

Section Library.

(** [sha1.Sum] *)
Variable sha1_Sum : list byte -> list byte.
(** [json.Marshal] and [json.Unmarshal] on [ImageMetadata]; [None] is
    an error. *)
Variable json_Marshal : ImageMetadata -> option (list byte).
Variable json_Unmarshal : list byte -> option ImageMetadata.
(** [png.Decode], [jpeg.Decode], [png.Encode], and [jpeg.Encode] with
    its quality. *)
Variable png_Decode : list byte -> option image.Image.
Variable jpeg_Decode : list byte -> option image.Image.
Variable png_Encode : image.Image -> option (list byte).
Variable jpeg_Encode : image.Image -> Z -> option (list byte).

Definition modifyJPEGPixel (data : list byte) : IO (list byte) :=
  let* img := lift (of_option ErrDecode (jpeg_Decode data)) in
  let bounds := image.Bounds img in
  let width := image.Dx bounds in
  let height := image.Dy bounds in
  let newImg := copyToRGBA img in
  let edgePixels := getEdgePixels width height in
  if len edgePixels =? 0 then fail ErrNoEdgePixels
  else
    let* randomBytes := generateRandomBytes 4 in
    let newImg := adjustPixel newImg edgePixels randomBytes in
    lift (of_option ErrEncode (jpeg_Encode (image.asImage newImg) 95)).

Definition modifyPNGPixel (data : list byte) : IO (list byte) :=
  let* img := lift (of_option ErrDecode (png_Decode data)) in
  let bounds := image.Bounds img in
  let width := image.Dx bounds in
  let height := image.Dy bounds in
  let newImg := copyToRGBA img in
  let edgePixels := getEdgePixels width height in
  if len edgePixels =? 0 then fail ErrNoEdgePixels
  else
    let* randomBytes := generateRandomBytes 4 in
    let newImg := adjustPixel newImg edgePixels randomBytes in
    lift (of_option ErrEncode (png_Encode (image.asImage newImg))).

(** [imagesha1.modifyJPEGSHA1]: re-encode, then insert a random comment. *)
Definition modifyJPEGSHA1 (data : list byte) : IO (list byte) :=
  let* img := lift (of_option ErrDecode (jpeg_Decode data)) in
  let* randomComment := generateRandomBytes 16 in
  let* buf := lift (of_option ErrEncode (jpeg_Encode img 95)) in
  ret (insertJPEGComment buf randomComment).

(** [imagesha1.modifyPNGSHA1] *)
Definition modifyPNGSHA1 (data : list byte) : IO (list byte) :=
  if lacks_png_signature data then fail ErrInvalidPNG
  else
    let* randomText := generateRandomBytes 32 in
    ret (insertPNGTextChunk data (lit "Random") randomText).

Definition modifyPNGMetadata (data : list byte) (metadata : ImageMetadata)
    : result (list byte) :=
  if lacks_png_signature data then Err ErrInvalidPNG
  else
    let cleanData := removeExistingTextChunks data in
    let textChunks := createPNGTextChunks metadata in
    Ok (insertPNGTextChunks cleanData textChunks).

Definition modifyJPEGMetadata (data : list byte) (metadata : ImageMetadata)
    : result (list byte) :=
  let cleanData := removeJPEGComments data in
  match json_Marshal metadata with
  | None => Err ErrSerialize
  | Some metadataJSON => Ok (insertJPEGComment cleanData metadataJSON)
  end.

Definition getJPEGMetadata (imagePath : string) : IO ImageMetadata :=
  let* data := os_ReadFile imagePath in
  match extractJPEGComment data with
  | None => ret emptyMetadata
  | Some comment =>
      match json_Unmarshal comment with
      | None => ret emptyMetadata
      | Some metadata => ret metadata
      end
  end.

Definition getPNGMetadata (imagePath : string) : IO ImageMetadata :=
  let* data := os_ReadFile imagePath in
  if lacks_png_signature data then fail ErrInvalidPNG
  else ret (getPNGMetadata_loop (length data) data 8 emptyMetadata).

(** The tail that the modifying entry points share: compare the two
    digests, refuse an unchanged one, write the file back. *)
Definition verifyAndWrite (imagePath : string) (originalSHA1 modifiedData : list byte)
    : IO (list byte) :=
  let newSHA1 := hex (sha1_Sum modifiedData) in
  if bytes_Equal newSHA1 originalSHA1 then fail ErrNoChange
  else
    let* _ := os_WriteFile imagePath modifiedData in
    ret newSHA1.

(** The [switch ext] of [imagemodify.ModifyImageSHA1]: the buffer goes
    straight to the inserting function. *)
Definition randomSwitch (ext originalData : list byte) : IO (list byte) :=
  match formatOf ext with
  | Some JPEG =>
      let* r := generateRandomBytes 16 in
      ret (insertJPEGComment originalData r)
  | Some PNG =>
      let* r := generateRandomBytes 32 in
      ret (insertPNGTextChunk originalData (lit "Random") r)
  | None => fail (ErrUnsupported ext)
  end.

(** [imagemodify.ModifyImageSHA1] *)
Definition ImageModifier_ModifyImageSHA1 (imagePath : string) : IO (list byte) :=
  let* _ := os_Stat_exists imagePath in
  let* originalData := os_ReadFile imagePath in
  let originalSHA1 := hex (sha1_Sum originalData) in
  let ext := ToLower (Ext imagePath) in
  let* modifiedData := randomSwitch ext originalData in
  verifyAndWrite imagePath originalSHA1 modifiedData.

(** The [switch ext] of [imagesha1.ModifyImageSHA1], and the wrapping
    of the error of the function it calls. *)
Definition sha1Switch (ext originalData : list byte) : IO (list byte) :=
  match formatOf ext with
  | Some JPEG => fun w => let '(w', r) := modifyJPEGSHA1 originalData w in (w', wrap r)
  | Some PNG => fun w => let '(w', r) := modifyPNGSHA1 originalData w in (w', wrap r)
  | None => fail (ErrUnsupported ext)
  end.

(** [imagesha1.ModifyImageSHA1] *)
Definition ImageSHA1Modifier_ModifyImageSHA1 (imagePath : string) : IO (list byte) :=
  let* _ := os_Stat_exists imagePath in
  let* originalData := os_ReadFile imagePath in
  let originalSHA1 := hex (sha1_Sum originalData) in
  let ext := ToLower (Ext imagePath) in
  let* modifiedData := sha1Switch ext originalData in
  verifyAndWrite imagePath originalSHA1 modifiedData.

Definition pixelSwitch (ext originalData : list byte) : IO (list byte) :=
  match formatOf ext with
  | Some JPEG => fun w => let '(w', r) := modifyJPEGPixel originalData w in (w', wrap r)
  | Some PNG => fun w => let '(w', r) := modifyPNGPixel originalData w in (w', wrap r)
  | None => fail (ErrUnsupported ext)
  end.

Definition ModifyImageSHA1ByPixel (imagePath : string) : IO (list byte) :=
  let* _ := os_Stat_exists imagePath in
  let* originalData := os_ReadFile imagePath in
  let originalSHA1 := hex (sha1_Sum originalData) in
  let ext := ToLower (Ext imagePath) in
  let* modifiedData := pixelSwitch ext originalData in
  verifyAndWrite imagePath originalSHA1 modifiedData.

Definition metadataSwitch (metadata : ImageMetadata) (ext originalData : list byte)
    : IO (list byte) :=
  match formatOf ext with
  | Some JPEG => lift (wrap (modifyJPEGMetadata originalData metadata))
  | Some PNG => lift (wrap (modifyPNGMetadata originalData metadata))
  | None => fail (ErrUnsupported ext)
  end.

Definition ModifyImageMetadata (imagePath : string) (metadata : ImageMetadata)
    : IO (list byte) :=
  let* _ := os_Stat_exists imagePath in
  let* originalData := os_ReadFile imagePath in
  let originalSHA1 := hex (sha1_Sum originalData) in
  let ext := ToLower (Ext imagePath) in
  let* modifiedData := metadataSwitch metadata ext originalData in
  verifyAndWrite imagePath originalSHA1 modifiedData.

Definition GetImageMetadata (imagePath : string) : IO ImageMetadata :=
  let* _ := os_Stat_exists imagePath in
  let ext := ToLower (Ext imagePath) in
  match formatOf ext with
  | Some JPEG => getJPEGMetadata imagePath
  | Some PNG => getPNGMetadata imagePath
  | None => fail (ErrUnsupported ext)
  end.

Definition GetImageSHA1 (imagePath : string) : IO (list byte) :=
  let* data := os_ReadFile imagePath in
  ret (hex (sha1_Sum data)).

(** The three ways of changing a file, as the command line names them. *)
Inductive Mode := Random | Pixel | Metadata (metadata : ImageMetadata).

Definition transform (mode : Mode) : list byte -> list byte -> IO (list byte) :=
  match mode with
  | Random => randomSwitch
  | Pixel => pixelSwitch
  | Metadata metadata => metadataSwitch metadata
  end.

Definition Modify (mode : Mode) (imagePath : string) : IO (list byte) :=
  match mode with
  | Random => ImageModifier_ModifyImageSHA1 imagePath
  | Pixel => ModifyImageSHA1ByPixel imagePath
  | Metadata metadata => ModifyImageMetadata imagePath metadata
  end.

End Library.

(** * Vocabulary of the properties *)

(** ** Pixels *)

(** The selected pixel of [adjustPixel]. *)
Definition selectedPixel (edgePixels : list PixelCoord) (randomBytes : list byte)
    : PixelCoord :=
  nth (Z.to_nat (pixelIndex randomBytes edgePixels)) edgePixels (mkCoord 0 0).

(** All values of the random byte, and how many of them select index [i]. *)
Definition allBytes : list byte := map byte_of (seqZ 0 256).

Definition selectionCount (edgePixels : list PixelCoord) (i : Z) : Z :=
  len (filter (fun b => pixelIndex [b] edgePixels = i) allBytes).

(** ** Digests and worlds *)

Definition hex_value (c : byte) : Z :=
  if u8 c <? 58 then u8 c - 48 else u8 c - 87.

Definition same_files (w w' : World) : Prop :=
  files w' = files w /\ unwritable w' = unwritable w /\ written w' = written w.

(** ** Buffers made of whole chunks *)

(** A chunk as the parser of the specification sees it. *)
Record Chunk := mkChunk {
  chunkType : list byte;
  chunkData : list byte;
  chunkCRC : list byte
}.

Definition encodeChunk (c : Chunk) : list byte :=
  PutUint32 (len (chunkData c)) ++ chunkType c ++ chunkData c ++ chunkCRC c.

Definition encodeChunks (cs : list Chunk) : list byte := flat_map encodeChunk cs.

Definition Chunk_wf (c : Chunk) : Prop :=
  len (chunkType c) = 4 /\ len (chunkCRC c) = 4 /\ len (chunkData c) < 2 ^ 32.

Definition isIEND (c : Chunk) : bool := bytes_Equal (chunkType c) (lit "IEND").
Definition isText (c : Chunk) : bool := is_text_chunk_type (chunkType c).

(** The chunks in front of the first IEND chunk, and those from it on. *)
Fixpoint beforeIEND (cs : list Chunk) : list Chunk :=
  match cs with
  | [] => []
  | c :: r => if isIEND c then [] else c :: beforeIEND r
  end.

Fixpoint fromIEND (cs : list Chunk) : list Chunk :=
  match cs with
  | [] => []
  | c :: r => if isIEND c then cs else fromIEND r
  end.

(** What the reader makes of a chunk list: every tEXt payload up to and
    including the first IEND chunk is parsed. *)
Fixpoint scanChunks (cs : list Chunk) (metadata : ImageMetadata) : ImageMetadata :=
  match cs with
  | [] => metadata
  | c :: r =>
      let metadata :=
        if bytes_Equal (chunkType c) (lit "tEXt")
        then parsePNGTextChunk (chunkData c) metadata else metadata in
      if isIEND c then metadata else scanChunks r metadata
  end.

(** The chain of chunk starts that [findPNGIENDChunk] follows from
    [pos]: a start below [len data - 8] whose type is not IEND leads to
    the start 12 + length bytes further on. *)
Inductive reach (data : list byte) : Z -> Z -> Prop :=
| reach_here pos : reach data pos pos
| reach_next pos p :
    pos < len data - 8 ->
    slice data (pos + 4) (pos + 8) <> lit "IEND" ->
    reach data (pos + 12 + Uint32 (slice data pos (pos + 4))) p ->
    reach data pos p.

(** An IEND chunk is found at [p]: [p] is on the chain from offset 8,
    has at least 9 bytes from it on, and carries the type IEND. *)
Definition IENDat (data : list byte) (p : Z) : Prop :=
  reach data 8 p /\ p < len data - 8 /\ slice data (p + 4) (p + 8) = lit "IEND".

(** ** The metadata written and read *)

(** The keyword and text of every chunk that [createPNGTextChunks]
    builds, in its order. *)
Definition entry_if (cond : bool) (keyword text : list byte)
    : list (list byte * list byte) :=
  if cond then [(keyword, text)] else [].

Definition textEntries (metadata : ImageMetadata) : list (list byte * list byte) :=
  entry_if (nonempty (Artist metadata)) (lit "Author") (Artist metadata)
  ++ entry_if (nonempty (Copyright metadata)) (lit "Copyright") (Copyright metadata)
  ++ entry_if (nonempty (Description metadata)) (lit "Description") (Description metadata)
  ++ match DateTime metadata with
     | Some t => [(lit "Creation Time", Format layoutISO t)]
     | None => []
     end
  ++ entry_if (nonempty (Location metadata)) (lit "Location") (Location metadata)
  ++ entry_if (nonempty (CameraMake metadata)) (lit "Camera Make") (CameraMake metadata)
  ++ entry_if (nonempty (CameraModel metadata)) (lit "Camera Model") (CameraModel metadata)
  ++ entry_if (nonempty (Software metadata)) (lit "Software") (Software metadata)
  ++ entry_if (ImageWidth metadata >? 0) (lit "Image Width") (Itoa (ImageWidth metadata))
  ++ entry_if (ImageHeight metadata >? 0) (lit "Image Height") (Itoa (ImageHeight metadata)).

Definition payload (kv : list byte * list byte) : list byte := kv.1 ++ [x00] ++ kv.2.

(** Every payload fits the four-byte length field. *)
Definition payloads_fit (metadata : ImageMetadata) : Prop :=
  Forall (fun kv => len (payload kv) < 2 ^ 32) (textEntries metadata).

Definition textChunk (kv : list byte * list byte) : Chunk :=
  mkChunk (lit "tEXt") (payload kv) (PutUint32 (ChecksumIEEE (lit "tEXt" ++ payload kv))).

(** A timestamp that its text carries whole: a UTC time on a full
    second in the years 0 to 9999. *)
Definition timestamp_ok (metadata : ImageMetadata) : Prop :=
  match DateTime metadata with
  | Some t => Time_valid t /\ 0 <= Year t <= 9999 /\ Nanosecond t = 0 /\ ZoneOffset t = 0
  | None => True
  end.

(** The record with its unset dimensions (anything not above 0) at 0. *)
Definition setFields (m : ImageMetadata) : ImageMetadata :=
  mkMeta (Artist m) (Copyright m) (Description m) (DateTime m) (Location m)
    (CameraMake m) (CameraModel m) (Software m)
    (Z.max 0 (ImageWidth m)) (Z.max 0 (ImageHeight m)).

(** The set fields of [m] are those of [m'], and the unset ones of [m]
    are unset in [m']. *)
Definition same_set_fields (m m' : ImageMetadata) : Prop :=
  Artist m' = Artist m /\ Copyright m' = Copyright m /\ Description m' = Description m /\
  DateTime m' = DateTime m /\ Location m' = Location m /\ CameraMake m' = CameraMake m /\
  CameraModel m' = CameraModel m /\ Software m' = Software m /\
  (if ImageWidth m >? 0 then ImageWidth m' = ImageWidth m else ImageWidth m' <= 0) /\
  (if ImageHeight m >? 0 then ImageHeight m' = ImageHeight m else ImageHeight m' <= 0).

Definition decodeEntries (es : list (list byte * list byte)) (m : ImageMetadata)
    : ImageMetadata :=
  fold_left (fun m kv => parsePNGTextChunk (payload kv) m) es m.

Section Conditions.

Variable json_Marshal : ImageMetadata -> option (list byte).
Variable json_Unmarshal : list byte -> option ImageMetadata.

(** What the round trip asks of the file and of the record, by
    format.  PNG: the file is the signature followed by whole chunks,
    every payload written fits its length field, the timestamp is one
    its text carries whole, and the dimensions are 64-bit integers.
    JPEG: the buffer left after removing comments has its four bytes,
    and the record serializes to at most 65533 bytes that deserialize
    to it. *)
Definition round_trip_conditions (format : option Format_) (input : list byte)
    (metadata : ImageMetadata) : Prop :=
  match format with
  | Some PNG =>
      (exists cs, input = pngSignature ++ encodeChunks cs /\ Forall Chunk_wf cs) /\
      payloads_fit metadata /\ timestamp_ok metadata /\
      ImageWidth metadata < 2 ^ 63 /\ ImageHeight metadata < 2 ^ 63
  | Some JPEG =>
      4 <= len (removeJPEGComments input) /\
      exists js, json_Marshal metadata = Some js /\ json_Unmarshal js = Some metadata /\
                 0 < len js <= 65533
  | None => True
  end.

End Conditions.

(** ** Sample instances of the library calls, for running the model *)

(** A serializer in the shape of [json.Marshal]'s output for records
    without a timestamp whose text holds no quote: the object with the
    ten fields in their order.  It declines other records. *)
Definition quote : list byte := [x22].

Definition sample_field (name : string) (value : list byte) : list byte :=
  quote ++ lit name ++ quote ++ lit ":" ++ quote ++ value ++ quote.

Definition sample_number (name : string) (value : Z) : list byte :=
  quote ++ lit name ++ quote ++ lit ":" ++ Itoa value.

Definition plain (s : list byte) : bool :=
  forallb (fun b => negb (bool_decide (b = x22))) s.

Definition sampleMarshal (m : ImageMetadata) : option (list byte) :=
  match DateTime m with
  | Some _ => None
  | None =>
      if forallb plain [Artist m; Copyright m; Description m; Location m;
                        CameraMake m; CameraModel m; Software m]
      then Some (lit "{" ++ sample_field "Artist" (Artist m) ++ lit ","
                 ++ sample_field "Copyright" (Copyright m) ++ lit ","
                 ++ sample_field "Description" (Description m) ++ lit ","
                 ++ quote ++ lit "DateTime" ++ quote ++ lit ":null,"
                 ++ sample_field "Location" (Location m) ++ lit ","
                 ++ sample_field "CameraMake" (CameraMake m) ++ lit ","
                 ++ sample_field "CameraModel" (CameraModel m) ++ lit ","
                 ++ sample_field "Software" (Software m) ++ lit ","
                 ++ sample_number "ImageWidth" (ImageWidth m) ++ lit ","
                 ++ sample_number "ImageHeight" (ImageHeight m) ++ lit "}")
      else None
  end.

Definition expect (p s : list byte) : option (list byte) :=
  if bytes_Equal (take (length p) s) p then Some (drop (length p) s) else None.

Fixpoint until_quote (s : list byte) : option (list byte * list byte) :=
  match s with
  | [] => None
  | b :: r =>
      if bool_decide (b = x22) then Some ([], r)
      else '(a, r') ← until_quote r; Some (b :: a, r')
  end.

Definition get_field (name : string) (s : list byte) : option (list byte * list byte) :=
  r ← expect (quote ++ lit name ++ quote ++ lit ":" ++ quote) s; until_quote r.

Fixpoint span_number (s : list byte) : list byte * list byte :=
  match s with
  | b :: r =>
      if isDigit b || bool_decide (b = x2d)
      then let '(d, r') := span_number r in (b :: d, r')
      else ([], s)
  | [] => ([], [])
  end.

Definition get_number (name : string) (s : list byte) : option (Z * list byte) :=
  r ← expect (quote ++ lit name ++ quote ++ lit ":") s;
  let '(d, r') := span_number r in
  v ← Atoi d; Some (v, r').

Definition sampleUnmarshal (s : list byte) : option ImageMetadata :=
  s ← expect (lit "{") s;
  '(artist, s) ← get_field "Artist" s; s ← expect (lit ",") s;
  '(copyright, s) ← get_field "Copyright" s; s ← expect (lit ",") s;
  '(description, s) ← get_field "Description" s; s ← expect (lit ",") s;
  s ← expect (quote ++ lit "DateTime" ++ quote ++ lit ":null,") s;
  '(location, s) ← get_field "Location" s; s ← expect (lit ",") s;
  '(make, s) ← get_field "CameraMake" s; s ← expect (lit ",") s;
  '(model, s) ← get_field "CameraModel" s; s ← expect (lit ",") s;
  '(software, s) ← get_field "Software" s; s ← expect (lit ",") s;
  '(width, s) ← get_number "ImageWidth" s; s ← expect (lit ",") s;
  '(height, s) ← get_number "ImageHeight" s;
  s ← expect (lit "}") s;
  if bool_decide (s = []) then
    Some (mkMeta artist copyright description None location make model software
            width height)
  else None.

(** No image codec: every buffer is refused. *)
Definition noDecode (data : list byte) : option image.Image := None.
Definition noEncode (img : image.Image) : option (list byte) := None.
Definition noEncodeQ (img : image.Image) (quality : Z) : option (list byte) := None.


(** A 2 x 2 raster of one colour. *)
Definition sampleRaster : image.RGBA :=
  copyToRGBA (image.mkImage (image.mkRect 0 0 2 2)
                (fun _ _ => color.mkRGBA xff x01 x80 x40)).

Definition sampleMetadata : ImageMetadata :=
  mkMeta (lit "Ann") (lit "(c) 2024 Ann") [] None (lit "Oslo") (lit "Canon") [] [] 640 0.

Definition sampleTime : Time := mkTime 2024 6 15 14 30 0 0 0.

Definition sampleMetadataPNG : ImageMetadata :=
  mkMeta (lit "Ann") [] (lit "sky") (Some sampleTime) [] (lit "Canon") [] [] 640 (-1).

Definition halfSecond : Time := mkTime 2024 6 15 14 30 0 500000000 0.

Definition sampleEntropy : list byte :=
  lit "0123456789abcdefghijklmnopqrstuvwxyzABCDEFGHIJKLMNOPQRSTUVWXYZ".

Definition iendChunk : list byte :=
  [x00; x00; x00; x00; x49; x45; x4e; x44; xae; x42; x60; x82].

(** A world with a four-byte JPEG, a two-byte JPEG stub, a JPEG with a
    table segment, an empty PNG, and a text file named as a PNG. *)
Definition sampleWorld : World :=
  mkWorld
    (<["a.jpg"%string := [xff; xd8; xff; xd9]]>
       (<["s.jpg"%string := [xff; xd8]]>
          (<["c.jpg"%string := [xff; xd8; xff; xdb; x00; x03; x10; xff; xd9]]>
             (<["b.png"%string := pngSignature ++ iendChunk]>
                (<["x.png"%string := lit "hello"]> ∅)))))
    ∅ sampleEntropy [].

Definition sampleModify : Mode -> string -> IO (list byte) :=
  Modify SHA1.Sum sampleMarshal noDecode noDecode noEncode noEncodeQ.

Definition sampleTransform : Mode -> list byte -> list byte -> IO (list byte) :=
  transform sampleMarshal noDecode noDecode noEncode noEncodeQ.

(** ** What the metadata mode leaves of a chunk list *)

(** The chunk list that [modifyPNGMetadata] leaves. *)
Definition rewrittenChunks (cs : list Chunk) (metadata : ImageMetadata) : list Chunk :=
  let kept := List.filter (fun c => negb (isText c)) cs in
  beforeIEND kept ++ map textChunk (textEntries metadata) ++ fromIEND kept.

(** ** More sample files *)

(** A JPEG with an application segment, a comment and a table segment. *)
Definition sampleJPEG : list byte :=
  [xff; xd8; xff; xe0; x00; x04; x4a; x46; xff; xfe; x00; x05; x6f; x6c; x64;
   xff; xdb; x00; x03; x10; xff; xd9].

(** A chunk list with textual chunks in front of and behind IEND. *)
Definition sampleChunks : list Chunk :=
  [textChunk (lit "Description", lit "old");
   mkChunk (lit "zTXt") [x61; x00; x00] [x00; x00; x00; x00];
   mkChunk (lit "gAMA") [x00; x00; xb1; x8f] [x0b; xfc; x61; x05];
   mkChunk (lit "IEND") [] [xae; x42; x60; x82];
   textChunk (lit "Author", lit "late")].

(** A world with a text file, two PNG files and a JPEG file. *)
Definition sampleWorld2 : World :=
  mkWorld
    (<["notes.txt"%string := lit "not an image"]>
       (<["s.png"%string := pngSignature ++ encodeChunks sampleChunks]>
          (<["d.jpg"%string := sampleJPEG]>
             (<["b.png"%string := pngSignature ++ iendChunk]> ∅))))
    ∅ sampleEntropy [].

(** ** JPEG segments *)

(** A segment with a length field: marker and payload. *)
Record Segment := mkSegment { segMarker : byte; segData : list byte }.

Definition encodeSegment (s : Segment) : list byte :=
  let n := len (segData s) + 2 in
  [xff; segMarker s] ++ [byte_of (Z.shiftr n 8); byte_of (Z.land n 0xFF)] ++ segData s.

Definition encodeSegments (segs : list Segment) : list byte :=
  concat (map encodeSegment segs).

(** The marker is one the code reads a length for, and the length
    fits its two bytes. *)
Definition Segment_wf (s : Segment) : Prop :=
  has_length_field (segMarker s) = true /\ len (segData s) <= 65533.

Definition isComment (s : Segment) : bool := u8 (segMarker s) =? 0xFE.

(** What ends the walk over the segments with more than four bytes
    left: a byte other than FF, or a marker that is neither APPn nor
    COM. *)
Definition ends_walk (tail : list byte) : Prop :=
  4 < len tail /\
  (negb (u8 (at_ tail 0) =? 0xFF) || negb (has_length_field (at_ tail 1))) = true.

(** The payload of the first comment segment, when it is not empty. *)
Fixpoint firstComment (segs : list Segment) : option (list byte) :=
  match segs with
  | [] => None
  | s :: rest =>
      if isComment s then
        if len (segData s) >? 0 then Some (segData s) else None
      else firstComment rest
  end.

Definition sampleSegments : list Segment :=
  [mkSegment xe0 [x4a; x46];
   mkSegment xfe [];
   mkSegment xe1 [x45];
   mkSegment xfe (lit "old")].

Definition sampleTail : list byte := [xff; xdb; x00; x03; x10; xff; xd9].


(** ** The rows of the editable copy *)

(** The inner and the outer loop of the copy in [modifyJPEGPixel] and
    [modifyPNGPixel], over given columns and rows. *)
Definition copyRow (img : image.Image) (y : Z) (xs : list Z) (m : image.RGBA) : image.RGBA :=
  fold_left (fun newImg x => image.SetRGBA newImg x y (image.At img x y)) xs m.

Definition copyRows (img : image.Image) (xs ys : list Z) (m : image.RGBA) : image.RGBA :=
  fold_left (fun newImg y => copyRow img y xs newImg) ys m.

(** * Properties *)

(** ** Bytes and integers *)

Lemma u8_range (b : byte) : 0 <= u8 b < 256.
Proof.
  unfold u8. pose proof (Byte.to_N_bounded b). lia.
Qed.

Lemma byte_of_u8 (b : byte) : byte_of (u8 b) = b.
Proof.
  unfold byte_of. rewrite Z.mod_small by apply u8_range.
  unfold u8. rewrite N2Z.id, Byte.of_to_N. reflexivity.
Qed.

Lemma u8_byte_of (z : Z) : u8 (byte_of z) = z mod 256.
Proof.
  unfold byte_of, u8.
  assert (Hr : 0 <= z mod 256 < 256) by (apply Z.mod_pos_bound; lia).
  destruct (Byte.of_N (Z.to_N (z mod 256))) as [b|] eqn:E.
  - apply Byte.to_of_N in E. rewrite E. lia.
  - apply Byte.of_N_None_iff in E. lia.
Qed.

Lemma u8_byte_of_small (z : Z) : 0 <= z < 256 -> u8 (byte_of z) = z.
Proof. intros. rewrite u8_byte_of. apply Z.mod_small. lia. Qed.

Lemma u8_inj (a b : byte) : u8 a = u8 b -> a = b.
Proof. intros H. rewrite <- (byte_of_u8 a), <- (byte_of_u8 b), H. reflexivity. Qed.

Lemma len_nonneg {T} (l : list T) : 0 <= len l.
Proof. unfold len. lia. Qed.

Lemma len_app {T} (a b : list T) : len (a ++ b) = len a + len b.
Proof. unfold len. rewrite length_app. lia. Qed.

Lemma len_cons {T} (a : T) (l : list T) : len (a :: l) = 1 + len l.
Proof. unfold len. simpl. lia. Qed.

Lemma len_nil {T} : len (@nil T) = 0.
Proof. reflexivity. Qed.

Lemma land_shiftl_low (a b n : Z) : 0 <= n -> 0 <= a < 2 ^ n -> Z.land a (Z.shiftl b n) = 0.
Proof.
  intros Hn Ha. apply Z.bits_inj'. intros m Hm.
  rewrite Z.land_spec, Z.bits_0.
  destruct (Z.lt_ge_cases m n) as [Hlt|Hge].
  - rewrite Z.shiftl_spec_low by lia. apply andb_false_r.
  - assert (Z.testbit a m = false) as ->; [|reflexivity].
    destruct (Z.eq_dec a 0) as [->|Hne]; [apply Z.bits_0|].
    apply Z.bits_above_log2; [lia|].
    apply Z.log2_lt_pow2; [lia|].
    apply Z.lt_le_trans with (2 ^ n); [lia|].
    apply Z.pow_le_mono_r; lia.
Qed.

Lemma lor_shiftl_add (a b n : Z) :
  0 <= n -> 0 <= a < 2 ^ n -> Z.lor a (Z.shiftl b n) = a + b * 2 ^ n.
Proof.
  intros Hn Ha.
  rewrite <- Z.lxor_lor by (apply land_shiftl_low; lia).
  rewrite <- Z.add_nocarry_lxor by (apply land_shiftl_low; lia).
  rewrite Z.shiftl_mul_pow2 by lia. reflexivity.
Qed.

Lemma Uint32_bytes (a b c d : byte) :
  Uint32 [a; b; c; d] = u8 a * 2 ^ 24 + u8 b * 2 ^ 16 + u8 c * 2 ^ 8 + u8 d.
Proof.
  unfold Uint32, at_. simpl.
  pose proof (u8_range a). pose proof (u8_range b).
  pose proof (u8_range c). pose proof (u8_range d).
  rewrite (lor_shiftl_add (u8 d)) by lia.
  rewrite (lor_shiftl_add (u8 d + _)) by lia.
  rewrite (lor_shiftl_add (u8 d + _ + _)) by lia.
  lia.
Qed.

Lemma Uint32_PutUint32 (v : Z) : 0 <= v < 2 ^ 32 -> Uint32 (PutUint32 v) = v.
Proof.
  intros Hv. unfold PutUint32. rewrite Uint32_bytes.
  rewrite !u8_byte_of, !Z.shiftr_div_pow2 by lia.
  change (2 ^ 24) with 16777216. change (2 ^ 16) with 65536.
  change (2 ^ 8) with 256. change (2 ^ 32) with 4294967296 in Hv.
  rewrite (Z.mod_small (v / 16777216)) by (split; [apply Z.div_pos; lia | apply Z.div_lt_upper_bound; lia]).
  pose proof (Z.div_mod v 16777216 ltac:(lia)).
  pose proof (Z.mod_pos_bound v 16777216 ltac:(lia)).
  pose proof (Z.div_mod v 65536 ltac:(lia)).
  pose proof (Z.mod_pos_bound v 65536 ltac:(lia)).
  pose proof (Z.div_mod v 256 ltac:(lia)).
  pose proof (Z.mod_pos_bound v 256 ltac:(lia)).
  pose proof (Z.div_mod (v / 65536) 256 ltac:(lia)).
  pose proof (Z.mod_pos_bound (v / 65536) 256 ltac:(lia)).
  pose proof (Z.div_mod (v / 256) 256 ltac:(lia)).
  pose proof (Z.mod_pos_bound (v / 256) 256 ltac:(lia)).
  assert (v / 65536 / 256 = v / 16777216) by (rewrite Z.div_div by lia; reflexivity).
  assert (v / 256 / 256 = v / 65536) by (rewrite Z.div_div by lia; reflexivity).
  lia.
Qed.

Lemma length_PutUint32 (v : Z) : length (PutUint32 v) = 4%nat.
Proof. reflexivity. Qed.

Lemma segmentLen_bytes (hi lo : byte) (rest : list byte) :
  segmentLen_at (hi :: lo :: rest) 0 = u8 hi * 256 + u8 lo.
Proof.
  unfold segmentLen_at, at_. simpl.
  pose proof (u8_range lo). rewrite Z.lor_comm.
  rewrite (lor_shiftl_add (u8 lo)) by lia. lia.
Qed.

(** ** Pixel perturbation *)

Lemma clampUint8_spec (v : Z) :
  clampUint8 v = Z.max 0 (Z.min 255 v).
Proof.
  unfold clampUint8.
  destruct (v <? 0) eqn:E1; [lia|].
  destruct (v >? 255) eqn:E2; [lia|].
  rewrite u8_byte_of_small by lia. lia.
Qed.

Lemma adjustment_range (randomBytes : list byte) : -2 <= adjustment randomBytes <= 2.
Proof.
  unfold adjustment.
  pose proof (Z.mod_pos_bound (u8 (at_ randomBytes 1)) 5 ltac:(lia)). lia.
Qed.

Lemma RGBAAt_SetRGBA_same (m : image.RGBA) (x y : Z) (c : color.RGBA) :
  image.In x y (image.Rect m) = true ->
  image.RGBAAt (image.SetRGBA m x y c) x y = c.
Proof.
  intros Hin. unfold image.RGBAAt, image.SetRGBA. rewrite Hin. simpl.
  rewrite Hin, lookup_insert_eq. reflexivity.
Qed.

Lemma RGBAAt_SetRGBA_other (m : image.RGBA) (x y x' y' : Z) (c : color.RGBA) :
  (x', y') <> (x, y) ->
  image.RGBAAt (image.SetRGBA m x y c) x' y' = image.RGBAAt m x' y'.
Proof.
  intros Hne. unfold image.RGBAAt, image.SetRGBA.
  destruct (image.In x y (image.Rect m)) eqn:Hin; [|reflexivity].
  simpl. destruct (image.In x' y' (image.Rect m)); [|reflexivity].
  rewrite lookup_insert_ne by congruence. reflexivity.
Qed.

Lemma Rect_SetRGBA (m : image.RGBA) (x y : Z) (c : color.RGBA) :
  image.Rect (image.SetRGBA m x y c) = image.Rect m.
Proof. unfold image.SetRGBA. destruct (image.In _ _ _); reflexivity. Qed.

(** C5. The delta lies in -2..2; the selected pixel, when it lies in the
    raster, gets each of R, G and B moved by that one delta and clamped
    to 0..255, and keeps its alpha; [clampUint8] is 0 below 0, 255 above
    255 and the identity in between; no other pixel changes. *)
Theorem pixel_adjustment (newImg : image.RGBA) (edgePixels : list PixelCoord)
    (randomBytes : list byte) :
  let p := selectedPixel edgePixels randomBytes in
  let d := adjustment randomBytes in
  let c := image.RGBAAt newImg (X p) (Y p) in
  let out := adjustPixel newImg edgePixels randomBytes in
  let c' := image.RGBAAt out (X p) (Y p) in
  (d = -2 \/ d = -1 \/ d = 0 \/ d = 1 \/ d = 2) /\
  (image.In (X p) (Y p) (image.Rect newImg) = true ->
     u8 (color.R c') = clampUint8 (u8 (color.R c) + d) /\
     u8 (color.G c') = clampUint8 (u8 (color.G c) + d) /\
     u8 (color.B c') = clampUint8 (u8 (color.B c) + d) /\
     color.A c' = color.A c) /\
  (forall v, (v < 0 -> clampUint8 v = 0) /\ (255 < v -> clampUint8 v = 255) /\
             (0 <= v <= 255 -> clampUint8 v = v)) /\
  (forall x y, (x, y) <> (X p, Y p) -> image.RGBAAt out x y = image.RGBAAt newImg x y).
Proof.
  intros p d c out c'.
  split; [pose proof (adjustment_range randomBytes); unfold d; lia|].
  split.
  - intros Hin. unfold c', out, adjustPixel.
    fold (selectedPixel edgePixels randomBytes). fold p. fold c. fold d.
    rewrite RGBAAt_SetRGBA_same by exact Hin. simpl.
    rewrite !u8_byte_of_small by (rewrite clampUint8_spec; lia).
    repeat split; reflexivity.
  - split.
    + intros v. rewrite clampUint8_spec. repeat split; lia.
    + intros x y Hne. unfold out, adjustPixel.
      fold (selectedPixel edgePixels randomBytes). fold p.
      apply RGBAAt_SetRGBA_other. exact Hne.
Qed.

Lemma pixel_adjustment_witness :
  let edge := getEdgePixels 2 2 in
  let rb := [x03; x04; x00; x00] in
  let p := selectedPixel edge rb in
  let c := image.RGBAAt sampleRaster (X p) (Y p) in
  let c' := image.RGBAAt (adjustPixel sampleRaster edge rb) (X p) (Y p) in
  image.In (X p) (Y p) (image.Rect sampleRaster) = true /\
  u8 (color.R c') = clampUint8 (u8 (color.R c) + adjustment rb) /\
  u8 (color.G c') = clampUint8 (u8 (color.G c) + adjustment rb) /\
  u8 (color.B c') = clampUint8 (u8 (color.B c) + adjustment rb) /\
  color.A c' = color.A c.
Proof.
  split; [reflexivity|].
  apply (proj1 (proj2 (pixel_adjustment sampleRaster (getEdgePixels 2 2)
                         [x03; x04; x00; x00]))).
  reflexivity.
Defined.

(** ** Border pixels *)

Lemma in_getEdgePixels (width height : Z) (p : PixelCoord) :
  In p (getEdgePixels width height) <->
  (0 <= X p < width /\ (Y p = 0 \/ Y p = height - 1)) \/
  (1 <= Y p < height - 1 /\ (X p = 0 \/ X p = width - 1)).
Proof.
  unfold getEdgePixels. rewrite in_app_iff, !in_flat_map. split.
  - intros [(x & Hx & Hp) | (y & Hy & Hp)].
    + apply list_elem_of_In, elem_of_seqZ in Hx. left.
      destruct Hp as [<- | [<- | []]]; simpl; lia.
    + apply list_elem_of_In, elem_of_seqZ in Hy. right.
      destruct Hp as [<- | [<- | []]]; simpl; lia.
  - destruct p as [px py]. simpl.
    intros [(Hx & Hy) | (Hy & Hx)].
    + left. exists px. split; [apply list_elem_of_In, elem_of_seqZ; lia|].
      destruct Hy as [-> | ->]; simpl; auto.
    + right. exists py. split; [apply list_elem_of_In, elem_of_seqZ; lia|].
      destruct Hx as [-> | ->]; simpl; auto.
Qed.

Lemma Rect_copyToRGBA (img : image.Image) :
  image.Rect (copyToRGBA img) = image.Bounds img.
Proof.
  unfold copyToRGBA.
  assert (Hrow : forall y xs m, image.Rect m = image.Bounds img ->
            image.Rect (fold_left (fun newImg x => image.SetRGBA newImg x y (image.At img x y))
                          xs m) = image.Bounds img).
  { intros y xs. induction xs as [|x xs IH]; intros m Hm; [exact Hm|].
    simpl. apply IH. rewrite Rect_SetRGBA. exact Hm. }
  generalize (seqZ (image.MinY (image.Bounds img)) (image.Dy (image.Bounds img))).
  assert (Hinit : image.Rect (image.NewRGBA (image.Bounds img)) = image.Bounds img)
    by reflexivity.
  revert Hinit. generalize (image.NewRGBA (image.Bounds img)).
  intros m Hm ys. revert m Hm.
  induction ys as [|y ys IH]; intros m Hm; [exact Hm|].
  simpl. apply IH. apply Hrow. exact Hm.
Qed.

Lemma NoDup_pairs (f g : Z -> PixelCoord) (l : list Z) :
  NoDup l ->
  (forall a b, f a = f b -> a = b) ->
  (forall a b, g a = g b -> a = b) ->
  (forall a b, f a <> g b) ->
  NoDup (flat_map (fun x => [f x; g x]) l).
Proof.
  intros Hl Hf Hg Hfg. induction Hl as [|a l Ha Hl IH]; simpl.
  - constructor.
  - assert (Hnot : forall q, (forall b, b ∈ l -> q <> f b /\ q <> g b) ->
                     ~ q ∈ flat_map (fun x => [f x; g x]) l).
    { intros q Hq Hin. apply list_elem_of_In, in_flat_map in Hin.
      destruct Hin as (b & Hb & Hqb). apply list_elem_of_In in Hb.
      destruct (Hq b Hb) as [H1 H2].
      destruct Hqb as [E | [E | []]]; congruence. }
    constructor.
    + rewrite elem_of_cons. intros [E | Hin]; [exact (Hfg _ _ E)|].
      revert Hin. apply Hnot. intros b Hb. split.
      * intros E. apply Hf in E. subst. contradiction.
      * apply Hfg.
    + constructor; [|exact IH].
      apply Hnot. intros b Hb. split.
      * intros E. symmetry in E. exact (Hfg _ _ E).
      * intros E. apply Hg in E. subst. contradiction.
Qed.

Lemma length_pairs (f g : Z -> PixelCoord) (l : list Z) :
  length (flat_map (fun x => [f x; g x]) l) = (2 * length l)%nat.
Proof. induction l; simpl; lia. Qed.

(** On rasters at least two pixels wide and high the enumeration is
    what the comment in the source promises. *)
Lemma getEdgePixels_NoDup (width height : Z) :
  2 <= width -> 2 <= height -> NoDup (getEdgePixels width height).
Proof.
  intros Hw Hh. unfold getEdgePixels. apply NoDup_app. split; [|split].
  - apply NoDup_pairs; [apply NoDup_seqZ | | | ]; intros a b E; inversion E; lia.
  - intros p Hp Hq.
    apply list_elem_of_In, in_flat_map in Hp. destruct Hp as (x & _ & Hp).
    apply list_elem_of_In, in_flat_map in Hq. destruct Hq as (y & Hy & Hq).
    apply list_elem_of_In, elem_of_seqZ in Hy.
    destruct Hp as [<- | [<- | []]]; destruct Hq as [E | [E | []]];
      inversion E; lia.
  - apply NoDup_pairs; [apply NoDup_seqZ | | | ]; intros a b E; inversion E; lia.
Qed.

Lemma getEdgePixels_len (width height : Z) :
  0 <= width -> 2 <= height ->
  len (getEdgePixels width height) = 2 * width + 2 * (height - 2).
Proof.
  intros Hw Hh. unfold getEdgePixels, len.
  rewrite length_app, !length_pairs, !length_seqZ. lia.
Qed.

Example getEdgePixels_100 :
  len (getEdgePixels 100 100) = 396 /\ NoDup (getEdgePixels 100 100).
Proof.
  split; [apply getEdgePixels_len; lia | apply getEdgePixels_NoDup; lia].
Qed.

(** C4, at a raster one pixel high: the top row and the bottom row are
    the same row, and every coordinate is listed twice. *)
Theorem getEdgePixels_one_row_repeats :
  getEdgePixels 3 1 =
    [mkCoord 0 0; mkCoord 0 0; mkCoord 1 0; mkCoord 1 0; mkCoord 2 0; mkCoord 2 0]
  /\ ~ NoDup (getEdgePixels 3 1).
Proof.
  split; [reflexivity|].
  intros H. change (getEdgePixels 3 1) with
    ([mkCoord 0 0; mkCoord 0 0; mkCoord 1 0; mkCoord 1 0; mkCoord 2 0; mkCoord 2 0]) in H.
  apply NoDup_cons in H. destruct H as [H _]. apply H. left.
Qed.

(** The same happens to the columns of a raster one pixel wide. *)
Example getEdgePixels_one_column_repeats :
  getEdgePixels 1 3 = [mkCoord 0 0; mkCoord 0 2; mkCoord 0 1; mkCoord 0 1].
Proof. reflexivity. Qed.

(** ** Choice of the border pixel *)

Lemma pixelIndex_bound (randomBytes : list byte) (edgePixels : list PixelCoord) :
  edgePixels <> [] ->
  0 <= pixelIndex randomBytes edgePixels < Z.min 256 (len edgePixels).
Proof.
  intros Hne. unfold pixelIndex.
  assert (0 < len edgePixels) by (destruct edgePixels; [congruence | rewrite len_cons; pose proof (len_nonneg edgePixels); lia]).
  pose proof (u8_range (at_ randomBytes 0)).
  pose proof (Z.mod_pos_bound (u8 (at_ randomBytes 0)) (len edgePixels) ltac:(lia)).
  pose proof (Z.mod_le (u8 (at_ randomBytes 0)) (len edgePixels) ltac:(lia) ltac:(lia)).
  lia.
Qed.

(** On a raster with its origin at (0, 0) and at least one pixel, the
    selected pixel lies in the raster. *)
Lemma selectedPixel_in_raster (width height : Z) (randomBytes : list byte) :
  1 <= width -> 1 <= height ->
  let p := selectedPixel (getEdgePixels width height) randomBytes in
  image.In (X p) (Y p) (image.mkRect 0 0 width height) = true.
Proof.
  intros Hw Hh p.
  assert (Hne : getEdgePixels width height <> []).
  { unfold getEdgePixels. rewrite seqZ_cons by lia. discriminate. }
  pose proof (pixelIndex_bound randomBytes _ Hne) as Hidx.
  assert (Hin : In p (getEdgePixels width height)).
  { unfold p, selectedPixel. apply nth_In. unfold len in Hidx. lia. }
  apply in_getEdgePixels in Hin.
  unfold image.In. simpl.
  repeat (apply andb_true_intro; split); lia.
Qed.

(** C2, on the 100 x 100 raster: the border has 396 pixels, the index is
    always below 256, so the border pixel (99, 50), which is listed at
    index 299, is never selected; of the 256 values of the random byte
    one selects index 0 and none selects index 299. *)
Theorem selection_misses_border_pixels :
  let edge := getEdgePixels 100 100 in
  len edge = 396 /\
  In (mkCoord 99 50) edge /\
  (forall randomBytes, pixelIndex randomBytes edge < 256) /\
  (forall randomBytes, selectedPixel edge randomBytes <> mkCoord 99 50) /\
  selectionCount edge 0 = 1 /\ selectionCount edge 299 = 0.
Proof.
  intros edge.
  assert (Hlen : len edge = 396) by (apply getEdgePixels_len; lia).
  assert (Hnd : NoDup edge) by (apply getEdgePixels_NoDup; lia).
  assert (H299 : nth 299 edge (mkCoord 0 0) = mkCoord 99 50) by reflexivity.
  assert (Hidx : forall randomBytes, 0 <= pixelIndex randomBytes edge < 256).
  { intros rb. pose proof (pixelIndex_bound rb edge) as H.
    assert (edge <> []) by (intros E; rewrite E in Hlen; discriminate).
    specialize (H ltac:(assumption)). lia. }
  split; [exact Hlen|]. split; [apply in_getEdgePixels; simpl; lia|].
  split; [intros rb; apply Hidx|]. split.
  - intros rb E. unfold selectedPixel in E. rewrite <- H299 in E.
    apply (proj1 (List.NoDup_nth edge (mkCoord 0 0)) (proj1 (NoDup_ListNoDup _) Hnd)) in E.
    + specialize (Hidx rb). lia.
    + specialize (Hidx rb). unfold len in Hlen. lia.
    + unfold len in Hlen. lia.
  - split; vm_compute; reflexivity.
Qed.

(** ** The inserted JPEG comment segment *)

Lemma insertJPEGComment_short (data comment : list byte) :
  len data < 4 -> insertJPEGComment data comment = data.
Proof.
  intros H. unfold insertJPEGComment.
  destruct (len data <? 4) eqn:E; [reflexivity | lia].
Qed.

Lemma insertJPEGComment_long (data comment : list byte) :
  4 <= len data ->
  insertJPEGComment data comment =
    slice_to data 2 ++ commentSegment comment ++ slice_from data 2.
Proof.
  intros H. unfold insertJPEGComment.
  destruct (len data <? 4) eqn:E; [lia | reflexivity].
Qed.

Lemma commentSegment_length_field (comment : list byte) :
  segmentLen_at (commentSegment comment) 2 = (len comment + 2) mod 65536.
Proof.
  unfold commentSegment. cbn [app].
  change (segmentLen_at (xff :: xfe :: ?l) 2) with (segmentLen_at l 0).
  rewrite segmentLen_bytes, !u8_byte_of.
  pose proof (len_nonneg comment).
  rewrite Z.shiftr_div_pow2 by lia.
  change 0xFF with (Z.ones 8). rewrite Z.land_ones by lia.
  change (2 ^ 8) with 256.
  rewrite Zmod_mod.
  change 65536 with (256 * 256).
  rewrite Z.rem_mul_r by lia. lia.
Qed.

(** C9, for payloads that fit the length field: for a payload of at
    most 65533 bytes and a buffer of at least 4 bytes, the output is the first two bytes of the input,
    the marker FF FE, a two-byte big-endian length of value payload
    length + 2, the payload, and the rest of the input. *)
Theorem insertJPEGComment_segment (data comment : list byte) :
  4 <= len data ->
  len comment <= 65533 ->
  exists hi lo : byte,
    insertJPEGComment data comment =
      slice_to data 2 ++ [xff; xfe; hi; lo] ++ comment ++ slice_from data 2
    /\ u8 hi * 256 + u8 lo = len comment + 2.
Proof.
  intros Hd Hc.
  exists (byte_of (Z.shiftr (len comment + 2) 8)), (byte_of (Z.land (len comment + 2) 0xFF)).
  split.
  - rewrite insertJPEGComment_long by exact Hd. unfold commentSegment.
    rewrite <- !app_assoc. reflexivity.
  - pose proof (commentSegment_length_field comment) as H.
    unfold commentSegment in H. cbn [app] in H.
    change (segmentLen_at (xff :: xfe :: ?l) 2) with (segmentLen_at l 0) in H.
    rewrite segmentLen_bytes in H. rewrite H.
    pose proof (len_nonneg comment). apply Z.mod_small. lia.
Qed.

Lemma insertJPEGComment_segment_witness :
  exists hi lo : byte,
    insertJPEGComment [xff; xd8; xff; xd9] (lit "hello") =
      slice_to [xff; xd8; xff; xd9] 2 ++ [xff; xfe; hi; lo] ++ lit "hello"
        ++ slice_from [xff; xd8; xff; xd9] 2
    /\ u8 hi * 256 + u8 lo = len (lit "hello") + 2.
Proof.
  apply (insertJPEGComment_segment [xff; xd8; xff; xd9] (lit "hello")).
  - vm_compute. discriminate.
  - vm_compute. discriminate.
Defined.

(** C9 at a payload of 65534 bytes: the length to declare is 65536,
    which two bytes cannot hold, and the two bytes written are both
    zero. *)
Lemma insertJPEGComment_length_wraps :
  let comment := repeat x41 (Z.to_nat 65534) in
  let out := insertJPEGComment [xff; xd8; xff; xd9] comment in
  slice out 0 6 = [xff; xd8; xff; xfe; x00; x00] /\
  len comment + 2 = 65536 /\
  segmentLen_at out 4 <> len comment + 2.
Proof.
  vm_compute. repeat split. discriminate.
Qed.

(** ** The digest guard *)

Lemma hex_value_digit (n : Z) : 0 <= n < 16 -> hex_value (hex_digit n) = n.
Proof.
  intros Hn. unfold hex_value, hex_digit.
  destruct (n <? 10) eqn:E.
  - rewrite u8_byte_of_small by lia. destruct (48 + n <? 58) eqn:E'; lia.
  - rewrite u8_byte_of_small by lia. destruct (87 + n <? 58) eqn:E'; lia.
Qed.

Lemma hex_inj (a b : list byte) : hex a = hex b -> a = b.
Proof.
  revert b. induction a as [|x a IH]; intros [|y b] H; try discriminate; [reflexivity|].
  unfold hex in H. simpl in H. injection H as H1 H2 H3.
  f_equal; [|apply IH; exact H3].
  apply u8_inj.
  pose proof (u8_range x). pose proof (u8_range y).
  apply (f_equal hex_value) in H1, H2.
  rewrite !hex_value_digit in H1, H2
    by first [ apply Z.mod_pos_bound; lia
             | split; [apply Z.div_pos; lia | apply Z.div_lt_upper_bound; lia] ].
  rewrite (Z.div_mod (u8 x) 16), (Z.div_mod (u8 y) 16) by lia. lia.
Qed.

Lemma bytes_Equal_true (a b : list byte) : bytes_Equal a b = true <-> a = b.
Proof. unfold bytes_Equal. apply bool_decide_eq_true. Qed.

Lemma bytes_Equal_false (a b : list byte) : bytes_Equal a b = false <-> a <> b.
Proof. unfold bytes_Equal. apply bool_decide_eq_false. Qed.

Section Guard.

Variable sha1_Sum : list byte -> list byte.
Variable json_Marshal : ImageMetadata -> option (list byte).
Variable png_Decode : list byte -> option image.Image.
Variable jpeg_Decode : list byte -> option image.Image.
Variable png_Encode : image.Image -> option (list byte).
Variable jpeg_Encode : image.Image -> Z -> option (list byte).

Lemma verifyAndWrite_same (imagePath : string) (input output : list byte) (w : World) :
  sha1_Sum output = sha1_Sum input ->
  verifyAndWrite sha1_Sum imagePath (hex (sha1_Sum input)) output w = (w, Err ErrNoChange).
Proof.
  intros E. unfold verifyAndWrite. rewrite E.
  rewrite (proj2 (bytes_Equal_true _ _) eq_refl). reflexivity.
Qed.

Lemma verifyAndWrite_Ok (imagePath : string) (input output d : list byte) (w w' : World) :
  verifyAndWrite sha1_Sum imagePath (hex (sha1_Sum input)) output w = (w', Ok d) ->
  d = hex (sha1_Sum output) /\ sha1_Sum output <> sha1_Sum input /\
  written w' = written w ++ [(imagePath, output)] /\
  files w' = <[imagePath := output]> (files w).
Proof.
  unfold verifyAndWrite.
  destruct (bytes_Equal (hex (sha1_Sum output)) (hex (sha1_Sum input))) eqn:E.
  - intros H. inversion H.
  - apply bytes_Equal_false in E.
    unfold bind, os_WriteFile, ret.
    destruct (bool_decide (imagePath ∈ unwritable w)); intros H; inversion H; subst.
    simpl. repeat split. intros E'. apply E. rewrite E'. reflexivity.
Qed.

(** The random source is the only part of the world that a transform
    touches. *)
Lemma generateRandomBytes_world (n : Z) (w : World) :
  files (fst (generateRandomBytes n w)) = files w /\
  unwritable (fst (generateRandomBytes n w)) = unwritable w /\
  written (fst (generateRandomBytes n w)) = written w.
Proof. unfold generateRandomBytes. simpl. auto. Qed.

Lemma same_files_refl (w : World) : same_files w w.
Proof. unfold same_files. auto. Qed.

Lemma pixel_world (decode : list byte -> option image.Image)
    (encode : image.Image -> option (list byte)) (data : list byte) (w w' : World)
    (r : result (list byte)) :
  (let* img := lift (of_option ErrDecode (decode data)) in
   let edgePixels := getEdgePixels (image.Dx (image.Bounds img)) (image.Dy (image.Bounds img)) in
   if len edgePixels =? 0 then fail ErrNoEdgePixels
   else
     let* randomBytes := generateRandomBytes 4 in
     lift (of_option ErrEncode
             (encode (image.asImage (adjustPixel (copyToRGBA img) edgePixels randomBytes)))))
    w = (w', r) ->
  same_files w w'.
Proof.
  unfold bind, lift, fail.
  destruct (decode data) as [img|]; simpl.
  - destruct (len _ =? 0).
    + intros H. inversion H. apply same_files_refl.
    + intros H. inversion H. unfold same_files. simpl. auto.
  - intros H. inversion H. apply same_files_refl.
Qed.

Lemma transform_world (mode : Mode) (ext input : list byte) (w w' : World)
    (r : result (list byte)) :
  transform json_Marshal png_Decode jpeg_Decode png_Encode jpeg_Encode mode ext input w
    = (w', r) ->
  same_files w w'.
Proof.
  destruct mode as [| |metadata]; simpl.
  - unfold randomSwitch.
    destruct (formatOf ext) as [[|]|]; unfold bind, ret, fail; simpl;
      intros H; inversion H; unfold same_files; simpl; auto.
  - unfold pixelSwitch.
    destruct (formatOf ext) as [[|]|].
    + destruct (modifyJPEGPixel _ _ _ _) as [w1 r1] eqn:E.
      intros H. inversion H. subst.
      exact (pixel_world jpeg_Decode (fun i => jpeg_Encode i 95) _ _ _ _ E).
    + destruct (modifyPNGPixel _ _ _ _) as [w1 r1] eqn:E.
      intros H. inversion H. subst.
      exact (pixel_world png_Decode png_Encode _ _ _ _ E).
    + unfold fail. intros H. inversion H. apply same_files_refl.
  - unfold metadataSwitch.
    destruct (formatOf ext) as [[|]|]; unfold lift, fail;
      intros H; inversion H; apply same_files_refl.
Qed.

Lemma Modify_unfold (mode : Mode) (imagePath : string) (w : World) :
  Modify sha1_Sum json_Marshal png_Decode jpeg_Decode png_Encode jpeg_Encode
    mode imagePath w =
  match files w !! imagePath with
  | None => (w, Err (ErrNotExist imagePath))
  | Some input =>
      match transform json_Marshal png_Decode jpeg_Decode png_Encode jpeg_Encode
              mode (ToLower (Ext imagePath)) input w with
      | (w1, Ok output) =>
          verifyAndWrite sha1_Sum imagePath (hex (sha1_Sum input)) output w1
      | (w1, Err e) => (w1, Err e)
      end
  end.
Proof.
  destruct mode as [| |metadata]; simpl;
    unfold ImageModifier_ModifyImageSHA1, ModifyImageSHA1ByPixel, ModifyImageMetadata;
    unfold bind at 1; unfold os_Stat_exists;
    (destruct (files w !! imagePath) as [input|] eqn:E; [|reflexivity]);
    unfold bind at 1; unfold os_ReadFile; rewrite E;
    unfold bind at 1; reflexivity.
Qed.

(** C1. In each of the three modes the call succeeds only with an
    output whose SHA1 digest differs from that of the input, and that
    output is what it writes; when the transform's output has the
    digest of the input the call fails with the no-change error and
    nothing is written. *)
Theorem digest_guard (mode : Mode) (imagePath : string) (w : World) :
  let run := Modify sha1_Sum json_Marshal png_Decode jpeg_Decode png_Encode jpeg_Encode in
  let tr := transform json_Marshal png_Decode jpeg_Decode png_Encode jpeg_Encode in
  (forall w' d, run mode imagePath w = (w', Ok d) ->
     exists input output w1,
       files w !! imagePath = Some input /\
       tr mode (ToLower (Ext imagePath)) input w = (w1, Ok output) /\
       sha1_Sum output <> sha1_Sum input /\
       d = hex (sha1_Sum output) /\
       written w' = written w ++ [(imagePath, output)] /\
       files w' = <[imagePath := output]> (files w)) /\
  (forall input output w1,
     files w !! imagePath = Some input ->
     tr mode (ToLower (Ext imagePath)) input w = (w1, Ok output) ->
     sha1_Sum output = sha1_Sum input ->
     run mode imagePath w = (w1, Err ErrNoChange) /\
     written w1 = written w /\ files w1 = files w).
Proof.
  intros run tr. unfold run, tr. split.
  - intros w' d. rewrite Modify_unfold.
    destruct (files w !! imagePath) as [input|] eqn:E; [|intros H; inversion H].
    destruct (transform _ _ _ _ _ mode _ input w) as [w1 [output|e]] eqn:T;
      [|intros H; inversion H].
    intros H. apply verifyAndWrite_Ok in H. destruct H as (Hd & Hne & Hw & Hf).
    apply transform_world in T as Hs. destruct Hs as (Hf1 & _ & Hw1).
    exists input, output, w1. rewrite <- Hw1, <- Hf1. repeat split; assumption.
  - intros input output w1 E T Hs. rewrite Modify_unfold, E, T.
    apply transform_world in T as (Hf1 & _ & Hw1).
    rewrite verifyAndWrite_same by exact Hs. auto.
Qed.

End Guard.

(** ** The digest guard on the sample world *)

Lemma digest_guard_witness :
  (exists w' d input output w1,
     sampleModify Random "a.jpg" sampleWorld = (w', Ok d) /\
     files sampleWorld !! "a.jpg"%string = Some input /\
     sampleTransform Random (ToLower (Ext "a.jpg")) input sampleWorld = (w1, Ok output) /\
     SHA1.Sum output <> SHA1.Sum input /\
     d = hex (SHA1.Sum output) /\
     written w' = written sampleWorld ++ [("a.jpg"%string, output)] /\
     files w' = <["a.jpg"%string := output]> (files sampleWorld)) /\
  (exists w1,
     sampleTransform Random (ToLower (Ext "s.jpg")) [xff; xd8] sampleWorld
       = (w1, Ok [xff; xd8]) /\
     sampleModify Random "s.jpg" sampleWorld = (w1, Err ErrNoChange) /\
     written w1 = written sampleWorld /\ files w1 = files sampleWorld).
Proof.
  split.
  - destruct (sampleModify Random "a.jpg" sampleWorld) as [w' [d|e]] eqn:E.
    + exists w', d.
      destruct (proj1 (digest_guard SHA1.Sum sampleMarshal noDecode noDecode noEncode
                         noEncodeQ Random "a.jpg" sampleWorld) w' d E)
        as (input & output & w1 & H).
      exists input, output, w1. split; [reflexivity | exact H].
    + vm_compute in E. discriminate E.
  - destruct (sampleTransform Random (ToLower (Ext "s.jpg")) [xff; xd8] sampleWorld)
      as [w1 r] eqn:T.
    assert (Hr : r = Ok [xff; xd8]) by (vm_compute in T; congruence).
    subst r. exists w1. split; [reflexivity|].
    apply (proj2 (digest_guard SHA1.Sum sampleMarshal noDecode noDecode noEncode
                    noEncodeQ Random "s.jpg" sampleWorld) [xff; xd8] [xff; xd8] w1).
    + reflexivity.
    + exact T.
    + reflexivity.
Defined.

(** ** Buffers shorter than four bytes on the JPEG paths *)

Lemma removeJPEGComments_short (data : list byte) :
  len data < 4 -> removeJPEGComments data = data.
Proof.
  intros H. unfold removeJPEGComments.
  destruct (len data <? 4) eqn:E; [reflexivity | lia].
Qed.

(** C10. On a JPEG file of fewer than four bytes [insertJPEGComment]
    returns its input; the random mode and the metadata mode produce the
    input bytes again, and the call ends in the no-change error, not in
    a container error (in the metadata mode once the record has been
    serialized; a record that cannot be serialized ends the call before). *)
Theorem short_jpeg_no_change (sha1_Sum : list byte -> list byte)
    (json_Marshal : ImageMetadata -> option (list byte))
    (imagePath : string) (data : list byte) (metadata : ImageMetadata) (w : World) :
  files w !! imagePath = Some data ->
  len data < 4 ->
  formatOf (ToLower (Ext imagePath)) = Some JPEG ->
  (forall comment, insertJPEGComment data comment = data) /\
  (exists w', randomSwitch (ToLower (Ext imagePath)) data w = (w', Ok data) /\
     ImageModifier_ModifyImageSHA1 sha1_Sum imagePath w = (w', Err ErrNoChange) /\
     same_files w w') /\
  modifyJPEGMetadata json_Marshal data metadata =
    match json_Marshal metadata with
    | Some _ => Ok data
    | None => Err ErrSerialize
    end /\
  ModifyImageMetadata sha1_Sum json_Marshal imagePath metadata w =
    (w, Err match json_Marshal metadata with
            | Some _ => ErrNoChange
            | None => ErrModify ErrSerialize
            end).
Proof.
  intros Hfile Hlen Hext.
  assert (Hins : forall comment, insertJPEGComment data comment = data)
    by (intros; apply insertJPEGComment_short; exact Hlen).
  split; [exact Hins|]. split; [|split].
  - destruct (randomSwitch (ToLower (Ext imagePath)) data w) as [w' r] eqn:T.
    assert (Hr : r = Ok data).
    { unfold randomSwitch in T. rewrite Hext in T. unfold bind, ret in T. simpl in T.
      rewrite Hins in T. congruence. }
    subst r. exists w'. split; [reflexivity|]. split.
    + unfold ImageModifier_ModifyImageSHA1.
      unfold bind at 1. unfold os_Stat_exists. rewrite Hfile.
      unfold bind at 1. unfold os_ReadFile. rewrite Hfile.
      unfold bind at 1. rewrite T. apply verifyAndWrite_same. reflexivity.
    + unfold randomSwitch in T. rewrite Hext in T. unfold bind, ret in T. simpl in T.
      inversion T. unfold same_files. simpl. auto.
  - unfold modifyJPEGMetadata. rewrite removeJPEGComments_short by exact Hlen.
    destruct (json_Marshal metadata); [rewrite Hins|]; reflexivity.
  - unfold ModifyImageMetadata.
    unfold bind at 1. unfold os_Stat_exists. rewrite Hfile.
    unfold bind at 1. unfold os_ReadFile. rewrite Hfile.
    unfold bind at 1. unfold metadataSwitch. rewrite Hext.
    unfold modifyJPEGMetadata. rewrite removeJPEGComments_short by exact Hlen.
    destruct (json_Marshal metadata); unfold lift, wrap.
    + rewrite Hins. apply verifyAndWrite_same. reflexivity.
    + reflexivity.
Qed.

Lemma short_jpeg_no_change_witness :
  (exists w', ImageModifier_ModifyImageSHA1 SHA1.Sum "s.jpg" sampleWorld
                = (w', Err ErrNoChange) /\ same_files sampleWorld w') /\
  ModifyImageMetadata SHA1.Sum sampleMarshal "s.jpg" sampleMetadata sampleWorld
    = (sampleWorld, Err ErrNoChange).
Proof.
  destruct (short_jpeg_no_change SHA1.Sum sampleMarshal "s.jpg" [xff; xd8]
              sampleMetadata sampleWorld)
    as (_ & (w' & _ & H1 & H2) & _ & H3).
  - reflexivity.
  - vm_compute. reflexivity.
  - reflexivity.
  - split; [exists w'; split; assumption | exact H3].
Defined.

(** ** The PNG signature check *)

Lemma signature_guard (metadata : ImageMetadata) (imagePath : string)
    (data : list byte) (w : World) :
  lacks_png_signature data = true ->
  modifyPNGSHA1 data w = (w, Err ErrInvalidPNG) /\
  modifyPNGMetadata data metadata = Err ErrInvalidPNG /\
  (files w !! imagePath = Some data ->
   getPNGMetadata imagePath w = (w, Err ErrInvalidPNG)).
Proof.
  intros H. unfold modifyPNGSHA1, modifyPNGMetadata, getPNGMetadata.
  rewrite H. repeat split.
  intros Hf. unfold bind, os_ReadFile. rewrite Hf, H. reflexivity.
Qed.

Lemma len_PutUint32 (v : Z) : len (PutUint32 v) = 4.
Proof. reflexivity. Qed.

Lemma len_slice_to_from (data : list byte) (p : Z) :
  len (slice_to data p) + len (slice_from data p) = len data.
Proof.
  unfold slice_to, slice_from. rewrite <- len_app, take_drop. reflexivity.
Qed.

(** The random mode never looks at the signature: whatever the buffer,
    the PNG branch returns it with a chunk added. *)
Lemma randomSwitch_png_grows (ext data : list byte) (w : World) :
  formatOf ext = Some PNG ->
  exists w' out, randomSwitch ext data w = (w', Ok out) /\ len data < len out.
Proof.
  intros Hext. unfold randomSwitch. rewrite Hext. unfold bind, ret. simpl.
  eexists _, _. split; [reflexivity|].
  unfold insertPNGTextChunk. rewrite !len_app, len_PutUint32.
  match goal with |- context [slice_to data ?p] => pose proof (len_slice_to_from data p) end.
  repeat match goal with |- context [len ?l] =>
    lazymatch goal with
    | H : 0 <= len l |- _ => fail
    | _ => pose proof (len_nonneg l)
    end end.
  lia.
Qed.

(** C7, at a text file named [x.png]: the buffer lacks the signature,
    the checked sibling [modifyPNGSHA1] and the entry point built on it
    refuse the file, and the random mode of [ImageModifier] accepts it,
    appends a chunk and writes the file. *)
Theorem random_mode_accepts_non_png :
  let data := lit "hello" in
  lacks_png_signature data = true /\
  files sampleWorld !! "x.png"%string = Some data /\
  modifyPNGSHA1 data sampleWorld = (sampleWorld, Err ErrInvalidPNG) /\
  ImageSHA1Modifier_ModifyImageSHA1 SHA1.Sum noDecode noEncodeQ "x.png" sampleWorld
    = (sampleWorld, Err (ErrModify ErrInvalidPNG)) /\
  exists w' d out,
    ImageModifier_ModifyImageSHA1 SHA1.Sum "x.png" sampleWorld = (w', Ok d) /\
    written w' = [("x.png"%string, out)] /\
    files w' !! "x.png"%string = Some out /\
    out = data ++ createPNGTextChunk (lit "Random") (take 32 sampleEntropy).
Proof.
  intros data. split; [reflexivity|]. split; [reflexivity|]. split; [reflexivity|].
  split; [reflexivity|].
  destruct (ImageModifier_ModifyImageSHA1 SHA1.Sum "x.png" sampleWorld)
    as [w' [d|e]] eqn:E.
  - exists w', d, (data ++ createPNGTextChunk (lit "Random") (take 32 sampleEntropy)).
    split; [reflexivity|].
    vm_compute in E. inversion E. subst. vm_compute. repeat split.
  - vm_compute in E. discriminate E.
Qed.

(** ** The loops end before their fuel does *)

Lemma Uint32_eta (b : list byte) :
  Uint32 b = Uint32 [at_ b 0; at_ b 1; at_ b 2; at_ b 3].
Proof. reflexivity. Qed.

Lemma Uint32_range (b : list byte) : 0 <= Uint32 b < 2 ^ 32.
Proof.
  rewrite Uint32_eta, Uint32_bytes.
  pose proof (u8_range (at_ b 0)). pose proof (u8_range (at_ b 1)).
  pose proof (u8_range (at_ b 2)). pose proof (u8_range (at_ b 3)). lia.
Qed.

Lemma segmentLen_at_range (data : list byte) (pos : Z) :
  0 <= segmentLen_at data pos < 65536.
Proof.
  unfold segmentLen_at.
  pose proof (u8_range (at_ data pos)). pose proof (u8_range (at_ data (pos + 1))).
  rewrite Z.lor_comm, lor_shiftl_add by lia. lia.
Qed.

Ltac split_ifs :=
  repeat match goal with
         | |- context [if ?c then _ else _] => destruct c eqn:?
         end.

Lemma findPNGIENDChunk_loop_fuel (data : list byte) (fuel fuel' : nat) (pos : Z) :
  len data - pos <= Z.of_nat fuel -> len data - pos <= Z.of_nat fuel' ->
  findPNGIENDChunk_loop fuel data pos = findPNGIENDChunk_loop fuel' data pos.
Proof.
  revert fuel' pos. induction fuel as [|fuel IH]; intros [|fuel'] pos H1 H2;
    cbn [findPNGIENDChunk_loop]; try reflexivity.
  - destruct (pos <? len data - 8) eqn:E; [lia | reflexivity].
  - destruct (pos <? len data - 8) eqn:E; [lia | reflexivity].
  - pose proof (Uint32_range (slice data pos (pos + 4))).
    split_ifs; try reflexivity. apply IH; lia.
Qed.

Lemma removeExistingTextChunks_loop_fuel (data : list byte) (fuel fuel' : nat) (pos : Z)
    (result : list byte) :
  len data - pos <= Z.of_nat fuel -> len data - pos <= Z.of_nat fuel' ->
  removeExistingTextChunks_loop fuel data pos result
  = removeExistingTextChunks_loop fuel' data pos result.
Proof.
  revert fuel' pos result. induction fuel as [|fuel IH]; intros [|fuel'] pos result H1 H2;
    cbn [removeExistingTextChunks_loop]; try reflexivity.
  - destruct (pos <? len data - 8) eqn:E; [lia | reflexivity].
  - destruct (pos <? len data - 8) eqn:E; [lia | reflexivity].
  - pose proof (Uint32_range (slice data pos (pos + 4))).
    split_ifs; try reflexivity; apply IH; lia.
Qed.

Lemma getPNGMetadata_loop_fuel (data : list byte) (fuel fuel' : nat) (pos : Z)
    (metadata : ImageMetadata) :
  len data - pos <= Z.of_nat fuel -> len data - pos <= Z.of_nat fuel' ->
  getPNGMetadata_loop fuel data pos metadata = getPNGMetadata_loop fuel' data pos metadata.
Proof.
  revert fuel' pos metadata.
  induction fuel as [|fuel IH]; intros [|fuel'] pos metadata H1 H2;
    cbn [getPNGMetadata_loop]; try reflexivity.
  - destruct (pos <? len data - 8) eqn:E; [lia | reflexivity].
  - destruct (pos <? len data - 8) eqn:E; [lia | reflexivity].
  - pose proof (Uint32_range (slice data pos (pos + 4))).
    destruct (pos <? len data - 8) eqn:E0; [|reflexivity].
    destruct (pos + 4 >? len data) eqn:E1; [reflexivity|].
    destruct (pos + 4 + 4 >? len data) eqn:E2; [reflexivity|].
    destruct (bytes_Equal (slice data (pos + 4) (pos + 4 + 4)) (lit "IEND")) eqn:E3;
      [reflexivity|].
    apply IH; lia.
Qed.

Lemma removeJPEGComments_loop_fuel (data : list byte) (fuel fuel' : nat) (pos : Z)
    (result : list byte) :
  len data - pos <= Z.of_nat fuel -> len data - pos <= Z.of_nat fuel' ->
  removeJPEGComments_loop fuel data pos result
  = removeJPEGComments_loop fuel' data pos result.
Proof.
  revert fuel' pos result. induction fuel as [|fuel IH]; intros [|fuel'] pos result H1 H2;
    cbn [removeJPEGComments_loop]; try reflexivity.
  - destruct (pos <? len data - 4) eqn:E; [lia | reflexivity].
  - destruct (pos <? len data - 4) eqn:E; [lia | reflexivity].
  - pose proof (segmentLen_at_range data (pos + 2)).
    split_ifs; try reflexivity; apply IH; lia.
Qed.

Lemma extractJPEGComment_loop_fuel (data : list byte) (fuel fuel' : nat) (pos : Z) :
  len data - pos <= Z.of_nat fuel -> len data - pos <= Z.of_nat fuel' ->
  extractJPEGComment_loop fuel data pos = extractJPEGComment_loop fuel' data pos.
Proof.
  revert fuel' pos. induction fuel as [|fuel IH]; intros [|fuel'] pos H1 H2;
    cbn [extractJPEGComment_loop]; try reflexivity.
  - destruct (pos <? len data - 4) eqn:E; [lia | reflexivity].
  - destruct (pos <? len data - 4) eqn:E; [lia | reflexivity].
  - pose proof (segmentLen_at_range data (pos + 2)).
    split_ifs; try reflexivity; apply IH; lia.
Qed.

(** Any amount of fuel from [length data] on gives the result of the
    definitions above. *)
Lemma loops_total (data : list byte) (fuel : nat) :
  (length data <= fuel)%nat ->
  findPNGIENDChunk_loop fuel data 8 = findPNGIENDChunk data /\
  (forall r, removeExistingTextChunks_loop fuel data 8 r
             = removeExistingTextChunks_loop (length data) data 8 r) /\
  (forall m, getPNGMetadata_loop fuel data 8 m
             = getPNGMetadata_loop (length data) data 8 m) /\
  (forall r, removeJPEGComments_loop fuel data 2 r
             = removeJPEGComments_loop (length data) data 2 r) /\
  extractJPEGComment_loop fuel data 2 = extractJPEGComment_loop (length data) data 2.
Proof.
  intros H. unfold findPNGIENDChunk.
  assert (len data - 8 <= Z.of_nat fuel) by (unfold len; lia).
  assert (len data - 8 <= Z.of_nat (length data)) by (unfold len; lia).
  assert (len data - 2 <= Z.of_nat fuel) by (unfold len; lia).
  assert (len data - 2 <= Z.of_nat (length data)) by (unfold len; lia).
  repeat split; intros.
  - apply findPNGIENDChunk_loop_fuel; assumption.
  - apply removeExistingTextChunks_loop_fuel; assumption.
  - apply getPNGMetadata_loop_fuel; assumption.
  - apply removeJPEGComments_loop_fuel; assumption.
  - apply extractJPEGComment_loop_fuel; assumption.
Qed.

(** ** Walking a buffer made of whole chunks *)

Lemma slice_mid (data a b c : list byte) (p q : Z) :
  data = a ++ b ++ c -> p = len a -> q = p + len b -> slice data p q = b.
Proof.
  intros -> -> ->. unfold slice, len.
  replace (Z.to_nat (Z.of_nat (length a) + Z.of_nat (length b) - Z.of_nat (length a)))
    with (length b) by lia.
  rewrite Nat2Z.id, drop_app_length, take_app_length. reflexivity.
Qed.

Lemma slice_from_app (a b : list byte) (p : Z) :
  p = len a -> slice_from (a ++ b) p = b.
Proof. intros ->. unfold slice_from, len. rewrite Nat2Z.id. apply drop_app_length. Qed.

Lemma slice_to_app (a b : list byte) (p : Z) :
  p = len a -> slice_to (a ++ b) p = a.
Proof. intros ->. unfold slice_to, len. rewrite Nat2Z.id. apply take_app_length. Qed.

Lemma len_encodeChunk (c : Chunk) :
  Chunk_wf c -> len (encodeChunk c) = 12 + len (chunkData c).
Proof.
  intros (Ht & Hc & _). unfold encodeChunk. rewrite !len_app, len_PutUint32. lia.
Qed.

Lemma encodeChunks_cons (c : Chunk) (cs : list Chunk) :
  encodeChunks (c :: cs) = encodeChunk c ++ encodeChunks cs.
Proof. reflexivity. Qed.

Lemma encodeChunks_app (a b : list Chunk) :
  encodeChunks (a ++ b) = encodeChunks a ++ encodeChunks b.
Proof. unfold encodeChunks. apply flat_map_app. Qed.

(** Reading the chunk that starts at [len pre]. *)
Lemma chunk_header (pre post : list byte) (c : Chunk) :
  Chunk_wf c ->
  let data := pre ++ encodeChunk c ++ post in
  let pos := len pre in
  len data = pos + 12 + len (chunkData c) + len post /\
  Uint32 (slice data pos (pos + 4)) = len (chunkData c) /\
  slice data (pos + 4) (pos + 4 + 4) = chunkType c /\
  slice data (pos + 4) (pos + 8) = chunkType c /\
  slice data (pos + 4 + 4) (pos + 4 + 4 + len (chunkData c)) = chunkData c /\
  slice data pos (pos + (len (chunkData c) + 12)) = encodeChunk c.
Proof.
  intros Hwf data pos. pose proof Hwf as (Ht & Hc & Hd).
  pose proof (len_nonneg (chunkData c)) as Hn.
  assert (Hlen : len data = pos + 12 + len (chunkData c) + len post).
  { unfold data, pos. rewrite !len_app, len_encodeChunk by exact Hwf. lia. }
  split; [exact Hlen|]. split; [|split; [|split; [|split]]].
  - rewrite (slice_mid data pre (PutUint32 (len (chunkData c)))
               (chunkType c ++ chunkData c ++ chunkCRC c ++ post)).
    + apply Uint32_PutUint32. lia.
    + unfold data, encodeChunk. rewrite <- !app_assoc. reflexivity.
    + reflexivity.
    + rewrite len_PutUint32. reflexivity.
  - apply (slice_mid data (pre ++ PutUint32 (len (chunkData c))) (chunkType c)
             (chunkData c ++ chunkCRC c ++ post)).
    + unfold data, encodeChunk. rewrite <- !app_assoc. reflexivity.
    + rewrite len_app, len_PutUint32. reflexivity.
    + lia.
  - apply (slice_mid data (pre ++ PutUint32 (len (chunkData c))) (chunkType c)
             (chunkData c ++ chunkCRC c ++ post)).
    + unfold data, encodeChunk. rewrite <- !app_assoc. reflexivity.
    + rewrite len_app, len_PutUint32. reflexivity.
    + lia.
  - apply (slice_mid data (pre ++ PutUint32 (len (chunkData c)) ++ chunkType c)
             (chunkData c) (chunkCRC c ++ post)).
    + unfold data, encodeChunk. rewrite <- !app_assoc. reflexivity.
    + rewrite !len_app, len_PutUint32. lia.
    + lia.
  - apply (slice_mid data pre (encodeChunk c) post).
    + reflexivity.
    + reflexivity.
    + rewrite len_encodeChunk by exact Hwf. lia.
Qed.

Lemma removeExistingTextChunks_loop_chunks (cs : list Chunk) :
  Forall Chunk_wf cs ->
  forall (fuel : nat) (pre result : list byte),
    len (encodeChunks cs) <= Z.of_nat fuel ->
    removeExistingTextChunks_loop fuel (pre ++ encodeChunks cs) (len pre) result
    = result ++ encodeChunks (List.filter (fun c => negb (isText c)) cs).
Proof.
  induction 1 as [|c cs Hc Hcs IH]; intros fuel pre result Hfuel.
  - simpl. rewrite !app_nil_r.
    destruct fuel; cbn [removeExistingTextChunks_loop]; [reflexivity|].
    destruct (len pre <? len pre - 8) eqn:E; [lia | reflexivity].
  - rewrite encodeChunks_cons in *. rewrite len_app in Hfuel.
    pose proof (len_encodeChunk c Hc) as Hlen.
    pose proof (len_nonneg (chunkData c)). pose proof (len_nonneg (encodeChunks cs)).
    destruct fuel as [|fuel]; [lia|].
    destruct (chunk_header pre (encodeChunks cs) c Hc) as (Hl & Hu & _ & Ht & _ & He).
    cbn [removeExistingTextChunks_loop]. rewrite Hu, Ht, He.
    destruct (len pre <? len (pre ++ encodeChunk c ++ encodeChunks cs) - 8) eqn:E0; [|lia].
    destruct (len pre + 4 >? len (pre ++ encodeChunk c ++ encodeChunks cs)) eqn:E1; [lia|].
    destruct (len pre + 8 >? len (pre ++ encodeChunk c ++ encodeChunks cs)) eqn:E2; [lia|].
    destruct (len pre + (len (chunkData c) + 12) >?
              len (pre ++ encodeChunk c ++ encodeChunks cs)) eqn:E3; [lia|].
    replace (len pre + (len (chunkData c) + 12)) with (len (pre ++ encodeChunk c))
      by (rewrite len_app; lia).
    rewrite (app_assoc pre).
    cbn [List.filter]. unfold isText at 1.
    destruct (is_text_chunk_type (chunkType c)); cbn [negb].
    + rewrite IH by lia. reflexivity.
    + rewrite IH by lia. rewrite encodeChunks_cons, app_assoc. reflexivity.
Qed.

Lemma findPNGIENDChunk_loop_chunks (cs : list Chunk) :
  Forall Chunk_wf cs ->
  forall (fuel : nat) (pre : list byte),
    len (encodeChunks cs) <= Z.of_nat fuel ->
    findPNGIENDChunk_loop fuel (pre ++ encodeChunks cs) (len pre)
    = match fromIEND cs with
      | [] => -1
      | _ => len pre + len (encodeChunks (beforeIEND cs))
      end.
Proof.
  induction 1 as [|c cs Hc Hcs IH]; intros fuel pre Hfuel.
  - simpl. rewrite !app_nil_r.
    destruct fuel; cbn [findPNGIENDChunk_loop]; [reflexivity|].
    destruct (len pre <? len pre - 8) eqn:E; [lia | reflexivity].
  - rewrite encodeChunks_cons in *. rewrite len_app in Hfuel.
    pose proof (len_encodeChunk c Hc) as Hlen.
    pose proof (len_nonneg (chunkData c)). pose proof (len_nonneg (encodeChunks cs)).
    destruct fuel as [|fuel]; [lia|].
    destruct (chunk_header pre (encodeChunks cs) c Hc) as (Hl & Hu & Ht & _ & _ & _).
    cbn [findPNGIENDChunk_loop]. rewrite Hu, Ht.
    destruct (len pre <? len (pre ++ encodeChunk c ++ encodeChunks cs) - 8) eqn:E0; [|lia].
    destruct (len pre + 4 >? len (pre ++ encodeChunk c ++ encodeChunks cs)) eqn:E1; [lia|].
    destruct (len pre + 4 + 4 >? len (pre ++ encodeChunk c ++ encodeChunks cs)) eqn:E2; [lia|].
    cbn [fromIEND beforeIEND]. unfold isIEND.
    destruct (bytes_Equal (chunkType c) (lit "IEND")).
    + change (encodeChunks []) with (@nil byte). rewrite len_nil. lia.
    + replace (len pre + 4 + 4 + (len (chunkData c) + 4)) with (len (pre ++ encodeChunk c))
        by (rewrite len_app; lia).
      rewrite (app_assoc pre), IH by lia.
      destruct (fromIEND cs); [reflexivity|].
      rewrite encodeChunks_cons, !len_app. lia.
Qed.

Lemma getPNGMetadata_loop_chunks (cs : list Chunk) :
  Forall Chunk_wf cs ->
  forall (fuel : nat) (pre : list byte) (metadata : ImageMetadata),
    len (encodeChunks cs) <= Z.of_nat fuel ->
    getPNGMetadata_loop fuel (pre ++ encodeChunks cs) (len pre) metadata
    = scanChunks cs metadata.
Proof.
  induction 1 as [|c cs Hc Hcs IH]; intros fuel pre metadata Hfuel.
  - simpl. rewrite !app_nil_r.
    destruct fuel; cbn [getPNGMetadata_loop]; [reflexivity|].
    destruct (len pre <? len pre - 8) eqn:E; [lia | reflexivity].
  - rewrite encodeChunks_cons in *. rewrite len_app in Hfuel.
    pose proof (len_encodeChunk c Hc) as Hlen.
    pose proof (len_nonneg (chunkData c)). pose proof (len_nonneg (encodeChunks cs)).
    destruct fuel as [|fuel]; [lia|].
    destruct (chunk_header pre (encodeChunks cs) c Hc) as (Hl & Hu & Ht & _ & Hd & _).
    cbn [getPNGMetadata_loop]. rewrite Hu, Ht, Hd.
    destruct (len pre <? len (pre ++ encodeChunk c ++ encodeChunks cs) - 8) eqn:E0; [|lia].
    destruct (len pre + 4 >? len (pre ++ encodeChunk c ++ encodeChunks cs)) eqn:E1; [lia|].
    destruct (len pre + 4 + 4 >? len (pre ++ encodeChunk c ++ encodeChunks cs)) eqn:E2; [lia|].
    destruct (len pre + 4 + 4 + len (chunkData c) <=?
              len (pre ++ encodeChunk c ++ encodeChunks cs)) eqn:E3; [|lia].
    cbn [scanChunks]. unfold isIEND.
    destruct (bytes_Equal (chunkType c) (lit "IEND")); [reflexivity|].
    replace (len pre + 4 + 4 + (len (chunkData c) + 4)) with (len (pre ++ encodeChunk c))
      by (rewrite len_app; lia).
    rewrite (app_assoc pre), IH by lia. reflexivity.
Qed.

Lemma before_from_IEND (cs : list Chunk) : beforeIEND cs ++ fromIEND cs = cs.
Proof.
  induction cs as [|c cs IH]; [reflexivity|]. simpl.
  destruct (isIEND c); [reflexivity|]. simpl. rewrite IH. reflexivity.
Qed.

Lemma len_pngSignature : len pngSignature = 8.
Proof. reflexivity. Qed.

Lemma fuel_enough (pre rest : list byte) : len rest <= Z.of_nat (length (pre ++ rest)).
Proof. rewrite length_app. unfold len. lia. Qed.

(** On a signature followed by whole chunks, removal keeps exactly the
    chunks that are not textual. *)
Lemma removeExistingTextChunks_chunks (cs : list Chunk) :
  Forall Chunk_wf cs ->
  removeExistingTextChunks (pngSignature ++ encodeChunks cs)
  = pngSignature ++ encodeChunks (List.filter (fun c => negb (isText c)) cs).
Proof.
  intros Hwf. unfold removeExistingTextChunks.
  rewrite slice_to_app by reflexivity.
  rewrite <- len_pngSignature.
  apply removeExistingTextChunks_loop_chunks; [exact Hwf | apply fuel_enough].
Qed.

Lemma findPNGIENDChunk_chunks (cs : list Chunk) :
  Forall Chunk_wf cs ->
  findPNGIENDChunk (pngSignature ++ encodeChunks cs)
  = match fromIEND cs with
    | [] => -1
    | _ => 8 + len (encodeChunks (beforeIEND cs))
    end.
Proof.
  intros Hwf. unfold findPNGIENDChunk. rewrite <- len_pngSignature.
  apply findPNGIENDChunk_loop_chunks; [exact Hwf | apply fuel_enough].
Qed.

Lemma slice_to_all (data : list byte) : slice_to data (len data) = data.
Proof. unfold slice_to, len. rewrite Nat2Z.id. apply firstn_all. Qed.

Lemma slice_from_all (data : list byte) : slice_from data (len data) = [].
Proof. unfold slice_from, len. rewrite Nat2Z.id. apply drop_all. Qed.

Lemma insertPNGTextChunks_chunks (cs : list Chunk) (chunks : list (list byte)) :
  Forall Chunk_wf cs ->
  insertPNGTextChunks (pngSignature ++ encodeChunks cs) chunks
  = pngSignature ++ encodeChunks (beforeIEND cs) ++ concat chunks
      ++ encodeChunks (fromIEND cs).
Proof.
  intros Hwf. unfold insertPNGTextChunks.
  rewrite findPNGIENDChunk_chunks by exact Hwf.
  pose proof (before_from_IEND cs) as Hsplit.
  pose proof (len_nonneg (encodeChunks (beforeIEND cs))) as Hn.
  destruct (fromIEND cs) as [|c r] eqn:E.
  - rewrite app_nil_r in Hsplit. rewrite Hsplit.
    change (-1 =? -1) with true. cbv iota.
    rewrite slice_to_all, slice_from_all.
    change (encodeChunks []) with (@nil byte).
    rewrite !app_nil_r, <- app_assoc. reflexivity.
  - destruct (8 + len (encodeChunks (beforeIEND cs)) =? -1) eqn:E1; [lia|].
    assert (Hd : pngSignature ++ encodeChunks cs
                 = (pngSignature ++ encodeChunks (beforeIEND cs)) ++ encodeChunks (c :: r)).
    { rewrite <- Hsplit at 1. rewrite encodeChunks_app, app_assoc. reflexivity. }
    rewrite Hd.
    rewrite slice_to_app, slice_from_app by (rewrite len_app; reflexivity).
    rewrite <- !app_assoc. reflexivity.
Qed.

Lemma getPNGMetadata_chunks (cs : list Chunk) :
  Forall Chunk_wf cs ->
  let data := pngSignature ++ encodeChunks cs in
  getPNGMetadata_loop (length data) data 8 emptyMetadata = scanChunks cs emptyMetadata.
Proof.
  intros Hwf data. unfold data. rewrite <- len_pngSignature.
  apply getPNGMetadata_loop_chunks; [exact Hwf | apply fuel_enough].
Qed.

(** ** What the removal functions drop *)

(** C3, at three buffers: a four-byte JPEG loses its EOI marker, a JPEG
    whose comment is followed by EOI loses the EOI too, and a PNG with
    one byte after its IEND chunk loses that byte.  In each case the
    loop condition ends the walk and the bytes from [pos] on, which are
    no part of a removed segment or chunk, are not copied. *)
Theorem removal_drops_tail :
  removeJPEGComments [xff; xd8; xff; xd9] = [xff; xd8] /\
  removeJPEGComments [xff; xd8; xff; xfe; x00; x03; x41; xff; xd9] = [xff; xd8] /\
  removeExistingTextChunks (pngSignature ++ iendChunk ++ [x0a])
    = pngSignature ++ iendChunk.
Proof. repeat split; vm_compute; reflexivity. Qed.

(** ** The tEXt chunk and where it goes *)

Lemma findPNGIENDChunk_loop_spec (data : list byte) (fuel : nat) (pos : Z) :
  0 <= pos -> len data - pos <= Z.of_nat fuel ->
  let r := findPNGIENDChunk_loop fuel data pos in
  (r = -1 /\ forall p, reach data pos p ->
                       ~ (p < len data - 8 /\ slice data (p + 4) (p + 8) = lit "IEND"))
  \/ (pos <= r /\ reach data pos r /\ r < len data - 8 /\
      slice data (r + 4) (r + 8) = lit "IEND").
Proof.
  revert pos. induction fuel as [|fuel IH]; intros pos Hpos Hfuel r.
  - left. split; [reflexivity|]. intros p Hp [H1 H2].
    inversion Hp; subst; lia.
  - subst r. cbn [findPNGIENDChunk_loop].
    pose proof (Uint32_range (slice data pos (pos + 4))) as HU.
    destruct (pos <? len data - 8) eqn:E0.
    + destruct (pos + 4 >? len data) eqn:E1; [lia|].
      destruct (pos + 4 + 4 >? len data) eqn:E2; [lia|].
      replace (pos + 4 + 4) with (pos + 8) by lia.
      destruct (bytes_Equal (slice data (pos + 4) (pos + 8)) (lit "IEND")) eqn:E3.
      * apply bytes_Equal_true in E3. right.
        replace (pos + 8 - 8) with pos by lia.
        repeat split; [lia | constructor | lia | exact E3].
      * apply bytes_Equal_false in E3.
        replace (pos + 8 + (Uint32 (slice data pos (pos + 4)) + 4))
          with (pos + 12 + Uint32 (slice data pos (pos + 4))) by lia.
        destruct (IH (pos + 12 + Uint32 (slice data pos (pos + 4))) ltac:(lia) ltac:(lia))
          as [[Hr Hno] | (Hle & Hreach & Hlt & Hty)].
        -- left. split; [exact Hr|]. intros p Hp [H1 H2].
           inversion Hp; subst; [contradiction|].
           eapply Hno; eauto.
        -- right. repeat split; [lia | | lia | exact Hty].
           eapply reach_next; [lia | exact E3 | exact Hreach].
    + left. split; [reflexivity|]. intros p Hp [H1 H2].
      inversion Hp; subst; lia.
Qed.

Lemma findPNGIENDChunk_spec (data : list byte) :
  (findPNGIENDChunk data = -1 /\ forall p, ~ IENDat data p)
  \/ (8 <= findPNGIENDChunk data /\ IENDat data (findPNGIENDChunk data)).
Proof.
  unfold findPNGIENDChunk, IENDat.
  destruct (findPNGIENDChunk_loop_spec data (length data) 8 ltac:(lia)
              ltac:(unfold len; lia)) as [[Hr Hno] | (Hle & Hreach & Hlt & Hty)].
  - left. split; [exact Hr|]. intros p (H1 & H2 & H3). exact (Hno p H1 (conj H2 H3)).
  - right. auto.
Qed.

Lemma lxor_range (a b n : Z) :
  0 <= n -> 0 <= a < 2 ^ n -> 0 <= b < 2 ^ n -> 0 <= Z.lxor a b < 2 ^ n.
Proof.
  intros Hn Ha Hb.
  assert (H0 : 0 <= Z.lxor a b) by (apply Z.lxor_nonneg; lia).
  split; [exact H0|].
  destruct (Z.eq_dec (Z.lxor a b) 0) as [->|Hne]; [lia|].
  apply Z.log2_lt_pow2; [lia|].
  apply Z.le_lt_trans with (Z.max (Z.log2 a) (Z.log2 b)); [apply Z.log2_lxor; lia|].
  destruct (Z.eq_dec a 0) as [->|Ha0]; destruct (Z.eq_dec b 0) as [->|Hb0].
  - rewrite Z.lxor_0_l in Hne. lia.
  - simpl. rewrite Z.max_r by apply Z.log2_nonneg. apply Z.log2_lt_pow2; lia.
  - change (Z.log2 0) with 0. rewrite Z.max_l by apply Z.log2_nonneg.
    apply Z.log2_lt_pow2; lia.
  - apply Z.max_lub_lt; apply Z.log2_lt_pow2; lia.
Qed.

Lemma crc32_shift_range (c : Z) : 0 <= c < 2 ^ 32 -> 0 <= crc32_shift c < 2 ^ 32.
Proof.
  intros Hc. unfold crc32_shift.
  assert (Hs : 0 <= Z.shiftr c 1 < 2 ^ 32).
  { rewrite Z.shiftr_div_pow2 by lia. change (2 ^ 1) with 2.
    split; [apply Z.div_pos; lia | apply Z.div_lt_upper_bound; lia]. }
  destruct (Z.testbit c 0); [|exact Hs].
  apply lxor_range; [lia | exact Hs | unfold crc32_poly; lia].
Qed.

Lemma ChecksumIEEE_range (data : list byte) : 0 <= ChecksumIEEE data < 2 ^ 32.
Proof.
  unfold ChecksumIEEE.
  assert (H : forall c, 0 <= c < 2 ^ 32 -> 0 <= fold_left crc32_byte data c < 2 ^ 32).
  { induction data as [|b data IH]; intros c Hc; [exact Hc|].
    simpl. apply IH. unfold crc32_byte.
    do 8 apply crc32_shift_range.
    apply lxor_range; [lia | exact Hc |]. pose proof (u8_range b). lia. }
  apply lxor_range; [lia | apply H; lia | lia].
Qed.

(** C8, for payloads that fit the length field: for a payload keyword,
    0, text of fewer than 2^32 bytes, the chunk is a four-byte big-endian length equal to the
    payload length, the type tEXt, the payload, and the four-byte
    big-endian CRC32 of type and payload; it is spliced in front of the
    IEND chunk found from offset 8, or appended when none is found. *)
Theorem text_chunk_layout (data keyword text : list byte) :
  let payload := keyword ++ [x00] ++ text in
  len payload < 2 ^ 32 ->
  exists lengthBytes crcBytes p,
    insertPNGTextChunk data keyword text
      = slice_to data p ++ (lengthBytes ++ lit "tEXt" ++ payload ++ crcBytes)
          ++ slice_from data p /\
    createPNGTextChunk keyword text = lengthBytes ++ lit "tEXt" ++ payload ++ crcBytes /\
    len lengthBytes = 4 /\ Uint32 lengthBytes = len payload /\
    len crcBytes = 4 /\ Uint32 crcBytes = ChecksumIEEE (lit "tEXt" ++ payload) /\
    (IENDat data p \/ (p = len data /\ forall q, ~ IENDat data q)).
Proof.
  intros payload Hlen.
  pose proof (len_nonneg payload) as Hn.
  exists (PutUint32 (uint32 (len payload))),
         (PutUint32 (ChecksumIEEE (lit "tEXt" ++ payload))),
         (if findPNGIENDChunk data =? -1 then len data else findPNGIENDChunk data).
  split; [reflexivity|]. split; [reflexivity|].
  split; [reflexivity|]. split.
  { unfold uint32. rewrite Z.mod_small by lia. apply Uint32_PutUint32. lia. }
  split; [reflexivity|]. split.
  { apply Uint32_PutUint32. apply ChecksumIEEE_range. }
  destruct (findPNGIENDChunk_spec data) as [[Hr Hno] | [Hle Hat]].
  - right. rewrite Hr. simpl. auto.
  - left. destruct (findPNGIENDChunk data =? -1) eqn:E; [lia | exact Hat].
Qed.

Lemma text_chunk_layout_witness :
  exists lengthBytes crcBytes p,
    insertPNGTextChunk (pngSignature ++ iendChunk) (lit "Random") (lit "abc")
      = slice_to (pngSignature ++ iendChunk) p
          ++ (lengthBytes ++ lit "tEXt" ++ (lit "Random" ++ [x00] ++ lit "abc") ++ crcBytes)
          ++ slice_from (pngSignature ++ iendChunk) p /\
    createPNGTextChunk (lit "Random") (lit "abc")
      = lengthBytes ++ lit "tEXt" ++ (lit "Random" ++ [x00] ++ lit "abc") ++ crcBytes /\
    len lengthBytes = 4 /\ Uint32 lengthBytes = len (lit "Random" ++ [x00] ++ lit "abc") /\
    len crcBytes = 4 /\
    Uint32 crcBytes = ChecksumIEEE (lit "tEXt" ++ (lit "Random" ++ [x00] ++ lit "abc")) /\
    (IENDat (pngSignature ++ iendChunk) p
     \/ (p = len (pngSignature ++ iendChunk) /\
         forall q, ~ IENDat (pngSignature ++ iendChunk) q)).
Proof.
  apply (text_chunk_layout (pngSignature ++ iendChunk) (lit "Random") (lit "abc")).
  vm_compute. reflexivity.
Defined.

(** C8 at a text of 2^32 - 7 bytes under the keyword Random: the
    payload has 2^32 bytes and the length field holds 0. *)
Lemma text_chunk_length_wraps :
  let text := repeat x00 (Z.to_nat (2 ^ 32 - 7)) in
  let payload := lit "Random" ++ [x00] ++ text in
  let chunk := createPNGTextChunk (lit "Random") text in
  len payload = 2 ^ 32 /\ slice_to chunk 4 = [x00; x00; x00; x00] /\
  Uint32 (slice_to chunk 4) <> len payload.
Proof.
  intros text payload chunk.
  assert (Hlen : len payload = 2 ^ 32).
  { unfold payload, text. rewrite !len_app. unfold len at 3.
    rewrite repeat_length, Z2Nat.id by lia. change (len (lit "Random")) with 6.
    change (len [x00]) with 1. lia. }
  assert (Hchunk : slice_to chunk 4 = [x00; x00; x00; x00]).
  { unfold chunk, createPNGTextChunk. fold payload. rewrite Hlen.
    change (uint32 (2 ^ 32)) with 0.
    apply slice_to_app. reflexivity. }
  split; [exact Hlen|]. split; [exact Hchunk|].
  rewrite Hchunk, Hlen. vm_compute. discriminate.
Qed.

(** ** Decimal numbers *)

Lemma u8_digit (d : Z) : 0 <= d <= 9 -> u8 (digit d) = 48 + d.
Proof. intros H. unfold digit. apply u8_byte_of_small. lia. Qed.

Lemma isDigit_digit (d : Z) : 0 <= d <= 9 -> isDigit (digit d) = true.
Proof.
  intros H. unfold isDigit. rewrite u8_digit by exact H.
  apply andb_true_intro. split; lia.
Qed.

Lemma digits_value_snoc (l : list byte) (b : byte) :
  digits_value (l ++ [b]) = digits_value l * 10 + (u8 b - 48).
Proof. unfold digits_value. rewrite fold_left_app. reflexivity. Qed.

Lemma decimal_loop_spec (fuel : nat) :
  forall (n : Z) (acc : list byte),
    0 <= n < 2 ^ Z.of_nat (S fuel) ->
    exists ds,
      decimal_loop (S fuel) n acc = ds ++ acc /\
      ds <> [] /\ forallb isDigit ds = true /\ digits_value ds = n.
Proof.
  induction fuel as [|fuel IH]; intros n acc Hn.
  - change (2 ^ Z.of_nat 1) with 2 in Hn.
    exists [digit (n mod 10)]. cbn [decimal_loop].
    assert (n / 10 = 0) as -> by (apply Z.div_small; lia).
    rewrite Z.mod_small by lia.
    repeat split; [discriminate | simpl; rewrite isDigit_digit by lia; reflexivity |].
    unfold digits_value. simpl. rewrite u8_digit by lia. lia.
  - cbn [decimal_loop].
    assert (Hm : 0 <= n mod 10 <= 9) by (pose proof (Z.mod_pos_bound n 10); lia).
    destruct (n / 10 =? 0) eqn:E.
    + exists [digit (n mod 10)].
      repeat split; [discriminate | simpl; rewrite isDigit_digit by lia; reflexivity |].
      unfold digits_value. simpl. rewrite u8_digit by lia.
      pose proof (Z.div_mod n 10). lia.
    + assert (Hq : 0 <= n / 10 < 2 ^ Z.of_nat (S fuel)).
      { split; [apply Z.div_pos; lia|]. apply Z.div_lt_upper_bound; [lia|].
        rewrite (Nat2Z.inj_succ (S fuel)), Z.pow_succ_r in Hn by lia.
        assert (0 < 2 ^ Z.of_nat (S fuel)) by (apply Z.pow_pos_nonneg; lia). lia. }
      destruct (IH (n / 10) (digit (n mod 10) :: acc) Hq) as (ds & Hds & Hne & Hall & Hval).
      exists (ds ++ [digit (n mod 10)]).
      repeat split.
      * change (decimal_loop (S fuel) (n / 10) (digit (n mod 10) :: acc)
                = (ds ++ [digit (n mod 10)]) ++ acc).
        rewrite Hds, <- app_assoc. reflexivity.
      * destruct ds; discriminate.
      * rewrite forallb_app, Hall. simpl. rewrite isDigit_digit by lia. reflexivity.
      * rewrite digits_value_snoc, Hval, u8_digit by lia.
        pose proof (Z.div_mod n 10). lia.
Qed.

Lemma decimal_spec (n : Z) :
  0 <= n ->
  decimal n <> [] /\ forallb isDigit (decimal n) = true /\ digits_value (decimal n) = n.
Proof.
  intros Hn. unfold decimal.
  assert (Hb : 0 <= n < 2 ^ Z.of_nat (S (Z.to_nat (Z.log2 n)))).
  { split; [exact Hn|].
    rewrite Nat2Z.inj_succ, Z2Nat.id by apply Z.log2_nonneg.
    destruct (Z.eq_dec n 0) as [->|Hne]; [reflexivity|].
    apply Z.log2_spec. lia. }
  destruct (decimal_loop_spec _ n [] Hb) as (ds & Hds & Hne & Hall & Hval).
  rewrite Hds, app_nil_r. auto.
Qed.

Lemma Atoi_Itoa (n : Z) : 0 < n < 2 ^ 63 -> Atoi (Itoa n) = Some n.
Proof.
  intros Hn. unfold Itoa. destruct (n <? 0) eqn:E; [lia|].
  destruct (decimal_spec n ltac:(lia)) as (Hne & Hall & Hval).
  unfold Atoi. destruct (decimal n) as [|b r] eqn:Ed; [congruence|].
  assert (Hb : isDigit b = true) by (simpl in Hall; apply andb_true_iff in Hall; tauto).
  unfold isDigit in Hb. apply andb_true_iff in Hb. destruct Hb as [Hb1 Hb2].
  assert (b <> x2d) by (intros ->; vm_compute in Hb1; discriminate).
  assert (b <> x2b) by (intros ->; vm_compute in Hb1; discriminate).
  rewrite !bool_decide_eq_false_2 by assumption. cbv beta iota.
  rewrite Hall, Hval. simpl orb. cbv iota.
  destruct (n <? - 2 ^ 63) eqn:E1; [lia|].
  destruct (n >? 2 ^ 63 - 1) eqn:E2; [lia|]. reflexivity.
Qed.

(** ** The timestamp text *)

Lemma appendInt_2 (x : Z) :
  0 <= x < 100 -> appendInt x 2 = [digit (x / 10); digit (x mod 10)].
Proof.
  intros H. unfold appendInt. rewrite Z.abs_eq by lia.
  destruct (x <? 0) eqn:E; [lia|].
  destruct (x <? 100) eqn:E1; [|lia]. reflexivity.
Qed.

Lemma appendInt_4 (x : Z) :
  0 <= x < 10000 ->
  appendInt x 4
  = [digit (x / 1000); digit (x / 100 mod 10); digit (x / 10 mod 10); digit (x mod 10)].
Proof.
  intros H. unfold appendInt. rewrite Z.abs_eq by lia.
  destruct (x <? 0) eqn:E; [lia|].
  destruct (x <? 10000) eqn:E1; [|lia]. reflexivity.
Qed.

Lemma getnum_two (a b : Z) (rest : list byte) (fixed : bool) :
  0 <= a <= 9 -> 0 <= b <= 9 ->
  getnum (digit a :: digit b :: rest) fixed = Some (a * 10 + b, rest).
Proof.
  intros Ha Hb. unfold getnum.
  rewrite !isDigit_digit, !u8_digit by assumption.
  do 2 f_equal. lia.
Qed.

Lemma tens_ones (x : Z) :
  0 <= x < 100 -> 0 <= x / 10 <= 9 /\ 0 <= x mod 10 <= 9 /\ x / 10 * 10 + x mod 10 = x.
Proof. intros H. Z.to_euclidean_division_equations. lia. Qed.

Lemma skip_literal (b : byte) (rest : list byte) :
  b <> x20 -> skip (b :: rest) b = Some rest.
Proof.
  intros H. unfold skip.
  rewrite bool_decide_eq_false_2 by exact H.
  rewrite bool_decide_eq_true_2 by reflexivity. reflexivity.
Qed.

(** One layout element at a time. *)
Lemma parse_literal (items : list layoutItem) (b : byte) (rest : list byte) (t : Time) :
  b <> x20 ->
  parse_items (literal b :: items) (b :: rest) t = parse_items items rest t.
Proof. intros H. cbn [parse_items]. rewrite skip_literal by exact H. reflexivity. Qed.

Lemma parse_year (items : list layoutItem) (y : Z) (rest : list byte) (t : Time) :
  0 <= y <= 9999 ->
  parse_items (stdLongYear :: items)
    (digit (y / 1000) :: digit (y / 100 mod 10) :: digit (y / 10 mod 10)
       :: digit (y mod 10) :: rest) t
  = parse_items items rest
      (mkTime y (Month t) (Day t) (Hour t) (Minute t) (Second t) (Nanosecond t)
         (ZoneOffset t)).
Proof.
  intros Hy.
  set (y3 := y / 1000). set (y2 := y / 100 mod 10).
  set (y1 := y / 10 mod 10). set (y0 := y mod 10).
  assert (Hy3 : 0 <= y3 <= 9) by (unfold y3; Z.to_euclidean_division_equations; lia).
  assert (Hy2 : 0 <= y2 <= 9) by (unfold y2; Z.to_euclidean_division_equations; lia).
  assert (Hy1 : 0 <= y1 <= 9) by (unfold y1; Z.to_euclidean_division_equations; lia).
  assert (Hy0 : 0 <= y0 <= 9) by (unfold y0; Z.to_euclidean_division_equations; lia).
  assert (Hyv : ((y3 * 10 + y2) * 10 + y1) * 10 + y0 = y)
    by (unfold y3, y2, y1, y0; Z.to_euclidean_division_equations; lia).
  cbn [parse_items].
  assert ((len (digit y3 :: digit y2 :: digit y1 :: digit y0 :: rest) <? 4) = false) as ->
    by (rewrite !len_cons; pose proof (len_nonneg rest); lia).
  cbn [take drop forallb]. rewrite !isDigit_digit by assumption.
  change (take 0 rest) with (@nil byte). change (drop 0 rest) with rest.
  cbn [andb orb negb forallb].
  assert (digits_value [digit y3; digit y2; digit y1; digit y0] = y) as ->.
  { unfold digits_value. cbn [fold_left]. rewrite !u8_digit by assumption. lia. }
  reflexivity.
Qed.

Lemma getnum_pad2 (x : Z) (rest : list byte) (fixed : bool) :
  0 <= x < 100 ->
  getnum (digit (x / 10) :: digit (x mod 10) :: rest) fixed = Some (x, rest).
Proof.
  intros Hx. destruct (tens_ones x Hx) as (H1 & H2 & H3).
  rewrite getnum_two by assumption. rewrite H3. reflexivity.
Qed.

Lemma parse_month (items : list layoutItem) (x : Z) (rest : list byte) (t : Time) :
  1 <= x <= 12 ->
  parse_items (stdZeroMonth :: items) (digit (x / 10) :: digit (x mod 10) :: rest) t
  = parse_items items rest
      (mkTime (Year t) x (Day t) (Hour t) (Minute t) (Second t) (Nanosecond t)
         (ZoneOffset t)).
Proof.
  intros Hx. cbn [parse_items]. rewrite getnum_pad2 by lia.
  destruct ((x <=? 0) || (12 <? x)) eqn:E; [lia | reflexivity].
Qed.

Lemma parse_day (items : list layoutItem) (x : Z) (rest : list byte) (t : Time) :
  0 <= x < 100 ->
  parse_items (stdZeroDay :: items) (digit (x / 10) :: digit (x mod 10) :: rest) t
  = parse_items items rest
      (mkTime (Year t) (Month t) x (Hour t) (Minute t) (Second t) (Nanosecond t)
         (ZoneOffset t)).
Proof. intros Hx. cbn [parse_items]. rewrite getnum_pad2 by lia. reflexivity. Qed.

Lemma parse_hour (items : list layoutItem) (x : Z) (rest : list byte) (t : Time) :
  0 <= x < 24 ->
  parse_items (stdHour :: items) (digit (x / 10) :: digit (x mod 10) :: rest) t
  = parse_items items rest
      (mkTime (Year t) (Month t) (Day t) x (Minute t) (Second t) (Nanosecond t)
         (ZoneOffset t)).
Proof.
  intros Hx. cbn [parse_items]. rewrite getnum_pad2 by lia.
  destruct (24 <=? x) eqn:E; [lia | reflexivity].
Qed.

Lemma parse_minute (items : list layoutItem) (x : Z) (rest : list byte) (t : Time) :
  0 <= x < 60 ->
  parse_items (stdZeroMinute :: items) (digit (x / 10) :: digit (x mod 10) :: rest) t
  = parse_items items rest
      (mkTime (Year t) (Month t) (Day t) (Hour t) x (Second t) (Nanosecond t)
         (ZoneOffset t)).
Proof.
  intros Hx. cbn [parse_items]. rewrite getnum_pad2 by lia.
  destruct (60 <=? x) eqn:E; [lia | reflexivity].
Qed.

(** The seconds, followed by a character that starts no fraction. *)
Lemma parse_second (items : list layoutItem) (x : Z) (c : byte) (rest : list byte)
    (t : Time) :
  0 <= x < 60 -> commaOrPeriod c = false ->
  parse_items (stdZeroSecond :: items) (digit (x / 10) :: digit (x mod 10) :: c :: rest) t
  = parse_items items (c :: rest)
      (mkTime (Year t) (Month t) (Day t) (Hour t) (Minute t) x 0 (ZoneOffset t)).
Proof.
  intros Hx Hc. cbn [parse_items]. rewrite getnum_pad2 by lia.
  destruct (60 <=? x) eqn:E; [lia|].
  assert (fractional (c :: rest) = (0, c :: rest)) as ->.
  { unfold fractional. destruct rest; [reflexivity|]. rewrite Hc. reflexivity. }
  reflexivity.
Qed.

Lemma Parse_Format_ISO (t : Time) :
  Time_valid t -> 0 <= Year t <= 9999 ->
  Parse layoutISO (Format layoutISO t)
  = Some (mkTime (Year t) (Month t) (Day t) (Hour t) (Minute t) (Second t) 0 0).
Proof.
  intros (Hm & Hd & Hh & Hmi & Hs & Hn) Hy.
  assert (Hdays : daysIn (Month t) (Year t) <= 31).
  { unfold daysIn. split_ifs; lia. }
  unfold Format, layoutISO. cbn [flat_map format_item app].
  rewrite appendInt_4 by lia. rewrite !appendInt_2 by lia. cbn [app].
  unfold Parse.
  rewrite parse_year by lia.
  rewrite parse_literal by discriminate.
  rewrite parse_month by (cbn [Month]; lia).
  rewrite parse_literal by discriminate.
  rewrite parse_day by (cbn [Day]; lia).
  rewrite parse_literal by discriminate.
  rewrite parse_hour by (cbn [Hour]; lia).
  rewrite parse_literal by discriminate.
  rewrite parse_minute by (cbn [Minute]; lia).
  rewrite parse_literal by discriminate.
  rewrite parse_second by (cbn [Second]; first [lia | reflexivity]).
  rewrite parse_literal by discriminate.
  cbn [parse_items Year Month Day Hour Minute Second Nanosecond ZoneOffset].
  rewrite bool_decide_eq_true_2 by reflexivity.
  cbn [Year Month Day].
  destruct ((Day t <? 1) || (Day t >? daysIn (Month t) (Year t))) eqn:E; [lia|].
  reflexivity.
Qed.

(** ** The PNG metadata codec *)

Lemma createPNGTextChunk_encode (kv : list byte * list byte) :
  len (payload kv) < 2 ^ 32 ->
  createPNGTextChunk kv.1 kv.2 = encodeChunk (textChunk kv) /\ Chunk_wf (textChunk kv).
Proof.
  intros H. pose proof (len_nonneg (payload kv)) as Hn.
  split.
  - unfold createPNGTextChunk, encodeChunk, textChunk.
    cbn [chunkType chunkData chunkCRC]. fold (payload kv).
    unfold uint32. rewrite Z.mod_small by lia. reflexivity.
  - unfold Chunk_wf, textChunk. cbn [chunkType chunkData chunkCRC].
    repeat split. exact H.
Qed.

Lemma createPNGTextChunks_entries (metadata : ImageMetadata) :
  createPNGTextChunks metadata
  = map (fun kv => createPNGTextChunk kv.1 kv.2) (textEntries metadata).
Proof.
  unfold createPNGTextChunks, textEntries, chunk_if, entry_if.
  rewrite !map_app.
  repeat match goal with
         | |- context [if ?c then [(?k, ?v)] else []] => destruct c
         end;
    destruct (DateTime metadata); reflexivity.
Qed.

Lemma createPNGTextChunks_encode (metadata : ImageMetadata) :
  payloads_fit metadata ->
  concat (createPNGTextChunks metadata) = encodeChunks (map textChunk (textEntries metadata))
  /\ Forall Chunk_wf (map textChunk (textEntries metadata)).
Proof.
  unfold payloads_fit. rewrite createPNGTextChunks_entries.
  induction 1 as [|kv es Hkv Hes [IH1 IH2]]; [split; [reflexivity | constructor]|].
  destruct (createPNGTextChunk_encode kv Hkv) as [He Hw].
  split.
  - cbn [map concat]. rewrite He, encodeChunks_cons. f_equal. exact IH1.
  - constructor; assumption.
Qed.

Lemma scanChunks_skip (before rest : list Chunk) (m : ImageMetadata) :
  Forall (fun c => isText c = false /\ isIEND c = false) before ->
  scanChunks (before ++ rest) m = scanChunks rest m.
Proof.
  induction 1 as [|c before [Ht Hi] _ IH]; [reflexivity|].
  simpl. rewrite Hi.
  unfold isText, is_text_chunk_type in Ht.
  apply orb_false_iff in Ht. destruct Ht as [Ht _].
  apply orb_false_iff in Ht. destruct Ht as [Ht _].
  rewrite Ht. exact IH.
Qed.

Lemma scanChunks_text (es : list (list byte * list byte)) (rest : list Chunk)
    (m : ImageMetadata) :
  scanChunks (map textChunk es ++ rest) m = scanChunks rest (decodeEntries es m).
Proof.
  revert m. induction es as [|kv es IH]; intros m; [reflexivity|].
  simpl. change (isIEND (textChunk kv)) with false. cbv iota.
  rewrite IH. reflexivity.
Qed.

Lemma scanChunks_fromIEND (cs : list Chunk) (m : ImageMetadata) :
  scanChunks (fromIEND cs) m = m.
Proof.
  induction cs as [|c cs IH]; [reflexivity|].
  simpl. destruct (isIEND c) eqn:E; [|exact IH].
  simpl. rewrite E.
  unfold isIEND in E. apply bytes_Equal_true in E. rewrite E. reflexivity.
Qed.

Lemma beforeIEND_filter (cs : list Chunk) :
  Forall (fun c => isText c = false /\ isIEND c = false)
    (beforeIEND (List.filter (fun c => negb (isText c)) cs)).
Proof.
  induction cs as [|c cs IH]; [constructor|].
  simpl. destruct (isText c) eqn:Et; simpl; [exact IH|].
  destruct (isIEND c) eqn:Ei; [constructor|].
  constructor; [split; assumption | exact IH].
Qed.

Lemma Forall_filter_wf (cs : list Chunk) (f : Chunk -> bool) :
  Forall Chunk_wf cs -> Forall Chunk_wf (List.filter f cs).
Proof.
  induction 1 as [|c cs Hc _ IH]; [constructor|].
  simpl. destruct (f c); [constructor; assumption | exact IH].
Qed.

Lemma Forall_before_from (cs : list Chunk) :
  Forall Chunk_wf cs -> Forall Chunk_wf (beforeIEND cs) /\ Forall Chunk_wf (fromIEND cs).
Proof.
  intros H. rewrite <- (before_from_IEND cs) in H.
  apply Forall_app in H. exact H.
Qed.

Lemma lacks_png_signature_chunks (rest : list byte) :
  lacks_png_signature (pngSignature ++ rest) = false.
Proof.
  unfold lacks_png_signature.
  rewrite slice_to_app by reflexivity.
  rewrite len_app, len_pngSignature.
  pose proof (len_nonneg rest).
  destruct (8 + len rest <? 8) eqn:E; [lia|].
  unfold bytes_Equal. rewrite bool_decide_eq_true_2 by reflexivity. reflexivity.
Qed.

(** Writing the record into a buffer of whole chunks and reading the
    result back gives what the chunks written decode to. *)
Lemma png_write_read (cs : list Chunk) (metadata : ImageMetadata) :
  Forall Chunk_wf cs ->
  payloads_fit metadata ->
  exists out,
    modifyPNGMetadata (pngSignature ++ encodeChunks cs) metadata = Ok out /\
    lacks_png_signature out = false /\
    getPNGMetadata_loop (length out) out 8 emptyMetadata
    = decodeEntries (textEntries metadata) emptyMetadata.
Proof.
  intros Hwf Hfit.
  set (kept := List.filter (fun c => negb (isText c)) cs).
  assert (Hkept : Forall Chunk_wf kept) by (apply Forall_filter_wf; exact Hwf).
  destruct (createPNGTextChunks_encode metadata Hfit) as [Henc Hnew].
  destruct (Forall_before_from kept Hkept) as [Hb Hf].
  set (all := beforeIEND kept ++ map textChunk (textEntries metadata) ++ fromIEND kept).
  exists (pngSignature ++ encodeChunks all).
  split; [|split].
  - unfold modifyPNGMetadata. rewrite lacks_png_signature_chunks.
    rewrite removeExistingTextChunks_chunks by exact Hwf. fold kept.
    rewrite insertPNGTextChunks_chunks by exact Hkept.
    rewrite Henc. unfold all. rewrite !encodeChunks_app. reflexivity.
  - apply lacks_png_signature_chunks.
  - rewrite getPNGMetadata_chunks.
    + unfold all. rewrite scanChunks_skip by apply beforeIEND_filter.
      rewrite scanChunks_text. apply scanChunks_fromIEND.
    + unfold all. apply Forall_app. split; [exact Hb|].
      apply Forall_app. split; assumption.
Qed.

Lemma parse_Author (v : list byte) (m : ImageMetadata) :
  parsePNGTextChunk (payload (lit "Author", v)) m = set_Artist m v.
Proof. reflexivity. Qed.

Lemma parse_Copyright (v : list byte) (m : ImageMetadata) :
  parsePNGTextChunk (payload (lit "Copyright", v)) m = set_Copyright m v.
Proof. reflexivity. Qed.

Lemma parse_Description (v : list byte) (m : ImageMetadata) :
  parsePNGTextChunk (payload (lit "Description", v)) m = set_Description m v.
Proof. reflexivity. Qed.

Lemma parse_CreationTime (v : list byte) (m : ImageMetadata) :
  parsePNGTextChunk (payload (lit "Creation Time", v)) m
  = match Parse layoutISO v with
    | Some t => set_DateTime m (Some t)
    | None =>
        match Parse layoutLegacy v with
        | Some t => set_DateTime m (Some t)
        | None => m
        end
    end.
Proof. reflexivity. Qed.

Lemma parse_Location (v : list byte) (m : ImageMetadata) :
  parsePNGTextChunk (payload (lit "Location", v)) m = set_Location m v.
Proof. reflexivity. Qed.

Lemma parse_CameraMake (v : list byte) (m : ImageMetadata) :
  parsePNGTextChunk (payload (lit "Camera Make", v)) m = set_CameraMake m v.
Proof. reflexivity. Qed.

Lemma parse_CameraModel (v : list byte) (m : ImageMetadata) :
  parsePNGTextChunk (payload (lit "Camera Model", v)) m = set_CameraModel m v.
Proof. reflexivity. Qed.

Lemma parse_Software (v : list byte) (m : ImageMetadata) :
  parsePNGTextChunk (payload (lit "Software", v)) m = set_Software m v.
Proof. reflexivity. Qed.

Lemma parse_ImageWidth (v : list byte) (m : ImageMetadata) :
  parsePNGTextChunk (payload (lit "Image Width", v)) m
  = match Atoi v with Some w => set_ImageWidth m w | None => m end.
Proof. reflexivity. Qed.

Lemma parse_ImageHeight (v : list byte) (m : ImageMetadata) :
  parsePNGTextChunk (payload (lit "Image Height", v)) m
  = match Atoi v with Some h => set_ImageHeight m h | None => m end.
Proof. reflexivity. Qed.

Lemma decodeEntries_entry_if (cond : bool) (k v : list byte)
    (rest : list (list byte * list byte)) (m : ImageMetadata) :
  decodeEntries (entry_if cond k v ++ rest) m
  = decodeEntries rest (if cond then parsePNGTextChunk (payload (k, v)) m else m).
Proof. destruct cond; reflexivity. Qed.

Lemma decodeEntries_entry_if_last (cond : bool) (k v : list byte) (m : ImageMetadata) :
  decodeEntries (entry_if cond k v) m
  = if cond then parsePNGTextChunk (payload (k, v)) m else m.
Proof. destruct cond; reflexivity. Qed.

Lemma nonempty_nil : nonempty [] = false.
Proof. reflexivity. Qed.

Lemma nonempty_cons (b : byte) (s : list byte) : nonempty (b :: s) = true.
Proof. reflexivity. Qed.

(** The chunks written for a record decode to its set fields. *)
Lemma codec_round_trip (metadata : ImageMetadata) :
  timestamp_ok metadata ->
  ImageWidth metadata < 2 ^ 63 -> ImageHeight metadata < 2 ^ 63 ->
  decodeEntries (textEntries metadata) emptyMetadata = setFields metadata.
Proof.
  destruct metadata as [artist copyright description dateTime location make model
                          software width height].
  unfold timestamp_ok, textEntries, setFields.
  cbn [Artist Copyright Description DateTime Location CameraMake CameraModel Software
       ImageWidth ImageHeight].
  intros Htime Hw Hh.
  rewrite !decodeEntries_entry_if.
  rewrite parse_Author, parse_Copyright, parse_Description.
  assert (Hstep : forall (cond : bool) (a b : ImageMetadata), a = b ->
                    (if cond then a else b) = a)
    by (intros [] a b E; congruence).
  set (m1 := if nonempty artist then _ else _).
  assert (m1 = mkMeta artist [] [] None [] [] [] [] 0 0) as ->
    by (unfold m1; destruct artist; reflexivity).
  set (m2 := if nonempty copyright then _ else _).
  assert (m2 = mkMeta artist copyright [] None [] [] [] [] 0 0) as ->
    by (unfold m2; destruct copyright; reflexivity).
  set (m3 := if nonempty description then _ else _).
  assert (m3 = mkMeta artist copyright description None [] [] [] [] 0 0) as ->
    by (unfold m3; destruct description; reflexivity).
  set (m4 := mkMeta artist copyright description dateTime [] [] [] [] 0 0).
  assert (Ht : forall rest,
            decodeEntries
              (match dateTime with
               | Some t => [(lit "Creation Time", Format layoutISO t)]
               | None => []
               end ++ rest)
              (mkMeta artist copyright description None [] [] [] [] 0 0)
            = decodeEntries rest m4).
  { intros rest. destruct dateTime as [t|]; [|reflexivity].
    destruct Htime as (Hv & Hy & Hn & Hz).
    change (decodeEntries ([(lit "Creation Time", Format layoutISO t)] ++ rest) ?m)
      with (decodeEntries rest
              (parsePNGTextChunk (payload (lit "Creation Time", Format layoutISO t)) m)).
    rewrite parse_CreationTime, Parse_Format_ISO by assumption.
    unfold m4, set_DateTime. cbn [Artist Copyright Description DateTime Location
      CameraMake CameraModel Software ImageWidth ImageHeight].
    destruct t as [ty tmo td th tmi ts tn tz]. simpl in Hn, Hz. subst. reflexivity. }
  rewrite Ht. unfold m4.
  rewrite !decodeEntries_entry_if.
  rewrite parse_Location.
  set (m5 := if nonempty location then _ else _).
  assert (m5 = mkMeta artist copyright description dateTime location [] [] [] 0 0) as ->
    by (unfold m5; destruct location; reflexivity).
  rewrite parse_CameraMake.
  set (m6 := if nonempty make then _ else _).
  assert (m6 = mkMeta artist copyright description dateTime location make [] [] 0 0) as ->
    by (unfold m6; destruct make; reflexivity).
  rewrite parse_CameraModel.
  set (m7 := if nonempty model then _ else _).
  assert (m7 = mkMeta artist copyright description dateTime location make model [] 0 0) as ->
    by (unfold m7; destruct model; reflexivity).
  rewrite parse_Software.
  set (m8 := if nonempty software then _ else _).
  assert (m8 = mkMeta artist copyright description dateTime location make model software 0 0)
    as -> by (unfold m8; destruct software; reflexivity).
  rewrite parse_ImageWidth.
  set (m9 := if width >? 0 then _ else _).
  assert (m9 = mkMeta artist copyright description dateTime location make model software
                 (Z.max 0 width) 0) as ->.
  { unfold m9. destruct (width >? 0) eqn:E.
    - rewrite Atoi_Itoa by lia. unfold set_ImageWidth. cbn. f_equal. lia.
    - f_equal. lia. }
  rewrite decodeEntries_entry_if_last, parse_ImageHeight.
  set (m10 := if height >? 0 then _ else _).
  assert (m10 = mkMeta artist copyright description dateTime location make model software
                  (Z.max 0 width) (Z.max 0 height)) as ->.
  { unfold m10. destruct (height >? 0) eqn:E.
    - rewrite Atoi_Itoa by lia. unfold set_ImageHeight. cbn. f_equal. lia.
    - f_equal. lia. }
  reflexivity.
Qed.

Lemma same_set_fields_setFields (m : ImageMetadata) : same_set_fields m (setFields m).
Proof.
  unfold same_set_fields, setFields. simpl.
  repeat split; try reflexivity.
  - destruct (ImageWidth m >? 0) eqn:E; lia.
  - destruct (ImageHeight m >? 0) eqn:E; lia.
Qed.

Lemma same_set_fields_refl (m : ImageMetadata) : same_set_fields m m.
Proof.
  unfold same_set_fields. repeat split; try reflexivity.
  - destruct (ImageWidth m >? 0) eqn:E; lia.
  - destruct (ImageHeight m >? 0) eqn:E; lia.
Qed.

(** ** The JPEG comment written and read back *)

Lemma extractJPEGComment_insert (clean comment : list byte) :
  4 <= len clean -> 0 < len comment <= 65533 ->
  extractJPEGComment (insertJPEGComment clean comment) = Some comment.
Proof.
  intros Hc Hj. rewrite insertJPEGComment_long by exact Hc.
  destruct clean as [|c0 [|c1 rest]];
    [rewrite len_nil in Hc; lia | rewrite len_cons, len_nil in Hc; lia |].
  change (slice_to (c0 :: c1 :: rest) 2) with [c0; c1].
  change (slice_from (c0 :: c1 :: rest) 2) with rest.
  unfold commentSegment.
  set (hi := byte_of (Z.shiftr (len comment + 2) 8)).
  set (lo := byte_of (Z.land (len comment + 2) 255)).
  cbn [app].
  set (data := c0 :: c1 :: xff :: xfe :: hi :: lo :: comment ++ rest).
  assert (Hlen : len data = 6 + len comment + len rest).
  { unfold data. rewrite !len_cons, len_app. lia. }
  pose proof (len_nonneg rest) as Hr.
  assert (Hseg : segmentLen_at data (2 + 2) = len comment + 2).
  { change (segmentLen_at data (2 + 2)) with (segmentLen_at (hi :: lo :: comment ++ rest) 0).
    rewrite segmentLen_bytes. unfold hi, lo. rewrite !u8_byte_of.
    rewrite Z.shiftr_div_pow2 by lia.
    change 255 with (Z.ones 8). rewrite Z.land_ones by lia.
    change (2 ^ 8) with 256. rewrite Zmod_mod.
    rewrite (Z.mod_small ((len comment + 2) / 256))
      by (split; [apply Z.div_pos; lia | apply Z.div_lt_upper_bound; lia]).
    pose proof (Z.div_mod (len comment + 2) 256). lia. }
  unfold extractJPEGComment.
  destruct (len data <? 4) eqn:E; [lia|].
  change (length data) with (S (length (c1 :: xff :: xfe :: hi :: lo :: comment ++ rest))).
  cbn [extractJPEGComment_loop].
  destruct (2 <? len data - 4) eqn:E0; [|lia].
  change (at_ data 2) with xff. change (at_ data (2 + 1)) with xfe.
  change (negb (u8 xff =? 255)) with false. change (u8 xfe =? 254) with true.
  cbv iota.
  destruct (2 + 2 + 2 >? len data) eqn:E1; [lia|].
  rewrite Hseg.
  destruct ((2 + 2 + 2 + (len comment + 2 - 2) <=? len data) && (len comment + 2 - 2 >? 0))
    eqn:E2; [|apply andb_false_iff in E2; destruct E2; lia].
  f_equal.
  apply (slice_mid data [c0; c1; xff; xfe; hi; lo] comment rest);
    [reflexivity | reflexivity | lia].
Qed.

Section RoundTrip.

Variable sha1_Sum : list byte -> list byte.
Variable json_Marshal : ImageMetadata -> option (list byte).
Variable json_Unmarshal : list byte -> option ImageMetadata.

(** C6, under [round_trip_conditions]: when the metadata mode succeeds
    on a file, reading the metadata of the file written
    gives a record with the set fields of the one written and its unset
    fields unset. *)
Theorem metadata_round_trip (imagePath : string) (metadata : ImageMetadata)
    (input d : list byte) (w w' : World) :
  files w !! imagePath = Some input ->
  round_trip_conditions json_Marshal json_Unmarshal
    (formatOf (ToLower (Ext imagePath))) input metadata ->
  ModifyImageMetadata sha1_Sum json_Marshal imagePath metadata w = (w', Ok d) ->
  exists metadata',
    GetImageMetadata json_Unmarshal imagePath w' = (w', Ok metadata') /\
    same_set_fields metadata metadata'.
Proof.
  intros Hfile Hcond Hmod.
  unfold ModifyImageMetadata in Hmod.
  unfold bind at 1 in Hmod. unfold os_Stat_exists in Hmod. rewrite Hfile in Hmod.
  unfold bind at 1 in Hmod. unfold os_ReadFile in Hmod. rewrite Hfile in Hmod.
  unfold bind at 1 in Hmod. unfold metadataSwitch in Hmod.
  unfold GetImageMetadata.
  destruct (formatOf (ToLower (Ext imagePath))) as [[|]|] eqn:Hfmt.
  - (* JPEG *)
    destruct Hcond as (Hclean & js & Hjs & Hun & Hlen).
    unfold modifyJPEGMetadata, lift, wrap in Hmod. rewrite Hjs in Hmod.
    apply verifyAndWrite_Ok in Hmod. destruct Hmod as (_ & _ & _ & Hfiles).
    exists metadata. split; [|apply same_set_fields_refl].
    unfold bind at 1. unfold os_Stat_exists. rewrite Hfiles, lookup_insert_eq.
    unfold getJPEGMetadata, bind, os_ReadFile. rewrite Hfiles, lookup_insert_eq.
    rewrite extractJPEGComment_insert by assumption.
    rewrite Hun. reflexivity.
  - (* PNG *)
    destruct Hcond as ((cs & -> & Hwf) & Hfit & Htime & Hw & Hh).
    destruct (png_write_read cs metadata Hwf Hfit) as (out & Hout & Hsig & Hread).
    unfold lift in Hmod. rewrite Hout in Hmod. unfold wrap in Hmod.
    apply verifyAndWrite_Ok in Hmod. destruct Hmod as (_ & _ & _ & Hfiles).
    exists (setFields metadata). split; [|apply same_set_fields_setFields].
    unfold bind at 1. unfold os_Stat_exists. rewrite Hfiles, lookup_insert_eq.
    unfold getPNGMetadata, bind, os_ReadFile. rewrite Hfiles, lookup_insert_eq.
    rewrite Hsig, Hread, codec_round_trip by assumption. reflexivity.
  - unfold fail in Hmod. inversion Hmod.
Qed.

End RoundTrip.

Lemma metadata_round_trip_witness :
  (exists w' d metadata',
     ModifyImageMetadata SHA1.Sum sampleMarshal "b.png" sampleMetadataPNG sampleWorld
       = (w', Ok d) /\
     GetImageMetadata sampleUnmarshal "b.png" w' = (w', Ok metadata') /\
     same_set_fields sampleMetadataPNG metadata') /\
  (exists w' d metadata',
     ModifyImageMetadata SHA1.Sum sampleMarshal "c.jpg" sampleMetadata sampleWorld
       = (w', Ok d) /\
     GetImageMetadata sampleUnmarshal "c.jpg" w' = (w', Ok metadata') /\
     same_set_fields sampleMetadata metadata').
Proof.
  split.
  - destruct (ModifyImageMetadata SHA1.Sum sampleMarshal "b.png" sampleMetadataPNG
                sampleWorld) as [w' [d|e]] eqn:E; [|vm_compute in E; discriminate E].
    destruct (metadata_round_trip SHA1.Sum sampleMarshal sampleUnmarshal "b.png"
                sampleMetadataPNG (pngSignature ++ iendChunk) d sampleWorld w')
      as (metadata' & Hget & Hsame).
    + reflexivity.
    + change (formatOf (ToLower (Ext "b.png"))) with (Some PNG).
      unfold round_trip_conditions. split; [|split; [|split; [|split]]].
      * exists [mkChunk (lit "IEND") [] [xae; x42; x60; x82]].
        split; [reflexivity|]. repeat constructor.
      * unfold payloads_fit.
        let l := eval vm_compute in (textEntries sampleMetadataPNG) in
        change (textEntries sampleMetadataPNG) with l.
        repeat (constructor; [vm_compute; reflexivity|]). constructor.
      * vm_compute. repeat split; discriminate.
      * vm_compute. reflexivity.
      * vm_compute. reflexivity.
    + exact E.
    + exists w', d, metadata'. auto.
  - destruct (ModifyImageMetadata SHA1.Sum sampleMarshal "c.jpg" sampleMetadata
                sampleWorld) as [w' [d|e]] eqn:E; [|vm_compute in E; discriminate E].
    destruct (metadata_round_trip SHA1.Sum sampleMarshal sampleUnmarshal "c.jpg"
                sampleMetadata [xff; xd8; xff; xdb; x00; x03; x10; xff; xd9] d
                sampleWorld w')
      as (metadata' & Hget & Hsame).
    + reflexivity.
    + change (formatOf (ToLower (Ext "c.jpg"))) with (Some JPEG).
      unfold round_trip_conditions. split.
      * vm_compute. discriminate.
      * eexists. split; [vm_compute; reflexivity|].
        split; [vm_compute; reflexivity|].
        vm_compute. split; [reflexivity | discriminate].
    + exact E.
    + exists w', d, metadata'. auto.
Defined.

(** C6 on the PNG path at a record whose only set field is the
    timestamp 2024-06-15 14:30:00.5 UTC: the text written
    is 2024-06-15T14:30:00Z, and the record read back holds the time
    without its half second. *)
Lemma timestamp_loses_fraction :
  let metadata := mkMeta [] [] [] (Some halfSecond) [] [] [] [] 0 0 in
  Time_valid halfSecond /\
  Format layoutISO halfSecond = lit "2024-06-15T14:30:00Z" /\
  exists w' d metadata',
    ModifyImageMetadata SHA1.Sum sampleMarshal "b.png" metadata sampleWorld = (w', Ok d) /\
    GetImageMetadata sampleUnmarshal "b.png" w' = (w', Ok metadata') /\
    DateTime metadata' = Some sampleTime /\
    DateTime metadata' <> DateTime metadata /\
    ~ same_set_fields metadata metadata'.
Proof.
  intros metadata.
  split; [vm_compute; repeat split; discriminate|].
  split; [reflexivity|].
  destruct (ModifyImageMetadata SHA1.Sum sampleMarshal "b.png" metadata sampleWorld)
    as [w' [d|e]] eqn:E; [|vm_compute in E; discriminate E].
  vm_compute in E. inversion E; subst; clear E.
  eexists _, _, _. split; [reflexivity|].
  split; [vm_compute; reflexivity|].
  split; [reflexivity|].
  split; [discriminate|].
  intros (_ & _ & _ & H & _). discriminate H.
Qed.

(** The four-byte JPEG shows the dropped tail at work: removal leaves
    two bytes, insertion then leaves them alone, the digest differs from
    that of the four bytes, so the call succeeds, the file shrinks to
    its SOI marker and no metadata can be read back. *)
Example metadata_lost_on_short_jpeg :
  exists w' d,
    ModifyImageMetadata SHA1.Sum sampleMarshal "a.jpg" sampleMetadata sampleWorld
      = (w', Ok d) /\
    files w' !! "a.jpg"%string = Some [xff; xd8] /\
    GetImageMetadata sampleUnmarshal "a.jpg" w' = (w', Ok emptyMetadata).
Proof.
  destruct (ModifyImageMetadata SHA1.Sum sampleMarshal "a.jpg" sampleMetadata sampleWorld)
    as [w' [d|e]] eqn:E; [|vm_compute in E; discriminate E].
  vm_compute in E. inversion E; subst; clear E.
  eexists _, _. split; [reflexivity|]. split; vm_compute; reflexivity.
Qed.

(** * Further properties of the entry points *)

Section EntryPoints.

Variable sha1_Sum : list byte -> list byte.
Variable json_Marshal : ImageMetadata -> option (list byte).
Variable json_Unmarshal : list byte -> option ImageMetadata.
Variable png_Decode : list byte -> option image.Image.
Variable jpeg_Decode : list byte -> option image.Image.
Variable png_Encode : image.Image -> option (list byte).
Variable jpeg_Encode : image.Image -> Z -> option (list byte).

Local Abbreviation run := (Modify sha1_Sum json_Marshal png_Decode jpeg_Decode png_Encode jpeg_Encode).
Local Abbreviation tr := (transform json_Marshal png_Decode jpeg_Decode png_Encode jpeg_Encode).

Lemma Modify_missing (mode : Mode) (imagePath : string) (w : World) :
  files w !! imagePath = None ->
  run mode imagePath w = (w, Err (ErrNotExist imagePath)).
Proof. intros H. rewrite Modify_unfold, H. reflexivity. Qed.

(** X1. A path that names no file: every modifying entry point and
    [GetImageMetadata] fail with the file-missing error before anything
    else happens, [GetImageSHA1] fails with the read error, and the
    world (files, random source, writes) is exactly as before. *)
Theorem missing_file (mode : Mode) (imagePath : string) (w : World) :
  files w !! imagePath = None ->
  run mode imagePath w = (w, Err (ErrNotExist imagePath)) /\
  ImageSHA1Modifier_ModifyImageSHA1 sha1_Sum jpeg_Decode jpeg_Encode imagePath w
    = (w, Err (ErrNotExist imagePath)) /\
  GetImageMetadata json_Unmarshal imagePath w = (w, Err (ErrNotExist imagePath)) /\
  GetImageSHA1 sha1_Sum imagePath w = (w, Err ErrRead).
Proof.
  intros H. split; [apply Modify_missing; exact H|].
  unfold ImageSHA1Modifier_ModifyImageSHA1, GetImageMetadata, GetImageSHA1,
    bind, os_Stat_exists, os_ReadFile.
  rewrite H. auto.
Qed.

(** X2. An extension other than .jpg, .jpeg and .png (compared without
    regard to ASCII case): every modifying entry point and
    [GetImageMetadata] fail with the unsupported-format error that
    carries the lower-cased extension; no random byte is drawn and
    nothing is written. *)
Theorem unsupported_extension (mode : Mode) (imagePath : string) (data : list byte)
    (w : World) :
  files w !! imagePath = Some data ->
  formatOf (ToLower (Ext imagePath)) = None ->
  let e := ErrUnsupported (ToLower (Ext imagePath)) in
  run mode imagePath w = (w, Err e) /\
  ImageSHA1Modifier_ModifyImageSHA1 sha1_Sum jpeg_Decode jpeg_Encode imagePath w
    = (w, Err e) /\
  GetImageMetadata json_Unmarshal imagePath w = (w, Err e).
Proof.
  intros Hf Hx e. split; [|split].
  - rewrite Modify_unfold, Hf.
    destruct mode; simpl; unfold randomSwitch, pixelSwitch, metadataSwitch;
      rewrite Hx; reflexivity.
  - unfold ImageSHA1Modifier_ModifyImageSHA1, bind, os_Stat_exists, os_ReadFile.
    rewrite Hf. cbv beta iota. rewrite Hf. unfold sha1Switch. rewrite Hx. reflexivity.
  - unfold GetImageMetadata, bind, os_Stat_exists. rewrite Hf, Hx. reflexivity.
Qed.

Lemma Modify_failure (mode : Mode) (imagePath : string) (w w' : World) (e : error) :
  run mode imagePath w = (w', Err e) ->
  files w' = files w /\ (e <> ErrWrite -> written w' = written w).
Proof.
  rewrite Modify_unfold.
  destruct (files w !! imagePath) as [input|] eqn:Hf.
  - destruct (tr mode (ToLower (Ext imagePath)) input w) as [w1 [output|e1]] eqn:T.
    + apply transform_world in T. destruct T as (Hf1 & _ & Hw1).
      unfold verifyAndWrite.
      destruct (bytes_Equal _ _).
      * unfold fail. intros H. inversion H; subst. auto.
      * unfold bind, os_WriteFile, ret.
        destruct (bool_decide (imagePath ∈ unwritable w1));
          intros H; inversion H; subst. simpl. split; [exact Hf1 | congruence].
    + apply transform_world in T. destruct T as (Hf1 & _ & Hw1).
      intros H. inversion H; subst. auto.
  - intros H. inversion H; subst. auto.
Qed.

(** X3. A call that fails for a reason other than the write itself
    has attempted no write and leaves every file as it was. *)
Theorem failure_keeps_files (mode : Mode) (imagePath : string) (w w' : World) (e : error) :
  run mode imagePath w = (w', Err e) -> e <> ErrWrite ->
  files w' = files w /\ written w' = written w.
Proof.
  intros H He. destruct (Modify_failure mode imagePath w w' e H) as [H1 H2].
  split; [exact H1 | exact (H2 He)].
Qed.

(** X4. After a successful call the digest returned is the digest that
    [GetImageSHA1] reports for the file, and no other file has changed. *)
Theorem success_digest_on_disk (mode : Mode) (imagePath : string) (w w' : World)
    (d : list byte) :
  run mode imagePath w = (w', Ok d) ->
  GetImageSHA1 sha1_Sum imagePath w' = (w', Ok d) /\
  forall other, other <> imagePath -> files w' !! other = files w !! other.
Proof.
  rewrite Modify_unfold.
  destruct (files w !! imagePath) as [input|] eqn:Hf; [|intros H; inversion H].
  destruct (tr mode (ToLower (Ext imagePath)) input w) as [w1 [output|e1]] eqn:T;
    [|intros H; inversion H].
  intros H. apply verifyAndWrite_Ok in H. destruct H as (Hd & _ & _ & Hfiles).
  apply transform_world in T. destruct T as (Hf1 & _ & _). rewrite Hf1 in Hfiles.
  split.
  - unfold GetImageSHA1, bind, os_ReadFile. rewrite Hfiles, lookup_insert_eq.
    rewrite Hd. reflexivity.
  - intros other Hne. rewrite Hfiles. apply lookup_insert_ne. congruence.
Qed.

(** X5. Reading never changes the world: whatever the file holds,
    [GetImageMetadata] and [GetImageSHA1] return the world they got. *)
Theorem reading_changes_nothing (imagePath : string) (w : World) :
  fst (GetImageMetadata json_Unmarshal imagePath w) = w /\
  fst (GetImageSHA1 sha1_Sum imagePath w) = w.
Proof.
  unfold GetImageMetadata, GetImageSHA1, getJPEGMetadata, getPNGMetadata,
    bind, os_Stat_exists, os_ReadFile, ret, fail.
  destruct (files w !! imagePath) as [data|] eqn:Hf; [|auto].
  split; [|reflexivity].
  destruct (formatOf (ToLower (Ext imagePath))) as [[|]|]; [| |reflexivity];
    rewrite Hf.
  - destruct (extractJPEGComment data) as [c|]; [|reflexivity].
    destruct (json_Unmarshal c); reflexivity.
  - destruct (lacks_png_signature data); reflexivity.
Qed.

End EntryPoints.

Lemma missing_file_witness :
  files sampleWorld2 !! "none.jpg"%string = None /\
  sampleModify Random "none.jpg" sampleWorld2 = (sampleWorld2, Err (ErrNotExist "none.jpg")) /\
  GetImageSHA1 SHA1.Sum "none.jpg" sampleWorld2 = (sampleWorld2, Err ErrRead).
Proof.
  split; [reflexivity|].
  destruct (missing_file SHA1.Sum sampleMarshal sampleUnmarshal noDecode noDecode noEncode
              noEncodeQ Random "none.jpg" sampleWorld2) as (H1 & _ & _ & H4).
  - reflexivity.
  - split; [exact H1 | exact H4].
Defined.

Lemma unsupported_extension_witness :
  sampleModify (Metadata sampleMetadata) "notes.txt" sampleWorld2
    = (sampleWorld2, Err (ErrUnsupported (lit ".txt"))) /\
  GetImageMetadata sampleUnmarshal "notes.txt" sampleWorld2
    = (sampleWorld2, Err (ErrUnsupported (lit ".txt"))).
Proof.
  destruct (unsupported_extension SHA1.Sum sampleMarshal sampleUnmarshal noDecode noDecode
              noEncode noEncodeQ (Metadata sampleMetadata) "notes.txt"
              (lit "not an image") sampleWorld2) as (H1 & _ & H3).
  - reflexivity.
  - reflexivity.
  - split; [exact H1 | exact H3].
Defined.

Lemma failure_keeps_files_witness :
  exists w', sampleModify Pixel "b.png" sampleWorld2 = (w', Err (ErrModify ErrDecode)) /\
             files w' = files sampleWorld2 /\ written w' = written sampleWorld2.
Proof.
  destruct (sampleModify Pixel "b.png" sampleWorld2) as [w' r] eqn:E.
  assert (Hr : r = Err (ErrModify ErrDecode)) by (vm_compute in E; congruence).
  subst r. exists w'. split; [reflexivity|].
  apply (failure_keeps_files SHA1.Sum sampleMarshal noDecode noDecode noEncode
           noEncodeQ Pixel "b.png" sampleWorld2 w' (ErrModify ErrDecode) E).
  discriminate.
Defined.

Lemma success_digest_on_disk_witness :
  exists w' d, sampleModify Random "b.png" sampleWorld2 = (w', Ok d) /\
               GetImageSHA1 SHA1.Sum "b.png" w' = (w', Ok d).
Proof.
  destruct (sampleModify Random "b.png" sampleWorld2) as [w' [d|e]] eqn:E;
    [|vm_compute in E; discriminate E].
  exists w', d. split; [reflexivity|].
  exact (proj1 (success_digest_on_disk SHA1.Sum sampleMarshal noDecode noDecode noEncode
                  noEncodeQ Random "b.png" sampleWorld2 w' d E)).
Defined.

(** * Further properties of the PNG chunk editor *)

Lemma filter_nontext_id (cs : list Chunk) :
  Forall (fun c => isText c = false) cs ->
  List.filter (fun c => negb (isText c)) cs = cs.
Proof.
  induction 1 as [|c cs Hc _ IH]; [reflexivity|].
  simpl. rewrite Hc. simpl. rewrite IH. reflexivity.
Qed.

Lemma filter_nontext_spec (cs : list Chunk) :
  Forall (fun c => isText c = false) (List.filter (fun c => negb (isText c)) cs).
Proof.
  induction cs as [|c cs IH]; [constructor|].
  simpl. destruct (isText c) eqn:E; simpl; [exact IH|]. constructor; assumption.
Qed.

Lemma filter_nontext_textChunks (es : list (list byte * list byte)) (rest : list Chunk) :
  List.filter (fun c => negb (isText c)) (map textChunk es ++ rest)
  = List.filter (fun c => negb (isText c)) rest.
Proof. induction es as [|kv es IH]; [reflexivity|]. simpl. exact IH. Qed.

(** X6. On a buffer made of the signature and whole chunks,
    [removeExistingTextChunks] returns the signature and exactly the
    chunks whose type is none of tEXt, zTXt and iTXt, in their order. *)
Theorem text_chunks_removed (cs : list Chunk) :
  Forall Chunk_wf cs ->
  removeExistingTextChunks (pngSignature ++ encodeChunks cs)
  = pngSignature ++ encodeChunks (List.filter (fun c => negb (isText c)) cs) /\
  Forall (fun c => isText c = false) (List.filter (fun c => negb (isText c)) cs).
Proof.
  intros H. split; [apply removeExistingTextChunks_chunks; exact H|].
  apply filter_nontext_spec.
Qed.


Lemma sampleChunks_wf : Forall Chunk_wf sampleChunks.
Proof. repeat (constructor; [repeat split; vm_compute; reflexivity|]). constructor. Qed.

Lemma text_chunks_removed_witness :
  removeExistingTextChunks (pngSignature ++ encodeChunks sampleChunks)
  = pngSignature
    ++ encodeChunks [mkChunk (lit "gAMA") [x00; x00; xb1; x8f] [x0b; xfc; x61; x05];
                     mkChunk (lit "IEND") [] [xae; x42; x60; x82]].
Proof.
  exact (proj1 (text_chunks_removed sampleChunks sampleChunks_wf)).
Defined.

Lemma reach_IEND_unique (data : list byte) (a p q : Z) :
  reach data a p -> reach data a q ->
  slice data (p + 4) (p + 8) = lit "IEND" ->
  slice data (q + 4) (q + 8) = lit "IEND" ->
  p = q.
Proof.
  intros Hp. revert q. induction Hp as [a|a p Hlt Hne Hp IH]; intros q Hq Ep Eq.
  - inversion Hq; subst; [reflexivity | contradiction].
  - inversion Hq; subst; [contradiction|]. apply IH; assumption.
Qed.

Lemma reach_le (data : list byte) (a p : Z) : reach data a p -> a <= p.
Proof.
  induction 1 as [a|a p Hlt Hne Hp IH]; [lia|].
  pose proof (Uint32_range (slice data a (a + 4))). lia.
Qed.

(** X7. [findPNGIENDChunk] returns the offset of the IEND chunk on the
    chunk chain from offset 8, which is unique, and -1 exactly when the
    chain meets none; an offset it returns is at least 8 and leaves
    more than 8 bytes of the buffer. *)
Theorem IEND_offset (data : list byte) (p : Z) :
  (IENDat data p <-> findPNGIENDChunk data = p /\ p <> -1) /\
  (findPNGIENDChunk data = -1 \/ 8 <= findPNGIENDChunk data < len data - 8).
Proof.
  destruct (findPNGIENDChunk_spec data) as [[Hr Hno] | [Hle Hat]].
  - split; [|left; exact Hr]. split.
    + intros H. exfalso. exact (Hno p H).
    + intros [H1 H2]. congruence.
  - split; [|right; destruct Hat as (_ & Hlt & _); lia]. split.
    + intros (Hp1 & Hp2 & Hp3). destruct Hat as (Hq1 & Hq2 & Hq3).
      pose proof (reach_le data 8 p Hp1) as Hp8.
      split; [|lia].
      symmetry. eapply reach_IEND_unique; eauto.
    + intros [H1 H2]. subst p. exact Hat.
Qed.

(** X8. On a buffer made of the signature and whole chunks,
    [insertPNGTextChunks] puts the new chunks, in their order, behind
    every chunk that precedes the first IEND chunk and in front of that
    chunk and all that follows it; without an IEND chunk they go to the
    end. *)
Theorem chunks_spliced_before_IEND (cs : list Chunk) (chunks : list (list byte)) :
  Forall Chunk_wf cs ->
  insertPNGTextChunks (pngSignature ++ encodeChunks cs) chunks
  = pngSignature ++ encodeChunks (beforeIEND cs) ++ concat chunks
      ++ encodeChunks (fromIEND cs) /\
  beforeIEND cs ++ fromIEND cs = cs /\
  Forall (fun c => isIEND c = false) (beforeIEND cs) /\
  match fromIEND cs with
  | [] => True
  | c :: _ => isIEND c = true
  end.
Proof.
  intros H. split; [apply insertPNGTextChunks_chunks; exact H|].
  split; [apply before_from_IEND|]. split.
  - clear H. induction cs as [|c cs IH]; [constructor|].
    simpl. destruct (isIEND c) eqn:E; constructor; assumption.
  - clear H. induction cs as [|c cs IH]; [exact I|].
    simpl. destruct (isIEND c) eqn:E; assumption.
Qed.

Lemma chunks_spliced_before_IEND_witness :
  insertPNGTextChunks (pngSignature ++ encodeChunks sampleChunks) [lit "one"; lit "two"]
  = pngSignature ++ encodeChunks (take 3 sampleChunks) ++ lit "onetwo"
      ++ encodeChunks (drop 3 sampleChunks).
Proof.
  exact (proj1 (chunks_spliced_before_IEND sampleChunks [lit "one"; lit "two"]
                 sampleChunks_wf)).
Defined.



Lemma modifyPNGMetadata_chunks (cs : list Chunk) (metadata : ImageMetadata) :
  Forall Chunk_wf cs -> payloads_fit metadata ->
  modifyPNGMetadata (pngSignature ++ encodeChunks cs) metadata
  = Ok (pngSignature ++ encodeChunks (rewrittenChunks cs metadata)).
Proof.
  intros Hwf Hfit.
  destruct (createPNGTextChunks_encode metadata Hfit) as [Henc _].
  unfold modifyPNGMetadata. rewrite lacks_png_signature_chunks.
  rewrite removeExistingTextChunks_chunks by exact Hwf.
  rewrite insertPNGTextChunks_chunks by (apply Forall_filter_wf; exact Hwf).
  rewrite Henc. unfold rewrittenChunks. rewrite !encodeChunks_app. reflexivity.
Qed.

Lemma rewrittenChunks_kept (cs : list Chunk) (metadata : ImageMetadata) :
  List.filter (fun c => negb (isText c)) (rewrittenChunks cs metadata)
  = List.filter (fun c => negb (isText c)) cs.
Proof.
  unfold rewrittenChunks.
  set (kept := List.filter (fun c => negb (isText c)) cs).
  assert (Hk : Forall (fun c => isText c = false) kept) by apply filter_nontext_spec.
  rewrite <- (before_from_IEND kept) in Hk. apply Forall_app in Hk. destruct Hk as [Hb Hf].
  rewrite List.filter_app, filter_nontext_textChunks.
  rewrite !filter_nontext_id by assumption. apply before_from_IEND.
Qed.

(** X9. On a PNG made of whole chunks, [modifyPNGMetadata] returns the
    signature, the non-textual chunks of the input in their order, and
    one tEXt chunk per set field placed in front of the first IEND
    chunk: every tEXt, zTXt and iTXt chunk of the input is gone. *)
Theorem metadata_chunks_rewritten (cs : list Chunk) (metadata : ImageMetadata) :
  Forall Chunk_wf cs -> payloads_fit metadata ->
  modifyPNGMetadata (pngSignature ++ encodeChunks cs) metadata
  = Ok (pngSignature ++ encodeChunks (rewrittenChunks cs metadata)) /\
  List.filter (fun c => negb (isText c)) (rewrittenChunks cs metadata)
  = List.filter (fun c => negb (isText c)) cs /\
  List.filter isText (rewrittenChunks cs metadata) = map textChunk (textEntries metadata).
Proof.
  intros Hwf Hfit. split; [apply modifyPNGMetadata_chunks; assumption|].
  split; [apply rewrittenChunks_kept|].
  unfold rewrittenChunks.
  set (kept := List.filter (fun c => negb (isText c)) cs).
  assert (Hk : Forall (fun c => isText c = false) kept) by apply filter_nontext_spec.
  rewrite <- (before_from_IEND kept) in Hk. apply Forall_app in Hk. destruct Hk as [Hb Hf].
  - rewrite !List.filter_app.
    assert (Hnone : forall l, Forall (fun c => isText c = false) l -> List.filter isText l = []).
    { induction 1 as [|c l Hc _ IH]; [reflexivity|]. simpl. rewrite Hc. exact IH. }
    rewrite (Hnone _ Hb), (Hnone _ Hf), app_nil_r. cbn [app].
    induction (textEntries metadata) as [|kv es IH]; [reflexivity|].
    simpl. f_equal. exact IH.
Qed.

Lemma sampleMetadataPNG_fits : payloads_fit sampleMetadataPNG.
Proof.
  unfold payloads_fit.
  let l := eval vm_compute in (textEntries sampleMetadataPNG) in
  change (textEntries sampleMetadataPNG) with l.
  repeat (constructor; [vm_compute; reflexivity|]). constructor.
Qed.

Lemma metadata_chunks_rewritten_witness :
  modifyPNGMetadata (pngSignature ++ encodeChunks sampleChunks) sampleMetadataPNG
  = Ok (pngSignature ++ encodeChunks (rewrittenChunks sampleChunks sampleMetadataPNG)).
Proof.
  exact (proj1 (metadata_chunks_rewritten sampleChunks sampleMetadataPNG
                 sampleChunks_wf sampleMetadataPNG_fits)).
Defined.



Lemma scanChunks_stops (a b : list Chunk) (c : Chunk) (m : ImageMetadata) :
  isIEND c = true -> scanChunks (a ++ c :: b) m = scanChunks (a ++ [c]) m.
Proof.
  intros Hc. revert m. induction a as [|x a IH]; intros m.
  - simpl. rewrite Hc. reflexivity.
  - simpl. destruct (isIEND x); [reflexivity|]. apply IH.
Qed.

(** X11. On a PNG file made of whole chunks [getPNGMetadata] applies
    [parsePNGTextChunk] to the payload of each tEXt chunk, in order, up
    to the first IEND chunk: zTXt and iTXt chunks are not read, and
    whatever follows the first IEND chunk has no effect. *)
Theorem png_metadata_read (imagePath : string) (cs after : list Chunk) (stop : Chunk)
    (w : World) :
  Forall Chunk_wf (cs ++ stop :: after) -> isIEND stop = true ->
  files w !! imagePath = Some (pngSignature ++ encodeChunks (cs ++ stop :: after)) ->
  getPNGMetadata imagePath w = (w, Ok (scanChunks (cs ++ [stop]) emptyMetadata)).
Proof.
  intros Hwf Hstop Hfile.
  unfold getPNGMetadata, bind, os_ReadFile. rewrite Hfile.
  rewrite lacks_png_signature_chunks. unfold ret.
  rewrite getPNGMetadata_chunks by exact Hwf.
  rewrite scanChunks_stops by exact Hstop. reflexivity.
Qed.

Lemma png_metadata_read_witness :
  getPNGMetadata "s.png" sampleWorld2
  = (sampleWorld2, Ok (scanChunks (take 4 sampleChunks) emptyMetadata)).
Proof.
  exact (png_metadata_read "s.png" (take 3 sampleChunks) (drop 4 sampleChunks)
           (mkChunk (lit "IEND") [] [xae; x42; x60; x82]) sampleWorld2
           sampleChunks_wf eq_refl eq_refl).
Defined.

(** * Further properties of the JPEG segment editor *)

Lemma at_app (pre l : list byte) (i : Z) :
  0 <= i -> at_ (pre ++ l) (len pre + i) = at_ l i.
Proof.
  intros Hi. unfold at_, len.
  replace (Z.to_nat (Z.of_nat (length pre) + i)) with (length pre + Z.to_nat i)%nat by lia.
  apply app_nth2_plus.
Qed.

Lemma segmentLen_at_app (pre l : list byte) (i : Z) :
  0 <= i -> segmentLen_at (pre ++ l) (len pre + i) = segmentLen_at l i.
Proof.
  intros Hi. unfold segmentLen_at.
  rewrite <- Z.add_assoc, !at_app by lia. reflexivity.
Qed.

Lemma encodeSegments_cons (s : Segment) (segs : list Segment) :
  encodeSegments (s :: segs) = encodeSegment s ++ encodeSegments segs.
Proof. reflexivity. Qed.

Lemma len_encodeSegment (s : Segment) : len (encodeSegment s) = 4 + len (segData s).
Proof. unfold encodeSegment. rewrite !len_app, !len_cons, len_nil. lia. Qed.

Lemma encodeSegment_length_field (s : Segment) (rest : list byte) :
  len (segData s) <= 65533 ->
  segmentLen_at (encodeSegment s ++ rest) 2 = len (segData s) + 2.
Proof.
  intros Hfit. pose proof (len_nonneg (segData s)) as Hn.
  unfold encodeSegment. cbn [app].
  match goal with |- segmentLen_at (xff :: ?m :: ?l) 2 = _ =>
    change (segmentLen_at (xff :: m :: l) 2) with (segmentLen_at l 0) end.
  rewrite segmentLen_bytes, !u8_byte_of.
  rewrite Z.shiftr_div_pow2 by lia.
  change 255 with (Z.ones 8). rewrite Z.land_ones by lia.
  change (2 ^ 8) with 256. rewrite Zmod_mod.
  rewrite (Z.mod_small ((len (segData s) + 2) / 256))
    by (split; [apply Z.div_pos; lia | apply Z.div_lt_upper_bound; lia]).
  pose proof (Z.div_mod (len (segData s) + 2) 256). lia.
Qed.

(** What the walk sees at a segment: the marker bytes, the length
    field, and the bytes the length covers. *)
Lemma segment_header (pre post : list byte) (s : Segment) :
  len (segData s) <= 65533 ->
  let data := pre ++ encodeSegment s ++ post in
  let pos := len pre in
  len data = pos + 4 + len (segData s) + len post /\
  at_ data pos = xff /\
  at_ data (pos + 1) = segMarker s /\
  segmentLen_at data (pos + 2) = len (segData s) + 2 /\
  [xff; segMarker s] ++ slice data (pos + 2) (pos + 2 + (len (segData s) + 2))
    = encodeSegment s /\
  slice data (pos + 2 + 2) (pos + 2 + 2 + (len (segData s) + 2 - 2)) = segData s.
Proof.
  intros Hfit data pos. pose proof (len_nonneg (segData s)) as Hn.
  assert (Hlen : len data = pos + 4 + len (segData s) + len post).
  { unfold data, pos. rewrite !len_app, len_encodeSegment. lia. }
  split; [exact Hlen|]. split; [|split; [|split; [|split]]].
  - unfold data, pos. rewrite <- (Z.add_0_r (len pre)), at_app by lia. reflexivity.
  - unfold data, pos. rewrite at_app by lia. reflexivity.
  - unfold data, pos. rewrite segmentLen_at_app by lia.
    apply encodeSegment_length_field. exact Hfit.
  - unfold encodeSegment. f_equal.
    apply (slice_mid data (pre ++ [xff; segMarker s])
             ([byte_of (Z.shiftr (len (segData s) + 2) 8);
               byte_of (Z.land (len (segData s) + 2) 255)] ++ segData s) post).
    + unfold data, encodeSegment. rewrite <- !app_assoc. reflexivity.
    + rewrite len_app, !len_cons, len_nil. unfold pos. lia.
    + rewrite len_app, !len_cons, len_nil. lia.
  - apply (slice_mid data
             (pre ++ [xff; segMarker s; byte_of (Z.shiftr (len (segData s) + 2) 8);
                      byte_of (Z.land (len (segData s) + 2) 255)])
             (segData s) post).
    + unfold data, encodeSegment. rewrite <- !app_assoc. reflexivity.
    + rewrite len_app, !len_cons, len_nil. unfold pos. lia.
    + lia.
Qed.

Lemma removeJPEGComments_loop_segments (segs : list Segment) (tail : list byte) :
  Forall Segment_wf segs -> ends_walk tail ->
  forall (fuel : nat) (pre result : list byte),
    len (encodeSegments segs ++ tail) <= Z.of_nat fuel ->
    removeJPEGComments_loop fuel (pre ++ encodeSegments segs ++ tail) (len pre) result
    = result ++ encodeSegments (List.filter (fun s => negb (isComment s)) segs) ++ tail.
Proof.
  intros Hwf [Htl Hend]. induction Hwf as [|s segs [Hm Hfit] Hsegs IH];
    intros fuel pre result Hfuel.
  - change (encodeSegments []) with (@nil byte) in *. cbn [app List.filter] in *.
    change (encodeSegments []) with (@nil byte). cbn [app].
    destruct fuel as [|fuel]; [lia|].
    cbn [removeJPEGComments_loop].
    rewrite len_app.
    destruct (len pre <? len pre + len tail - 4) eqn:E0; [|lia].
    rewrite <- (Z.add_0_r (len pre)) at 1. rewrite !at_app by lia.
    destruct (negb (u8 (at_ tail 0) =? 255)) eqn:E1.
    + rewrite slice_from_app by reflexivity. reflexivity.
    + cbn [orb] in Hend.
      assert (Hfe : (u8 (at_ tail 1) =? 254) = false).
      { destruct (u8 (at_ tail 1) =? 254) eqn:E2; [|reflexivity].
        unfold has_length_field in Hend. rewrite E2, orb_true_r in Hend. discriminate Hend. }
      rewrite Hfe. apply negb_true_iff in Hend. rewrite Hend.
      rewrite <- app_assoc. f_equal.
      destruct tail as [|t0 [|t1 tail']];
        [rewrite len_nil in Htl; lia | rewrite len_cons, len_nil in Htl; lia |].
      change (at_ (t0 :: t1 :: tail') 1) with t1.
      assert (Et0 : t0 = xff).
      { apply negb_false_iff, Z.eqb_eq in E1. change (at_ (t0 :: t1 :: tail') 0) with t0 in E1.
        apply u8_inj. exact E1. }
      subst t0.
      change (xff :: t1 :: tail') with ([xff; t1] ++ tail').
      rewrite app_assoc, slice_from_app; [reflexivity|].
      rewrite len_app, !len_cons, len_nil. lia.
  - rewrite encodeSegments_cons in *. rewrite <- app_assoc in *.
    rewrite len_app, len_encodeSegment in Hfuel.
    pose proof (len_nonneg (segData s)).
    assert (Hrest : 4 < len (encodeSegments segs ++ tail))
      by (rewrite len_app; pose proof (len_nonneg (encodeSegments segs)); lia).
    destruct fuel as [|fuel]; [lia|].
    destruct (segment_header pre (encodeSegments segs ++ tail) s Hfit)
      as (Hl & Hb0 & Hb1 & Hs & He & _).
    cbn [removeJPEGComments_loop]. rewrite Hb0, Hb1, Hs, Hl.
    change (negb (u8 xff =? 255)) with false. cbv iota.
    destruct (len pre <? len pre + 4 + len (segData s) + len (encodeSegments segs ++ tail) - 4)
      eqn:E0; [|lia].
    destruct (len pre + 2 + 2 >? len pre + 4 + len (segData s) + len (encodeSegments segs ++ tail))
      eqn:E1; [lia|].
    assert (Hpos : len pre + 2 + (len (segData s) + 2) = len (pre ++ encodeSegment s)).
    { rewrite len_app, len_encodeSegment. lia. }
    cbn [List.filter]. unfold isComment at 1.
    destruct (u8 (segMarker s) =? 254) eqn:E2; cbn [negb].
    + rewrite Hpos.
      rewrite (app_assoc pre (encodeSegment s)).
      apply IH. lia.
    + rewrite Hm.
      destruct (len pre + 2 + (len (segData s) + 2) >?
                len pre + 4 + len (segData s) + len (encodeSegments segs ++ tail)) eqn:E3; [lia|].
      rewrite <- (app_assoc result), He, Hpos.
      rewrite (app_assoc pre (encodeSegment s)).
      rewrite IH by lia.
      rewrite encodeSegments_cons, <- !app_assoc. reflexivity.
Qed.

Lemma extractJPEGComment_loop_segments (segs : list Segment) (tail : list byte) :
  Forall Segment_wf segs -> ends_walk tail ->
  forall (fuel : nat) (pre : list byte),
    len (encodeSegments segs ++ tail) <= Z.of_nat fuel ->
    extractJPEGComment_loop fuel (pre ++ encodeSegments segs ++ tail) (len pre)
    = firstComment segs.
Proof.
  intros Hwf [Htl Hend]. induction Hwf as [|s segs [Hm Hfit] Hsegs IH];
    intros fuel pre Hfuel.
  - change (encodeSegments []) with (@nil byte) in *. cbn [app firstComment] in *.
    destruct fuel as [|fuel]; [lia|].
    cbn [extractJPEGComment_loop].
    rewrite len_app.
    destruct (len pre <? len pre + len tail - 4) eqn:E0; [|lia].
    rewrite <- (Z.add_0_r (len pre)) at 1. rewrite !at_app by lia.
    destruct (negb (u8 (at_ tail 0) =? 255)) eqn:E1; [reflexivity|].
    cbn [orb] in Hend.
    assert (Hfe : (u8 (at_ tail 1) =? 254) = false).
    { destruct (u8 (at_ tail 1) =? 254) eqn:E2; [|reflexivity].
      unfold has_length_field in Hend. rewrite E2, orb_true_r in Hend. discriminate Hend. }
    rewrite Hfe. apply negb_true_iff in Hend. rewrite Hend. reflexivity.
  - rewrite encodeSegments_cons in *. rewrite <- app_assoc in *.
    rewrite len_app, len_encodeSegment in Hfuel.
    pose proof (len_nonneg (segData s)).
    assert (Hrest : 4 < len (encodeSegments segs ++ tail))
      by (rewrite len_app; pose proof (len_nonneg (encodeSegments segs)); lia).
    destruct fuel as [|fuel]; [lia|].
    destruct (segment_header pre (encodeSegments segs ++ tail) s Hfit)
      as (Hl & Hb0 & Hb1 & Hs & _ & Hd).
    cbn [extractJPEGComment_loop firstComment]. rewrite Hb0, Hb1, Hs, Hl, Hd.
    change (negb (u8 xff =? 255)) with false. cbv iota.
    destruct (len pre <? len pre + 4 + len (segData s) + len (encodeSegments segs ++ tail) - 4)
      eqn:E0; [|lia].
    destruct (len pre + 2 + 2 >? len pre + 4 + len (segData s) + len (encodeSegments segs ++ tail))
      eqn:E1; [lia|].
    unfold isComment.
    destruct (u8 (segMarker s) =? 254) eqn:E2.
    + replace (len (segData s) + 2 - 2) with (len (segData s)) by lia.
      destruct (len pre + 2 + 2 + len (segData s) <=?
                len pre + 4 + len (segData s) + len (encodeSegments segs ++ tail)) eqn:E3; [|lia].
      cbn [andb]. reflexivity.
    + rewrite Hm.
      assert (Hpos : len pre + 2 + (len (segData s) + 2) = len (pre ++ encodeSegment s)).
      { rewrite len_app, len_encodeSegment. lia. }
      rewrite Hpos, (app_assoc pre (encodeSegment s)).
      apply IH. lia.
Qed.

Lemma filter_noncomment_idem (segs : list Segment) :
  List.filter (fun s => negb (isComment s)) (List.filter (fun s => negb (isComment s)) segs)
  = List.filter (fun s => negb (isComment s)) segs.
Proof.
  induction segs as [|s segs IH]; [reflexivity|].
  cbn [List.filter]. destruct (negb (isComment s)) eqn:E; [|exact IH].
  cbn [List.filter]. rewrite E, IH. reflexivity.
Qed.

Lemma Forall_filter_segments (segs : list Segment) (f : Segment -> bool) :
  Forall Segment_wf segs -> Forall Segment_wf (List.filter f segs).
Proof.
  induction 1 as [|s segs Hs _ IH]; [constructor|].
  simpl. destruct (f s); [constructor; assumption | exact IH].
Qed.

Lemma removeJPEGComments_segments (s0 s1 : byte) (segs : list Segment) (tail : list byte) :
  Forall Segment_wf segs -> ends_walk tail ->
  removeJPEGComments ([s0; s1] ++ encodeSegments segs ++ tail)
  = [s0; s1] ++ encodeSegments (List.filter (fun s => negb (isComment s)) segs) ++ tail.
Proof.
  intros Hwf Hend. unfold removeJPEGComments.
  pose proof (len_nonneg (encodeSegments segs)). destruct Hend as [Htl Hend].
  destruct (len ([s0; s1] ++ encodeSegments segs ++ tail) <? 4) eqn:E;
    [rewrite !len_app, !len_cons, len_nil in E; lia|].
  rewrite (slice_to_app [s0; s1]) by reflexivity.
  change 2 with (len [s0; s1]) at 1.
  apply removeJPEGComments_loop_segments; [exact Hwf | split; assumption |].
  apply fuel_enough.
Qed.

Lemma extractJPEGComment_segments (s0 s1 : byte) (segs : list Segment) (tail : list byte) :
  Forall Segment_wf segs -> ends_walk tail ->
  extractJPEGComment ([s0; s1] ++ encodeSegments segs ++ tail) = firstComment segs.
Proof.
  intros Hwf Hend. unfold extractJPEGComment.
  pose proof (len_nonneg (encodeSegments segs)). destruct Hend as [Htl Hend].
  destruct (len ([s0; s1] ++ encodeSegments segs ++ tail) <? 4) eqn:E;
    [rewrite !len_app, !len_cons, len_nil in E; lia|].
  change 2 with (len [s0; s1]).
  apply extractJPEGComment_loop_segments; [exact Hwf | split; assumption |].
  apply fuel_enough.
Qed.

(** X12. On a JPEG buffer made of two leading bytes, whole APPn and
    comment segments, and a rest of more than four bytes that starts
    with another marker or with no marker, [removeJPEGComments] returns
    the leading bytes, the APPn segments in their order, and the rest:
    exactly the comment segments are gone. *)
Theorem comment_segments_removed (s0 s1 : byte) (segs : list Segment) (tail : list byte) :
  Forall Segment_wf segs -> ends_walk tail ->
  removeJPEGComments ([s0; s1] ++ encodeSegments segs ++ tail)
  = [s0; s1] ++ encodeSegments (List.filter (fun s => negb (isComment s)) segs) ++ tail /\
  Forall (fun s => isComment s = false) (List.filter (fun s => negb (isComment s)) segs).
Proof.
  intros Hwf Hend. split; [apply removeJPEGComments_segments; assumption|].
  clear. induction segs as [|s segs IH]; [constructor|].
  cbn [List.filter]. destruct (isComment s) eqn:E; cbn [negb]; [exact IH|].
  constructor; assumption.
Qed.

(** X13. On such a buffer [extractJPEGComment] returns the payload of
    the first comment segment, looking past the APPn segments in front
    of it; it returns nothing when that payload is empty, even if a
    later comment segment has one, and nothing when there is no comment
    segment. *)
Theorem first_comment_extracted (s0 s1 : byte) (segs : list Segment) (tail : list byte) :
  Forall Segment_wf segs -> ends_walk tail ->
  extractJPEGComment ([s0; s1] ++ encodeSegments segs ++ tail) = firstComment segs.
Proof. apply extractJPEGComment_segments. Qed.

(** X14. The comment that [insertJPEGComment] puts into a buffer of at
    least four bytes is the one [extractJPEGComment] returns, whatever
    comment segments the buffer already has; an empty comment is
    inserted as a segment and read back as no comment. *)
Theorem inserted_comment_extracted (data comment : list byte) :
  4 <= len data -> len comment <= 65533 ->
  extractJPEGComment (insertJPEGComment data comment)
  = if len comment =? 0 then None else Some comment.
Proof.
  intros Hd Hc. pose proof (len_nonneg comment) as Hn.
  destruct (len comment =? 0) eqn:E0.
  - apply Z.eqb_eq in E0.
    assert (comment = []) as ->
      by (destruct comment as [|b l]; [reflexivity | rewrite len_cons in E0; pose proof (len_nonneg l); lia]).
    rewrite insertJPEGComment_long by exact Hd.
    destruct data as [|c0 [|c1 rest]];
      [rewrite len_nil in Hd; lia | rewrite len_cons, len_nil in Hd; lia |].
    change (slice_to (c0 :: c1 :: rest) 2) with [c0; c1].
    change (slice_from (c0 :: c1 :: rest) 2) with rest.
    change (commentSegment []) with [xff; xfe; x00; x02].
    cbn [app].
    set (buf := c0 :: c1 :: xff :: xfe :: x00 :: x02 :: rest).
    assert (Hlen : len buf = 6 + len rest) by (unfold buf; rewrite !len_cons; lia).
    pose proof (len_nonneg rest).
    unfold extractJPEGComment.
    destruct (len buf <? 4) eqn:E; [lia|].
    change (length buf) with (S (length (c1 :: xff :: xfe :: x00 :: x02 :: rest))).
    cbn [extractJPEGComment_loop].
    destruct (2 <? len buf - 4) eqn:E1; [|reflexivity].
    change (at_ buf 2) with xff. change (at_ buf (2 + 1)) with xfe.
    change (negb (u8 xff =? 255)) with false. change (u8 xfe =? 254) with true.
    cbv iota.
    destruct (2 + 2 + 2 >? len buf) eqn:E2; [reflexivity|].
    change (segmentLen_at buf (2 + 2)) with 2.
    change (2 - 2 >? 0) with false. rewrite andb_false_r. reflexivity.
  - apply Z.eqb_neq in E0. apply extractJPEGComment_insert; [exact Hd | lia].
Qed.

Lemma inserted_comment_extracted_witness :
  extractJPEGComment (insertJPEGComment sampleJPEG (lit "new")) = Some (lit "new").
Proof.
  apply (inserted_comment_extracted sampleJPEG (lit "new")); vm_compute; discriminate.
Defined.

Lemma sampleSegments_wf : Forall Segment_wf sampleSegments.
Proof. repeat (constructor; [split; vm_compute; [reflexivity | discriminate]|]). constructor. Qed.

Lemma sampleTail_ends_walk : ends_walk sampleTail.
Proof. split; vm_compute; reflexivity. Qed.

Lemma comment_segments_removed_witness :
  removeJPEGComments ([xff; xd8] ++ encodeSegments sampleSegments ++ sampleTail)
  = [xff; xd8] ++ encodeSegments [mkSegment xe0 [x4a; x46]; mkSegment xe1 [x45]]
      ++ sampleTail.
Proof.
  exact (proj1 (comment_segments_removed xff xd8 sampleSegments sampleTail
                  sampleSegments_wf sampleTail_ends_walk)).
Defined.

Lemma first_comment_extracted_witness :
  extractJPEGComment ([xff; xd8] ++ encodeSegments sampleSegments ++ sampleTail) = None.
Proof.
  exact (first_comment_extracted xff xd8 sampleSegments sampleTail
           sampleSegments_wf sampleTail_ends_walk).
Defined.

(** * Further properties of the metadata mode *)

Lemma insertPNGTextChunks_none (data : list byte) : insertPNGTextChunks data [] = data.
Proof.
  unfold insertPNGTextChunks, slice_to, slice_from. cbn [concat app].
  apply take_drop.
Qed.

Section Containers.

Variable sha1_Sum : list byte -> list byte.
Variable json_Marshal : ImageMetadata -> option (list byte).
Variable json_Unmarshal : list byte -> option ImageMetadata.
Variable jpeg_Decode : list byte -> option image.Image.
Variable jpeg_Encode : image.Image -> Z -> option (list byte).

(** X15. A file named .png whose content does not start with the PNG
    signature: the metadata mode and [imagesha1.ModifyImageSHA1] fail
    with the invalid-PNG error as the cause, [GetImageMetadata] fails
    with the invalid-PNG error, and nothing is drawn or written. *)
Theorem invalid_png_refused (imagePath : string) (data : list byte)
    (metadata : ImageMetadata) (w : World) :
  files w !! imagePath = Some data ->
  formatOf (ToLower (Ext imagePath)) = Some PNG ->
  lacks_png_signature data = true ->
  ModifyImageMetadata sha1_Sum json_Marshal imagePath metadata w
    = (w, Err (ErrModify ErrInvalidPNG)) /\
  ImageSHA1Modifier_ModifyImageSHA1 sha1_Sum jpeg_Decode jpeg_Encode imagePath w
    = (w, Err (ErrModify ErrInvalidPNG)) /\
  GetImageMetadata json_Unmarshal imagePath w = (w, Err ErrInvalidPNG).
Proof.
  intros Hf Hx Hs. split; [|split].
  - unfold ModifyImageMetadata, bind, os_Stat_exists, os_ReadFile.
    rewrite Hf. cbv beta iota. rewrite Hf.
    unfold metadataSwitch. rewrite Hx. unfold modifyPNGMetadata. rewrite Hs. reflexivity.
  - unfold ImageSHA1Modifier_ModifyImageSHA1, bind, os_Stat_exists, os_ReadFile.
    rewrite Hf. cbv beta iota. rewrite Hf.
    unfold sha1Switch. rewrite Hx. unfold modifyPNGSHA1. rewrite Hs. reflexivity.
  - unfold GetImageMetadata, bind, os_Stat_exists. rewrite Hf, Hx.
    unfold getPNGMetadata, bind, os_ReadFile. rewrite Hf, Hs. reflexivity.
Qed.

(** X16. The metadata mode with a record that has no field set, on a
    PNG made of whole chunks none of which is textual, produces the
    input bytes again: the call fails with the no-change error and
    writes nothing. *)
Theorem empty_metadata_no_change (imagePath : string) (cs : list Chunk)
    (metadata : ImageMetadata) (w : World) :
  files w !! imagePath = Some (pngSignature ++ encodeChunks cs) ->
  formatOf (ToLower (Ext imagePath)) = Some PNG ->
  Forall Chunk_wf cs ->
  Forall (fun c => isText c = false) cs ->
  createPNGTextChunks metadata = [] ->
  modifyPNGMetadata (pngSignature ++ encodeChunks cs) metadata
    = Ok (pngSignature ++ encodeChunks cs) /\
  ModifyImageMetadata sha1_Sum json_Marshal imagePath metadata w = (w, Err ErrNoChange).
Proof.
  intros Hf Hx Hwf Hnt Hnone.
  assert (Hm : modifyPNGMetadata (pngSignature ++ encodeChunks cs) metadata
               = Ok (pngSignature ++ encodeChunks cs)).
  { unfold modifyPNGMetadata. rewrite lacks_png_signature_chunks, Hnone.
    rewrite insertPNGTextChunks_none, removeExistingTextChunks_chunks by exact Hwf.
    rewrite filter_nontext_id by exact Hnt. reflexivity. }
  split; [exact Hm|].
  unfold ModifyImageMetadata, bind, os_Stat_exists, os_ReadFile.
  rewrite Hf. cbv beta iota. rewrite Hf.
  unfold metadataSwitch. rewrite Hx, Hm. unfold lift, wrap.
  apply verifyAndWrite_same. reflexivity.
Qed.

Lemma modifyJPEGMetadata_segments (s0 s1 : byte) (segs : list Segment) (tail comment : list byte)
    (metadata : ImageMetadata) :
  Forall Segment_wf segs -> ends_walk tail ->
  json_Marshal metadata = Some comment ->
  modifyJPEGMetadata json_Marshal ([s0; s1] ++ encodeSegments segs ++ tail) metadata
  = Ok ([s0; s1]
          ++ encodeSegments (mkSegment xfe comment
                               :: List.filter (fun s => negb (isComment s)) segs)
          ++ tail).
Proof.
  intros Hwf Hend Hj. unfold modifyJPEGMetadata.
  rewrite removeJPEGComments_segments, Hj by assumption.
  rewrite insertJPEGComment_long.
  - rewrite (slice_to_app [s0; s1]), (slice_from_app [s0; s1]) by reflexivity.
    rewrite encodeSegments_cons, <- !app_assoc. reflexivity.
  - destruct Hend as [Htl _].
    rewrite !len_app, !len_cons, len_nil.
    pose proof (len_nonneg
                  (encodeSegments (List.filter (fun s => negb (isComment s)) segs))).
    lia.
Qed.

(** X17. On a JPEG buffer made of two leading bytes, whole APPn and
    comment segments and a rest that ends the walk, the metadata mode
    returns the leading bytes, one comment segment that holds the
    serialized record, the APPn segments in their order, and the rest;
    a record that cannot be serialized gives the serialization error. *)
Theorem jpeg_metadata_rewritten (s0 s1 : byte) (segs : list Segment) (tail : list byte)
    (metadata : ImageMetadata) :
  Forall Segment_wf segs -> ends_walk tail ->
  modifyJPEGMetadata json_Marshal ([s0; s1] ++ encodeSegments segs ++ tail) metadata
  = match json_Marshal metadata with
    | Some comment =>
        Ok ([s0; s1] ++ commentSegment comment
              ++ encodeSegments (List.filter (fun s => negb (isComment s)) segs) ++ tail)
    | None => Err ErrSerialize
    end.
Proof.
  intros Hwf Hend. destruct (json_Marshal metadata) as [comment|] eqn:Hj.
  - rewrite (modifyJPEGMetadata_segments s0 s1 segs tail comment) by assumption.
    rewrite encodeSegments_cons, <- !app_assoc. reflexivity.
  - unfold modifyJPEGMetadata. rewrite Hj. reflexivity.
Qed.

(** X18. On such a buffer the metadata mode replaces and never
    accumulates: when the first record serializes to at most 65533
    bytes, rewriting the output of the first rewrite gives what
    rewriting the input gives. *)
Theorem jpeg_metadata_replaced (s0 s1 : byte) (segs : list Segment) (tail comment : list byte)
    (first second : ImageMetadata) (out : list byte) :
  Forall Segment_wf segs -> ends_walk tail ->
  json_Marshal first = Some comment -> len comment <= 65533 ->
  modifyJPEGMetadata json_Marshal ([s0; s1] ++ encodeSegments segs ++ tail) first = Ok out ->
  modifyJPEGMetadata json_Marshal out second
  = modifyJPEGMetadata json_Marshal ([s0; s1] ++ encodeSegments segs ++ tail) second.
Proof.
  intros Hwf Hend Hj Hfit Hout.
  rewrite (modifyJPEGMetadata_segments s0 s1 segs tail comment) in Hout by assumption.
  assert (Eout : out = [s0; s1]
            ++ encodeSegments (mkSegment xfe comment
                                 :: List.filter (fun s => negb (isComment s)) segs)
            ++ tail) by congruence.
  clear Hout. subst out.
  unfold modifyJPEGMetadata.
  rewrite !removeJPEGComments_segments;
    [| exact Hwf | exact Hend
     | constructor; [split; [reflexivity | exact Hfit] | apply Forall_filter_segments; exact Hwf]
     | exact Hend].
  cbn [List.filter]. change (negb (isComment (mkSegment xfe comment))) with false.
  cbv iota. rewrite filter_noncomment_idem. reflexivity.
Qed.

(** X19. [GetImageMetadata] on an existing JPEG file never fails: a
    file without a readable comment segment, and one whose comment is
    not a serialized record, give the empty record. *)
Theorem jpeg_read_never_fails (imagePath : string) (data : list byte) (w : World) :
  files w !! imagePath = Some data ->
  formatOf (ToLower (Ext imagePath)) = Some JPEG ->
  GetImageMetadata json_Unmarshal imagePath w
  = (w, Ok (default emptyMetadata (extractJPEGComment data ≫= json_Unmarshal))).
Proof.
  intros Hf Hx.
  unfold GetImageMetadata, bind, os_Stat_exists. rewrite Hf, Hx.
  unfold getJPEGMetadata, bind, os_ReadFile. rewrite Hf.
  destruct (extractJPEGComment data) as [c|]; [|reflexivity].
  cbn [mbind option_bind]. destruct (json_Unmarshal c); reflexivity.
Qed.

End Containers.

Lemma invalid_png_refused_witness :
  ModifyImageMetadata SHA1.Sum sampleMarshal "x.png" sampleMetadata sampleWorld
    = (sampleWorld, Err (ErrModify ErrInvalidPNG)) /\
  GetImageMetadata sampleUnmarshal "x.png" sampleWorld = (sampleWorld, Err ErrInvalidPNG).
Proof.
  destruct (invalid_png_refused SHA1.Sum sampleMarshal sampleUnmarshal noDecode noEncodeQ
              "x.png" (lit "hello") sampleMetadata sampleWorld) as (H1 & _ & H3).
  - reflexivity.
  - reflexivity.
  - reflexivity.
  - split; [exact H1 | exact H3].
Defined.

Lemma empty_metadata_no_change_witness :
  ModifyImageMetadata SHA1.Sum sampleMarshal "b.png" emptyMetadata sampleWorld2
  = (sampleWorld2, Err ErrNoChange).
Proof.
  apply (empty_metadata_no_change SHA1.Sum sampleMarshal "b.png"
           [mkChunk (lit "IEND") [] [xae; x42; x60; x82]] emptyMetadata sampleWorld2).
  - reflexivity.
  - reflexivity.
  - constructor; [repeat split; vm_compute; reflexivity | constructor].
  - constructor; [reflexivity | constructor].
  - reflexivity.
Defined.

Lemma jpeg_metadata_rewritten_witness :
  exists comment,
    sampleMarshal sampleMetadata = Some comment /\
    modifyJPEGMetadata sampleMarshal
      ([xff; xd8] ++ encodeSegments sampleSegments ++ sampleTail) sampleMetadata
    = Ok ([xff; xd8] ++ commentSegment comment
            ++ encodeSegments [mkSegment xe0 [x4a; x46]; mkSegment xe1 [x45]] ++ sampleTail).
Proof.
  pose proof (jpeg_metadata_rewritten sampleMarshal xff xd8 sampleSegments sampleTail
                sampleMetadata sampleSegments_wf sampleTail_ends_walk) as H.
  destruct (sampleMarshal sampleMetadata) as [comment|] eqn:E;
    [|vm_compute in E; discriminate E].
  exists comment. split; [reflexivity | exact H].
Defined.

Lemma jpeg_metadata_replaced_witness :
  exists out,
    modifyJPEGMetadata sampleMarshal
      ([xff; xd8] ++ encodeSegments sampleSegments ++ sampleTail) sampleMetadata = Ok out /\
    modifyJPEGMetadata sampleMarshal out emptyMetadata
    = modifyJPEGMetadata sampleMarshal
        ([xff; xd8] ++ encodeSegments sampleSegments ++ sampleTail) emptyMetadata.
Proof.
  destruct (sampleMarshal sampleMetadata) as [comment|] eqn:E;
    [|vm_compute in E; discriminate E].
  pose proof (modifyJPEGMetadata_segments sampleMarshal xff xd8 sampleSegments sampleTail
                comment sampleMetadata sampleSegments_wf sampleTail_ends_walk E) as H.
  eexists. split; [exact H|].
  apply (jpeg_metadata_replaced sampleMarshal xff xd8 sampleSegments sampleTail comment
           sampleMetadata emptyMetadata _ sampleSegments_wf sampleTail_ends_walk E);
    [|exact H].
  vm_compute in E. injection E as <-. vm_compute. discriminate.
Defined.

Lemma jpeg_read_never_fails_witness :
  GetImageMetadata sampleUnmarshal "d.jpg" sampleWorld2 = (sampleWorld2, Ok emptyMetadata).
Proof.
  exact (jpeg_read_never_fails sampleUnmarshal "d.jpg" sampleJPEG sampleWorld2
           eq_refl eq_refl).
Defined.

(** * Further properties of the pixel mode *)

(** X20. On a raster at least two pixels wide and two pixels high
    [getEdgePixels] lists every pixel of the outermost rows and columns
    once and nothing else: 2 * width + 2 * height - 4 coordinates. *)
Theorem border_enumeration (width height : Z) :
  2 <= width -> 2 <= height ->
  NoDup (getEdgePixels width height) /\
  len (getEdgePixels width height) = 2 * width + 2 * height - 4 /\
  forall p, In p (getEdgePixels width height) <->
    0 <= X p < width /\ 0 <= Y p < height /\
    (X p = 0 \/ X p = width - 1 \/ Y p = 0 \/ Y p = height - 1).
Proof.
  intros Hw Hh. split; [apply getEdgePixels_NoDup; assumption|]. split.
  - rewrite getEdgePixels_len by lia. lia.
  - intros p. rewrite in_getEdgePixels. lia.
Qed.

Lemma border_enumeration_witness :
  NoDup (getEdgePixels 4 3) /\ len (getEdgePixels 4 3) = 10.
Proof.
  destruct (border_enumeration 4 3) as (H1 & H2 & _); [lia | lia |].
  split; [exact H1 | exact H2].
Defined.

Lemma getEdgePixels_empty (width height : Z) :
  len (getEdgePixels width height) = 0 <-> width <= 0 /\ height <= 2.
Proof.
  unfold getEdgePixels, len.
  rewrite length_app, !length_pairs, !length_seqZ. lia.
Qed.

Lemma RGBAAt_SetRGBA_back (m : image.RGBA) (x y x' y' : Z) :
  image.RGBAAt (image.SetRGBA m x y (image.RGBAAt m x y)) x' y' = image.RGBAAt m x' y'.
Proof.
  destruct (decide ((x', y') = (x, y))) as [E|E].
  - inversion E; subst.
    destruct (image.In x y (image.Rect m)) eqn:Hin.
    + apply RGBAAt_SetRGBA_same. exact Hin.
    + unfold image.SetRGBA. rewrite Hin. reflexivity.
  - apply RGBAAt_SetRGBA_other. exact E.
Qed.

Section Copy.

Variable img : image.Image.

Local Abbreviation setRow := (copyRow img).
Local Abbreviation setRows := (copyRows img).

Lemma Rect_setRow (y : Z) (xs : list Z) (m : image.RGBA) :
  image.Rect (setRow y xs m) = image.Rect m.
Proof.
  revert m. induction xs as [|x xs IH]; intros m; [reflexivity|].
  unfold copyRow in *. cbn [fold_left]. rewrite IH. apply Rect_SetRGBA.
Qed.

Lemma setRow_miss (y : Z) (xs : list Z) (m : image.RGBA) (x' y' : Z) :
  y' <> y \/ x' ∉ xs ->
  image.RGBAAt (setRow y xs m) x' y' = image.RGBAAt m x' y'.
Proof.
  revert m. induction xs as [|x xs IH]; intros m H; [reflexivity|].
  unfold copyRow in *. cbn [fold_left]. rewrite IH.
  - apply RGBAAt_SetRGBA_other. intros E. inversion E; subst.
    destruct H as [H|H]; [congruence|]. apply H. left.
  - destruct H as [H|H]; [left; exact H|]. right. intros Hin. apply H. right. exact Hin.
Qed.

Lemma setRow_hit (y : Z) (xs : list Z) (m : image.RGBA) (x' : Z) :
  x' ∈ xs -> image.In x' y (image.Rect m) = true ->
  image.RGBAAt (setRow y xs m) x' y = image.At img x' y.
Proof.
  revert m. induction xs as [|x xs IH]; intros m Hin Hb; [inversion Hin|].
  unfold copyRow in *. cbn [fold_left].
  destruct (decide (x' ∈ xs)) as [Hxs|Hxs].
  - apply IH; [exact Hxs|]. rewrite Rect_SetRGBA. exact Hb.
  - apply elem_of_cons in Hin. destruct Hin as [->|Hin]; [|contradiction].
    fold (copyRow img y xs (image.SetRGBA m x y (image.At img x y))).
    rewrite setRow_miss by (right; exact Hxs).
    apply RGBAAt_SetRGBA_same. exact Hb.
Qed.

Lemma Rect_setRows (xs ys : list Z) (m : image.RGBA) :
  image.Rect (setRows xs ys m) = image.Rect m.
Proof.
  revert m. induction ys as [|y ys IH]; intros m; [reflexivity|].
  unfold copyRows in *. cbn [fold_left]. rewrite IH. apply Rect_setRow.
Qed.

Lemma setRows_miss (xs ys : list Z) (m : image.RGBA) (x' y' : Z) :
  y' ∉ ys -> image.RGBAAt (setRows xs ys m) x' y' = image.RGBAAt m x' y'.
Proof.
  revert m. induction ys as [|y ys IH]; intros m H; [reflexivity|].
  unfold copyRows in *. cbn [fold_left]. rewrite IH.
  - apply setRow_miss. left. intros ->. apply H. left.
  - intros Hin. apply H. right. exact Hin.
Qed.

Lemma setRows_hit (xs ys : list Z) (m : image.RGBA) (x' y' : Z) :
  x' ∈ xs -> y' ∈ ys -> image.In x' y' (image.Rect m) = true ->
  image.RGBAAt (setRows xs ys m) x' y' = image.At img x' y'.
Proof.
  intros Hx. revert m. induction ys as [|y ys IH]; intros m Hin Hb; [inversion Hin|].
  unfold copyRows in *. cbn [fold_left].
  destruct (decide (y' ∈ ys)) as [Hys|Hys].
  - apply IH; [exact Hys|]. rewrite Rect_setRow. exact Hb.
  - apply elem_of_cons in Hin. destruct Hin as [->|Hin]; [|contradiction].
    fold (copyRows img xs ys (copyRow img y xs m)).
    rewrite setRows_miss by exact Hys.
    apply setRow_hit; assumption.
Qed.

Lemma copyToRGBA_At (x y : Z) :
  image.RGBAAt (copyToRGBA img) x y
  = if image.In x y (image.Bounds img) then image.At img x y else color.zero.
Proof.
  destruct (image.In x y (image.Bounds img)) eqn:Hin.
  - change (copyToRGBA img)
      with (setRows (seqZ (image.MinX (image.Bounds img)) (image.Dx (image.Bounds img)))
              (seqZ (image.MinY (image.Bounds img)) (image.Dy (image.Bounds img)))
              (image.NewRGBA (image.Bounds img))).
    unfold image.In in Hin.
    apply andb_true_iff in Hin. destruct Hin as [Hin H4].
    apply andb_true_iff in Hin. destruct Hin as [Hin H3].
    apply andb_true_iff in Hin. destruct Hin as [H1 H2].
    apply setRows_hit.
    + apply elem_of_seqZ. unfold image.Dx. lia.
    + apply elem_of_seqZ. unfold image.Dy. lia.
    + cbn [image.NewRGBA image.Rect]. unfold image.In.
      rewrite H1, H2, H3, H4. reflexivity.
  - unfold image.RGBAAt. rewrite Rect_copyToRGBA, Hin. reflexivity.
Qed.

End Copy.

(** X21. The editable copy that the pixel mode builds has the bounds
    of the decoded image and, at every pixel inside them, the colour
    the decoded image has there; outside it reads as zero. *)
Theorem copy_preserves_pixels (img : image.Image) (x y : Z) :
  image.Rect (copyToRGBA img) = image.Bounds img /\
  image.RGBAAt (copyToRGBA img) x y
  = if image.In x y (image.Bounds img) then image.At img x y else color.zero.
Proof. split; [apply Rect_copyToRGBA | apply copyToRGBA_At]. Qed.

Lemma channel_shift (c : byte) (d : Z) :
  -2 <= d <= 2 -> -2 <= u8 (byte_of (clampUint8 (u8 c + d))) - u8 c <= 2.
Proof.
  intros Hd. pose proof (u8_range c). rewrite clampUint8_spec.
  rewrite u8_byte_of_small by lia. lia.
Qed.

(** X22. The raster that the pixel mode hands to the encoder, for an
    image whose bounds start at (0, 0) with at least one row and one
    column: the selected pixel lies inside the bounds; there each of
    red, green and blue differs from the decoded image by at most 2 and
    alpha is the same; every other pixel inside the bounds has the
    colour of the decoded image. *)
Theorem one_pixel_changed (img : image.Image) (width height : Z) (randomBytes : list byte) :
  image.Bounds img = image.mkRect 0 0 width height ->
  1 <= width -> 1 <= height ->
  let edgePixels := getEdgePixels (image.Dx (image.Bounds img)) (image.Dy (image.Bounds img)) in
  let p := selectedPixel edgePixels randomBytes in
  let out := adjustPixel (copyToRGBA img) edgePixels randomBytes in
  let c := image.At img (X p) (Y p) in
  let c' := image.RGBAAt out (X p) (Y p) in
  image.Rect out = image.Bounds img /\
  image.In (X p) (Y p) (image.Bounds img) = true /\
  -2 <= u8 (color.R c') - u8 (color.R c) <= 2 /\
  -2 <= u8 (color.G c') - u8 (color.G c) <= 2 /\
  -2 <= u8 (color.B c') - u8 (color.B c) <= 2 /\
  color.A c' = color.A c /\
  forall x y, (x, y) <> (X p, Y p) -> image.In x y (image.Bounds img) = true ->
    image.RGBAAt out x y = image.At img x y.
Proof.
  intros Hb Hw Hh edgePixels p out c c'.
  assert (Hp : image.In (X p) (Y p) (image.Bounds img) = true).
  { rewrite Hb. unfold p, edgePixels. rewrite Hb.
    change (image.Dx (image.mkRect 0 0 width height)) with (width - 0).
    change (image.Dy (image.mkRect 0 0 width height)) with (height - 0).
    rewrite !Z.sub_0_r. apply selectedPixel_in_raster; assumption. }
  pose proof (adjustment_range randomBytes) as Hd.
  assert (Hc : image.RGBAAt (copyToRGBA img) (X p) (Y p) = c).
  { rewrite copyToRGBA_At, Hp. reflexivity. }
  assert (Hc' : c' = color.mkRGBA
                  (byte_of (clampUint8 (u8 (color.R c) + adjustment randomBytes)))
                  (byte_of (clampUint8 (u8 (color.G c) + adjustment randomBytes)))
                  (byte_of (clampUint8 (u8 (color.B c) + adjustment randomBytes)))
                  (color.A c)).
  { unfold c', out, adjustPixel. fold (selectedPixel edgePixels randomBytes). fold p.
    rewrite Hc. apply RGBAAt_SetRGBA_same. rewrite Rect_copyToRGBA. exact Hp. }
  split; [|split; [exact Hp|]].
  - unfold out, adjustPixel. rewrite Rect_SetRGBA. apply Rect_copyToRGBA.
  - rewrite Hc'. cbn [color.R color.G color.B color.A].
    split; [apply channel_shift; exact Hd|].
    split; [apply channel_shift; exact Hd|].
    split; [apply channel_shift; exact Hd|].
    split; [reflexivity|].
    intros x y Hne Hin. unfold out, adjustPixel.
    fold (selectedPixel edgePixels randomBytes). fold p.
    rewrite RGBAAt_SetRGBA_other by exact Hne.
    rewrite copyToRGBA_At, Hin. reflexivity.
Qed.

Lemma one_pixel_changed_witness :
  let img := image.mkImage (image.mkRect 0 0 2 2) (fun _ _ => color.mkRGBA xff x01 x80 x40) in
  let out := adjustPixel (copyToRGBA img) (getEdgePixels 2 2) [x03; x04; x00; x00] in
  image.Rect out = image.mkRect 0 0 2 2 /\
  color.A (image.RGBAAt out 1 1) = x40.
Proof.
  intros img out.
  destruct (one_pixel_changed img 2 2 [x03; x04; x00; x00])
    as (H1 & _ & _ & _ & _ & H6 & _); [reflexivity | lia | lia |].
  split; [exact H1 | exact H6].
Defined.

(** X23. A draw whose second byte is 2, 7, 12, ... gives the delta 0:
    [adjustPixel] then leaves every pixel as it was, and so it does
    when the selected coordinate lies outside the bounds of the raster. *)
Theorem zero_delta (newImg : image.RGBA) (edgePixels : list PixelCoord)
    (randomBytes : list byte) :
  let p := selectedPixel edgePixels randomBytes in
  adjustment randomBytes = 0 \/ image.In (X p) (Y p) (image.Rect newImg) = false ->
  forall x y,
    image.RGBAAt (adjustPixel newImg edgePixels randomBytes) x y = image.RGBAAt newImg x y.
Proof.
  intros p H x y. unfold adjustPixel. fold (selectedPixel edgePixels randomBytes). fold p.
  destruct H as [H|H].
  - rewrite H, !Z.add_0_r.
    assert (Hk : forall b, byte_of (clampUint8 (u8 b)) = b).
    { intros b. pose proof (u8_range b). rewrite clampUint8_spec.
      replace (Z.max 0 (Z.min 255 (u8 b))) with (u8 b) by lia. apply byte_of_u8. }
    rewrite !Hk.
    destruct (image.RGBAAt newImg (X p) (Y p)) as [r g b a] eqn:E.
    cbn [color.R color.G color.B color.A]. rewrite <- E.
    apply RGBAAt_SetRGBA_back.
  - unfold image.SetRGBA. rewrite H. reflexivity.
Qed.

Lemma zero_delta_witness :
  image.RGBAAt (adjustPixel sampleRaster (getEdgePixels 2 2) [x03; x02; x00; x00]) 1 1
  = image.RGBAAt sampleRaster 1 1.
Proof.
  apply (zero_delta sampleRaster (getEdgePixels 2 2) [x03; x02; x00; x00]).
  left. reflexivity.
Defined.

Section PixelErrors.

Variable png_Decode : list byte -> option image.Image.
Variable jpeg_Decode : list byte -> option image.Image.
Variable png_Encode : image.Image -> option (list byte).
Variable jpeg_Encode : image.Image -> Z -> option (list byte).

(** X24. How the pixel mode fails: with the decoding error when the
    decoder of the format refuses the bytes; with the no-edge-pixel
    error exactly when the decoded image has no column and at most two
    rows; otherwise only with the encoding error.  The first two
    failures draw no random byte. *)
Theorem pixel_mode_errors (ext data : list byte) (format : Format_) (w : World) :
  formatOf ext = Some format ->
  let decode := match format with JPEG => jpeg_Decode | PNG => png_Decode end in
  let run := pixelSwitch png_Decode jpeg_Decode png_Encode jpeg_Encode ext data in
  match decode data with
  | None => run w = (w, Err (ErrModify ErrDecode))
  | Some img =>
      (run w = (w, Err (ErrModify ErrNoEdgePixels)) <->
       image.Dx (image.Bounds img) <= 0 /\ image.Dy (image.Bounds img) <= 2) /\
      forall w' e, run w = (w', Err e) ->
        e = ErrModify ErrNoEdgePixels \/ e = ErrModify ErrEncode
  end.
Proof.
  intros Hx decode run. unfold run, pixelSwitch. rewrite Hx.
  destruct format; unfold decode, modifyJPEGPixel, modifyPNGPixel, bind, lift.
  - destruct (jpeg_Decode data) as [img|]; [|reflexivity]. cbn [of_option].
    pose proof (getEdgePixels_empty (image.Dx (image.Bounds img))
                  (image.Dy (image.Bounds img))) as He.
    destruct (len (getEdgePixels (image.Dx (image.Bounds img))
                     (image.Dy (image.Bounds img))) =? 0) eqn:E.
    + apply Z.eqb_eq in E. split; [split; [intros _; tauto | reflexivity]|].
      unfold fail. cbn [wrap]. intros w' e H. inversion H. left. reflexivity.
    + apply Z.eqb_neq in E. unfold generateRandomBytes.
      match goal with |- context [of_option ErrEncode ?o] => destruct o end;
        cbn [of_option wrap].
      * split; [split; [intros H; inversion H | tauto]|]. intros w' e H. inversion H.
      * split; [split; [intros H; inversion H | tauto]|]. intros w' e H. inversion H.
        right. reflexivity.
  - destruct (png_Decode data) as [img|]; [|reflexivity]. cbn [of_option].
    pose proof (getEdgePixels_empty (image.Dx (image.Bounds img))
                  (image.Dy (image.Bounds img))) as He.
    destruct (len (getEdgePixels (image.Dx (image.Bounds img))
                     (image.Dy (image.Bounds img))) =? 0) eqn:E.
    + apply Z.eqb_eq in E. split; [split; [intros _; tauto | reflexivity]|].
      unfold fail. cbn [wrap]. intros w' e H. inversion H. left. reflexivity.
    + apply Z.eqb_neq in E. unfold generateRandomBytes.
      match goal with |- context [of_option ErrEncode ?o] => destruct o end;
        cbn [of_option wrap].
      * split; [split; [intros H; inversion H | tauto]|]. intros w' e H. inversion H.
      * split; [split; [intros H; inversion H | tauto]|]. intros w' e H. inversion H.
        right. reflexivity.
Qed.

End PixelErrors.

Lemma pixel_mode_errors_witness :
  pixelSwitch noDecode noDecode noEncode noEncodeQ (lit ".png") (pngSignature ++ iendChunk)
    sampleWorld2
  = (sampleWorld2, Err (ErrModify ErrDecode)).
Proof.
  exact (pixel_mode_errors noDecode noDecode noEncode noEncodeQ (lit ".png")
           (pngSignature ++ iendChunk) PNG sampleWorld2 eq_refl).
Defined.

(** * Further properties of the random mode and of the reader *)

Lemma split_nul_none (data : list byte) : x00 ∉ data -> split_nul data = None.
Proof.
  induction data as [|b r IH]; intros H; [reflexivity|].
  cbn [split_nul]. rewrite bool_decide_eq_false_2.
  - rewrite IH; [reflexivity|]. intros Hin. apply H. right. exact Hin.
  - intros ->. apply H. left.
Qed.

(** X25. A tEXt payload without a zero byte has no keyword:
    [parsePNGTextChunk] leaves the record as it is. *)
Theorem text_without_separator (data : list byte) (metadata : ImageMetadata) :
  x00 ∉ data -> parsePNGTextChunk data metadata = metadata.
Proof.
  intros H. unfold parsePNGTextChunk. rewrite split_nul_none by exact H. reflexivity.
Qed.

Lemma text_without_separator_witness :
  parsePNGTextChunk (lit "Author Ann") sampleMetadata = sampleMetadata.
Proof.
  apply (text_without_separator (lit "Author Ann") sampleMetadata).
  intros H. repeat (apply elem_of_cons in H; destruct H as [H|H]; [discriminate H|]).
  inversion H.
Defined.

Lemma parse_Random (text : list byte) (m : ImageMetadata) :
  parsePNGTextChunk (payload (lit "Random", text)) m = m.
Proof. reflexivity. Qed.

Lemma insertPNGTextChunk_one (data keyword text : list byte) :
  insertPNGTextChunk data keyword text
  = insertPNGTextChunks data [createPNGTextChunk keyword text].
Proof.
  unfold insertPNGTextChunk, insertPNGTextChunks, createPNGTextChunk.
  cbn [concat]. rewrite app_nil_r. reflexivity.
Qed.

Lemma scanChunks_cons (c : Chunk) (r : list Chunk) (m : ImageMetadata) :
  scanChunks (c :: r) m
  = if isIEND c
    then (if bytes_Equal (chunkType c) (lit "tEXt")
          then parsePNGTextChunk (chunkData c) m else m)
    else scanChunks r (if bytes_Equal (chunkType c) (lit "tEXt")
                       then parsePNGTextChunk (chunkData c) m else m).
Proof. reflexivity. Qed.

(** A chunk that the reader passes over, put in front of the first
    IEND chunk, changes nothing of what is read. *)
Lemma scanChunks_unread (c : Chunk) (cs : list Chunk) :
  isIEND c = false ->
  (forall m, (if bytes_Equal (chunkType c) (lit "tEXt")
              then parsePNGTextChunk (chunkData c) m else m) = m) ->
  forall m, scanChunks (beforeIEND cs ++ c :: fromIEND cs) m = scanChunks cs m.
Proof.
  intros Hi Hc. induction cs as [|x cs IH]; intros m.
  - cbn [beforeIEND fromIEND app]. rewrite scanChunks_cons, Hi, Hc. reflexivity.
  - cbn [beforeIEND fromIEND]. destruct (isIEND x) eqn:Ex; cbn [app].
    + rewrite (scanChunks_cons c), Hi, Hc. reflexivity.
    + rewrite !(scanChunks_cons x), Ex. apply IH.
Qed.

Lemma len_generateRandomBytes (n : Z) (w w1 : World) (r : list byte) :
  0 <= n -> generateRandomBytes n w = (w1, Ok r) ->
  len r = n /\ files w1 = files w /\ written w1 = written w.
Proof.
  intros Hn H. unfold generateRandomBytes in H. inversion H; subst. clear H.
  cbn [files written]. split; [|split; reflexivity].
  unfold len. rewrite length_app, repeat_length, length_take. lia.
Qed.

Section RandomMode.

Variable sha1_Sum : list byte -> list byte.
Variable json_Unmarshal : list byte -> option ImageMetadata.

(** X26. The random mode on a PNG file made of whole chunks leaves the
    metadata as it reads: after a successful call [GetImageMetadata]
    returns what it returned before, the chunk added being one that the
    reader passes over. *)
Theorem random_png_keeps_metadata (imagePath : string) (cs : list Chunk) (w w' : World)
    (d : list byte) :
  files w !! imagePath = Some (pngSignature ++ encodeChunks cs) ->
  formatOf (ToLower (Ext imagePath)) = Some PNG ->
  Forall Chunk_wf cs ->
  ImageModifier_ModifyImageSHA1 sha1_Sum imagePath w = (w', Ok d) ->
  GetImageMetadata json_Unmarshal imagePath w = (w, Ok (scanChunks cs emptyMetadata)) /\
  GetImageMetadata json_Unmarshal imagePath w' = (w', Ok (scanChunks cs emptyMetadata)).
Proof.
  intros Hf Hx Hwf Hrun.
  assert (Hread : forall v rest,
            files v !! imagePath = Some (pngSignature ++ encodeChunks rest) ->
            Forall Chunk_wf rest ->
            GetImageMetadata json_Unmarshal imagePath v
            = (v, Ok (scanChunks rest emptyMetadata))).
  { intros v rest Hv Hrest. unfold GetImageMetadata, bind, os_Stat_exists.
    rewrite Hv, Hx. unfold getPNGMetadata, bind, os_ReadFile. rewrite Hv.
    rewrite lacks_png_signature_chunks. unfold ret.
    rewrite getPNGMetadata_chunks by exact Hrest. reflexivity. }
  split; [apply (Hread w cs Hf Hwf)|].
  unfold ImageModifier_ModifyImageSHA1, bind, os_Stat_exists, os_ReadFile in Hrun.
  rewrite Hf in Hrun. cbv beta iota in Hrun. rewrite Hf in Hrun.
  unfold randomSwitch in Hrun. rewrite Hx in Hrun. unfold bind, ret in Hrun.
  destruct (generateRandomBytes 32 w) as [w1 [r|e]] eqn:Hg;
    [|unfold generateRandomBytes in Hg; inversion Hg].
  apply len_generateRandomBytes in Hg; [|lia]. destruct Hg as (Hr & Hf1 & _).
  apply verifyAndWrite_Ok in Hrun. destruct Hrun as (_ & _ & _ & Hfiles).
  assert (Hfit : len (payload (lit "Random", r)) < 2 ^ 32).
  { unfold payload. cbn [fst snd]. rewrite !len_app, !len_cons, len_nil, Hr.
    change (len (lit "Random")) with 6. lia. }
  destruct (createPNGTextChunk_encode (lit "Random", r) Hfit) as [Henc Hcwf].
  cbn [fst snd] in Henc.
  assert (Hout : insertPNGTextChunk (pngSignature ++ encodeChunks cs) (lit "Random") r
                 = pngSignature
                   ++ encodeChunks (beforeIEND cs ++ textChunk (lit "Random", r) :: fromIEND cs)).
  { rewrite insertPNGTextChunk_one, insertPNGTextChunks_chunks by exact Hwf.
    cbn [concat]. rewrite app_nil_r, Henc.
    rewrite encodeChunks_app, encodeChunks_cons. reflexivity. }
  rewrite Hout in Hfiles.
  rewrite (Hread w' (beforeIEND cs ++ textChunk (lit "Random", r) :: fromIEND cs)).
  - rewrite scanChunks_unread; [reflexivity | reflexivity |].
    intros m. change (bytes_Equal (chunkType (textChunk (lit "Random", r))) (lit "tEXt"))
      with true. cbv iota. apply parse_Random.
  - rewrite Hfiles. apply lookup_insert_eq.
  - destruct (Forall_before_from cs Hwf) as [Hb Hfr].
    apply Forall_app. split; [exact Hb|]. constructor; assumption.
Qed.

(** X27. The random mode on a JPEG file of at least four bytes puts
    its comment in front of every segment: after a successful call
    [GetImageMetadata] reads the sixteen random bytes, not the
    metadata comment the file had, and returns the empty record unless
    those bytes are a serialized record. *)
Theorem random_jpeg_masks_metadata (imagePath : string) (data : list byte) (w w' : World)
    (d : list byte) :
  files w !! imagePath = Some data ->
  formatOf (ToLower (Ext imagePath)) = Some JPEG ->
  4 <= len data ->
  ImageModifier_ModifyImageSHA1 sha1_Sum imagePath w = (w', Ok d) ->
  exists w1 r,
    generateRandomBytes 16 w = (w1, Ok r) /\
    files w' !! imagePath = Some (insertJPEGComment data r) /\
    extractJPEGComment (insertJPEGComment data r) = Some r /\
    GetImageMetadata json_Unmarshal imagePath w'
    = (w', Ok (default emptyMetadata (json_Unmarshal r))).
Proof.
  intros Hf Hx Hlen Hrun.
  unfold ImageModifier_ModifyImageSHA1, bind, os_Stat_exists, os_ReadFile in Hrun.
  rewrite Hf in Hrun. cbv beta iota in Hrun. rewrite Hf in Hrun.
  unfold randomSwitch in Hrun. rewrite Hx in Hrun. unfold bind, ret in Hrun.
  destruct (generateRandomBytes 16 w) as [w1 [r|e]] eqn:Hg;
    [|unfold generateRandomBytes in Hg; inversion Hg].
  exists w1, r. split; [reflexivity|].
  apply len_generateRandomBytes in Hg; [|lia]. destruct Hg as (Hr & Hf1 & _).
  apply verifyAndWrite_Ok in Hrun. destruct Hrun as (_ & _ & _ & Hfiles).
  assert (Hfile : files w' !! imagePath = Some (insertJPEGComment data r))
    by (rewrite Hfiles; apply lookup_insert_eq).
  assert (Hex : extractJPEGComment (insertJPEGComment data r) = Some r)
    by (apply extractJPEGComment_insert; lia).
  split; [exact Hfile|]. split; [exact Hex|].
  unfold GetImageMetadata, bind, os_Stat_exists. rewrite Hfile, Hx.
  unfold getJPEGMetadata, bind, os_ReadFile. rewrite Hfile, Hex.
  destruct (json_Unmarshal r); reflexivity.
Qed.

(** X28. On a file that starts with the PNG signature and is named
    .png the two random modes do the same: [imagesha1.ModifyImageSHA1],
    which checks the signature, and [imagemodify.ModifyImageSHA1], which
    does not, return the same result and leave the same world. *)
Theorem checked_random_mode_agrees (jpeg_Decode : list byte -> option image.Image)
    (jpeg_Encode : image.Image -> Z -> option (list byte))
    (imagePath : string) (data : list byte) (w : World) :
  files w !! imagePath = Some data ->
  formatOf (ToLower (Ext imagePath)) = Some PNG ->
  lacks_png_signature data = false ->
  ImageSHA1Modifier_ModifyImageSHA1 sha1_Sum jpeg_Decode jpeg_Encode imagePath w
  = ImageModifier_ModifyImageSHA1 sha1_Sum imagePath w.
Proof.
  intros Hf Hx Hs.
  unfold ImageSHA1Modifier_ModifyImageSHA1, ImageModifier_ModifyImageSHA1,
    bind, os_Stat_exists, os_ReadFile.
  rewrite Hf. cbv beta iota. rewrite Hf.
  unfold sha1Switch, randomSwitch. rewrite Hx.
  unfold modifyPNGSHA1. rewrite Hs. unfold bind, ret, generateRandomBytes.
  cbn [wrap]. reflexivity.
Qed.

End RandomMode.

Lemma random_png_keeps_metadata_witness :
  exists w' d,
    ImageModifier_ModifyImageSHA1 SHA1.Sum "s.png" sampleWorld2 = (w', Ok d) /\
    GetImageMetadata sampleUnmarshal "s.png" w'
    = (w', Ok (scanChunks sampleChunks emptyMetadata)).
Proof.
  destruct (ImageModifier_ModifyImageSHA1 SHA1.Sum "s.png" sampleWorld2)
    as [w' [d|e]] eqn:E; [|vm_compute in E; discriminate E].
  exists w', d. split; [reflexivity|].
  exact (proj2 (random_png_keeps_metadata SHA1.Sum sampleUnmarshal "s.png" sampleChunks
                  sampleWorld2 w' d eq_refl eq_refl sampleChunks_wf E)).
Defined.

Lemma random_jpeg_masks_metadata_witness :
  exists w' d r,
    ImageModifier_ModifyImageSHA1 SHA1.Sum "d.jpg" sampleWorld2 = (w', Ok d) /\
    len r = 16 /\
    GetImageMetadata sampleUnmarshal "d.jpg" w'
    = (w', Ok (default emptyMetadata (sampleUnmarshal r))).
Proof.
  destruct (ImageModifier_ModifyImageSHA1 SHA1.Sum "d.jpg" sampleWorld2)
    as [w' [d|e]] eqn:E; [|vm_compute in E; discriminate E].
  destruct (random_jpeg_masks_metadata SHA1.Sum sampleUnmarshal "d.jpg" sampleJPEG
              sampleWorld2 w' d eq_refl eq_refl) as (w1 & r & Hg & _ & _ & Hread);
    [vm_compute; discriminate | exact E |].
  exists w', d, r. split; [reflexivity|]. split; [|exact Hread].
  vm_compute in Hg. inversion Hg. reflexivity.
Defined.

Lemma checked_random_mode_agrees_witness :
  ImageSHA1Modifier_ModifyImageSHA1 SHA1.Sum noDecode noEncodeQ "s.png" sampleWorld2
  = ImageModifier_ModifyImageSHA1 SHA1.Sum "s.png" sampleWorld2.
Proof.
  exact (checked_random_mode_agrees SHA1.Sum noDecode noEncodeQ "s.png"
           (pngSignature ++ encodeChunks sampleChunks) sampleWorld2
           eq_refl eq_refl eq_refl).
Defined.
